(** * HaloTrackerBot: the match-synchronisation engine, its store and its reports

    A shallow embedding of [utils/scraper.py], [utils/match_cache.py] and
    [cogs/halo_watcher.py], with the chart generators of
    [utils/graph_generator.py].  JSON documents are typed records whose
    optional keys are [option] fields, SQLite tables are finite maps keyed by
    their primary key ([matches] with the rowids of its rows), and the
    effects (database, HTTP, Discord, plot files, the background task) are
    threaded through one state-and-exception monad.

    The records give the bodies of the remote the shape they have when the
    remote keeps to its format: a key is absent or carries a value of its
    type, and an integer fits the 64 bits of an SQLite column. A body in
    which a key carries [null] or a value of another type is not a value of
    these records; on such a body the code raises ([TypeError],
    [AttributeError], [KeyError], [OverflowError]) where the functions below
    go on. *)

From Stdlib Require Import ZArith QArith String Ascii List Bool Lia.
From Stdlib Require Import OrderedTypeEx Sorted.
From stdpp Require Import gmap strings list fin_maps sorting.

Local Open Scope string_scope.
Local Open Scope Z_scope.

(** ** Data model *)

(** JSON numbers are only ever carried from the remote into the store. *)
Definition number : Type := Q.

(** An asset reference as embedded in a match summary. *)
Record asset_ref := {
  AssetId : string;
  VersionId : string
}.

(** [match["MatchInfo"]]: keys read with [info[...]] are fields, keys read
    with [info.get(...)] are optional. [StartTime] is indexed unconditionally
    by [get_new_matches]. *)
Record match_info := {
  StartTime : string;
  EndTime : option string;
  Duration : option string;
  Playlist : asset_ref;
  MapVariant : asset_ref;
  UgcGameVariant : asset_ref;
  TeamsEnabled : option bool;
  TeamScoringEnabled : option bool
}.

(** One entry of the ["Results"] array of the match-list endpoint. *)
Record halo_match := {
  MatchId : string;
  MatchInfo : match_info;
  Outcome : option Z;
  Rank : option Z
}.

(** The body of the match-list endpoint; ["Results"] may be missing. *)
Record match_list := {
  Results : option (list halo_match)
}.

(** The body of the skill endpoint, nested as the remote sends it. *)
Record csr := { CsrValue : option number }.
Record rank_recap := {
  PreMatchCsr : option csr;
  PostMatchCsr : option csr
}.
Record performance := {
  Count : option number;
  Expected : option number
}.
Record stat_performances := {
  Kills : option performance;
  Deaths : option performance
}.
Record skill_result := {
  RankRecap : option rank_recap;
  StatPerformances : option stat_performances;
  TeamMmr : option number;
  TeamMmrs : option (gmap string number)
}.
Record skill_entry := { Result : option skill_result }.
Record skill_response := { Value : option (list skill_entry) }.

(** A non-empty body of the UGC discovery endpoint. *)
Record ugc_asset := {
  PublicName : option string;
  Description : option string
}.

(** Rows of the five tables of [init_db]. *)
Record match_row := {
  start_time : string;
  end_time : option string;
  duration : option string;
  outcome : option Z;
  rank : option Z;
  playlist_id : string;
  map_variant : string;
  map_version : string;
  ugc_variant : string;
  teams_enabled : option bool;
  team_scoring : option bool
}.

Record stats_row := {
  pre_csr : option number;
  post_csr : option number;
  kills : option number;
  deaths : option number;
  kills_expected : option number;
  deaths_expected : option number;
  team_mmr : option number
}.

(** Each table is a finite map from its primary key to the other columns.
    The rows of [matches] have their rowids as well: [INSERT OR REPLACE]
    stores a row under a new rowid, greater than every rowid of the table,
    and a scan meets the rows in the order of their rowids, which is the
    order SQLite leaves to rows that [ORDER BY start_time] does not tell
    apart. [save_match_data] writes the [stats] row of a match in the
    transaction of its [matches] row, so a scan of [stats] meets the matches
    in the same order; the other tables are read by key only. *)
Record Store := {
  matches : gmap string match_row;
  stats : gmap string stats_row;
  team_mmrs : gmap (string * string) number;
  maps : gmap (string * string) ugc_asset;
  Modes : gmap (string * string) ugc_asset;
  matches_rowid : gmap string nat
}.

Definition empty_store : Store :=
  {| matches := ∅; stats := ∅; team_mmrs := ∅; maps := ∅; Modes := ∅;
     matches_rowid := ∅ |}.

(** The two asset tables [_get_or_fetch_asset_data] is called with. *)
Inductive asset_table := maps_table | Modes_table.

Definition table_name (t : asset_table) : string :=
  match t with maps_table => "maps" | Modes_table => "Modes" end.

(** The row of the join [matches m JOIN stats s ON m.match_id = s.match_id]
    with the twelve selected columns. *)
Record recent_row := {
  r_match_id : string;
  r_start_time : string;
  r_end_time : option string;
  r_duration : option string;
  r_outcome : option Z;
  r_pre_csr : option number;
  r_post_csr : option number;
  r_kills : option number;
  r_deaths : option number;
  r_kills_expected : option number;
  r_deaths_expected : option number;
  r_team_mmr : option number
}.

(** ** Effects *)

Inductive exn :=
  | InvalidTokenError
  | KeyError (key : string)
  | IndexError
  | ValueError
  | OperationalError
  | IntegrityError
  | StopIteration
  | DiscordError
  | FileNotFoundError.

Inductive result (A : Type) :=
  | Ok (a : A)
  | Raise (e : exn).
Arguments Ok {A} a.
Arguments Raise {A} e.

(** What [requests.get] followed by [raise_for_status] and [json] yields. *)
Inductive reply (A : Type) :=
  | Body (a : A)
  | Status (code : Z)
  | NoResponse.
Arguments Body {A} a.
Arguments Status {A} code.
Arguments NoResponse {A}.

(** The three endpoints; each answers as a function of the request. *)
Record Remote := {
  matches_endpoint : string -> Z -> reply match_list;
  skill_endpoint : string -> string -> reply skill_response;
  ugc_endpoint : string -> string -> string -> string -> reply (option ugc_asset)
}.

(** What [get_asset_from_db] returns on a hit: a dict with the keys ["name"]
    and ["description"]. *)
Record asset_info := {
  name : option string;
  description : option string
}.

(** What [_get_or_fetch_asset_data] hands on: the cached dict or the body
    just fetched. *)
Inductive asset_data :=
  | Cached (a : asset_info)
  | Fetched (a : ugc_asset).

(** What has been sent: a text to the user, the summary of a match (kept
    as the arguments of [format_match_summary]), a file, or a text answered
    in the channel of a command. *)
Inductive notice :=
  | Text (body : string)
  | Summary (m : halo_match) (s : skill_response) (mode_data map_data : option asset_data)
  | Attachment (path : string)
  | Reply (body : string).

(** [self.scraper_task]: absent, a live task, or a task that is done. *)
Inductive task := NoTask | Running | Done.

(** The world the bot runs in. [db] is the committed content of the SQLite
    file. [disk] and [net] are what the environment will do to the next
    statement executions and the next Discord calls ([true]: that call
    raises; an exhausted list: every further call succeeds). [files] is the
    content of the plot directory. *)
Record World := {
  db : Store;
  disk : list bool;
  net : list bool;
  outbox : list notice;
  files : gset string;
  scraper_task : task;
  was_playing : bool
}.

Definition set_db (s : Store) (w : World) : World :=
  {| db := s; disk := disk w; net := net w; outbox := outbox w;
     files := files w; scraper_task := scraper_task w; was_playing := was_playing w |}.
Definition set_disk (d : list bool) (w : World) : World :=
  {| db := db w; disk := d; net := net w; outbox := outbox w;
     files := files w; scraper_task := scraper_task w; was_playing := was_playing w |}.
Definition set_net (n : list bool) (w : World) : World :=
  {| db := db w; disk := disk w; net := n; outbox := outbox w;
     files := files w; scraper_task := scraper_task w; was_playing := was_playing w |}.
Definition set_outbox (o : list notice) (w : World) : World :=
  {| db := db w; disk := disk w; net := net w; outbox := o;
     files := files w; scraper_task := scraper_task w; was_playing := was_playing w |}.
Definition set_files (f : gset string) (w : World) : World :=
  {| db := db w; disk := disk w; net := net w; outbox := outbox w;
     files := f; scraper_task := scraper_task w; was_playing := was_playing w |}.
Definition set_scraper_task (t : task) (w : World) : World :=
  {| db := db w; disk := disk w; net := net w; outbox := outbox w;
     files := files w; scraper_task := t; was_playing := was_playing w |}.
Definition set_was_playing (b : bool) (w : World) : World :=
  {| db := db w; disk := disk w; net := net w; outbox := outbox w;
     files := files w; scraper_task := scraper_task w; was_playing := b |}.

(** A computation runs in a world and either returns or raises; what it did
    to the world before raising stays done. *)
Definition M (A : Type) : Type := World -> World * result A.

Definition ret {A} (a : A) : M A := fun w => (w, Ok a).
Definition raise {A} (e : exn) : M A := fun w => (w, Raise e).
Definition bind {A B} (c : M A) (k : A -> M B) : M B :=
  fun w => match c w with
           | (w', Ok a) => k a w'
           | (w', Raise e) => (w', Raise e)
           end.
(** [try: c except Exception: pass] *)
Definition try_except {A} (c : M A) (h : exn -> M A) : M A :=
  fun w => match c w with
           | (w', Ok a) => (w', Ok a)
           | (w', Raise e) => h e w'
           end.

Notation "'let!' x ':=' c 'in' k" := (bind c (fun x => k))
  (at level 10, x pattern, c at level 100, k at level 200).
Notation "c ;;; k" := (bind c (fun _ => k))
  (at level 100, k at level 200, right associativity).

Definition lift {A} (r : result A) : M A := fun w => (w, r).

(** [for x in l: body(x)] *)
Fixpoint for_each {A} (body : A -> M unit) (l : list A) : M unit :=
  match l with
  | [] => ret tt
  | x :: l => body x ;;; for_each body l
  end.

(** A Python value that the callers test with [is False], [is None] or for
    truthiness. *)
Inductive pyval (A : Type) :=
  | PyFalse
  | PyNone
  | Py (a : A).
Arguments PyFalse {A}.
Arguments PyNone {A}.
Arguments Py {A} a.

(** ** utils/scraper.py: the remote client *)

Section Scraper.

Variable R : Remote.

(** [halo_request]: the body, [None] after a logged failure, and
    [InvalidTokenError] for HTTP 401 only. *)
Definition halo_request {A} (r : reply A) : result (option A) :=
  match r with
  | Body a => Ok (Some a)
  | Status code => if code =? 401 then Raise InvalidTokenError else Ok None
  | NoResponse => Ok None
  end.

Definition get_match_list (token : string) (count : Z) : result (option match_list) :=
  halo_request (matches_endpoint R token count).

(** [fetch_ugc_asset]: every [RequestException] becomes the empty dict,
    which is [None] here. *)
Definition fetch_ugc_asset (token asset_type asset_id version_id : string)
  : option ugc_asset :=
  match ugc_endpoint R token asset_type asset_id version_id with
  | Body a => a
  | Status _ => None
  | NoResponse => None
  end.

Definition get_new_matches (old_match_id token : string)
  : result (pyval (list halo_match)) :=
  match get_match_list token 5 with
  | Raise InvalidTokenError => Ok (Py [])
  | Raise e => Raise e
  | Ok response =>
    match response with
    | None => Ok (Py [])
    | Some response =>
      match Results response with
      | None => Ok (Py [])
      | Some matches =>
        let match_ids := map MatchId matches in
        if existsb (String.eqb old_match_id) match_ids then
          match find (fun m => String.eqb (MatchId m) old_match_id) matches with
          | Some old_match =>
            let old_start_time := StartTime (MatchInfo old_match) in
            Ok (Py (List.filter
                      (fun m => String.ltb old_start_time (StartTime (MatchInfo m)))
                      matches))
          | None => Raise StopIteration
          end
        else Ok (Py matches)
      end
    end
  end.

(** The chain of tests of [get_match_stats] on the decoded body. *)
Definition has_rank_recap (response : skill_response) : bool :=
  match Value response with
  | Some (entry :: _) =>
    match Result entry with
    | Some res => match RankRecap res with Some _ => true | None => false end
    | None => false
    end
  | _ => false
  end.

Definition get_match_stats (match_id token : string)
  : result (pyval skill_response) :=
  match halo_request (skill_endpoint R token match_id) with
  | Raise e => Raise e
  | Ok (Some response) => if has_rank_recap response then Ok (Py response) else Ok PyNone
  | Ok None => Ok PyNone
  end.

End Scraper.

(** ** utils/match_cache.py: the local store *)

Definition set_matches (t : gmap string match_row) (c : Store) : Store :=
  {| matches := t; stats := stats c; team_mmrs := team_mmrs c;
     maps := maps c; Modes := Modes c; matches_rowid := matches_rowid c |}.
Definition set_stats (t : gmap string stats_row) (c : Store) : Store :=
  {| matches := matches c; stats := t; team_mmrs := team_mmrs c;
     maps := maps c; Modes := Modes c; matches_rowid := matches_rowid c |}.
Definition set_team_mmrs (t : gmap (string * string) number) (c : Store) : Store :=
  {| matches := matches c; stats := stats c; team_mmrs := t;
     maps := maps c; Modes := Modes c; matches_rowid := matches_rowid c |}.
Definition set_maps (t : gmap (string * string) ugc_asset) (c : Store) : Store :=
  {| matches := matches c; stats := stats c; team_mmrs := team_mmrs c;
     maps := t; Modes := Modes c; matches_rowid := matches_rowid c |}.
Definition set_Modes (t : gmap (string * string) ugc_asset) (c : Store) : Store :=
  {| matches := matches c; stats := stats c; team_mmrs := team_mmrs c;
     maps := maps c; Modes := t; matches_rowid := matches_rowid c |}.
Definition set_matches_rowid (t : gmap string nat) (c : Store) : Store :=
  {| matches := matches c; stats := stats c; team_mmrs := team_mmrs c;
     maps := maps c; Modes := Modes c; matches_rowid := t |}.

(** The rowid that SQLite gives to a row inserted into [matches]: one more
    than the greatest in the table, 1 in an empty table. *)
Definition next_rowid (c : Store) : nat :=
  S (max_list (map_to_list (matches_rowid c)).*2).

(** [INSERT OR REPLACE INTO matches]: the row is inserted under a new
    rowid, and a row with the same id is deleted. *)
Definition replace_into_matches (match_id : string) (row : match_row) (c : Store)
  : Store :=
  set_matches_rowid (<[match_id := next_rowid c]> (matches_rowid c))
    (set_matches (<[match_id := row]> (matches c)) c).

(** The rows of [matches] as a scan of the table meets them: by rowid. Two
    rows of a table of SQLite never carry the same rowid; where that is
    written here the id decides, so that the scan is a function of the
    content. *)
Definition rowid_of (c : Store) (match_id : string) : nat :=
  default 0%nat (matches_rowid c !! match_id).

Definition scanned_before (c : Store) (a b : string) : bool :=
  (rowid_of c a <? rowid_of c b)%nat
  || ((rowid_of c a =? rowid_of c b)%nat && String.leb a b).

Definition scan_leb (c : Store) (x y : string * match_row) : Prop :=
  scanned_before c x.1 y.1 = true.

#[global] Instance scan_leb_dec c x y : Decision (scan_leb c x y).
Proof. unfold scan_leb. apply _. Defined.

Definition scan_matches (c : Store) : list (string * match_row) :=
  merge_sort (scan_leb c) (map_to_list (matches c)).

(** [get_db_connection]: a connection starts from the committed content;
    its statements work on a pending copy, handed from statement to
    statement, until [commit] publishes it. *)
Definition get_db_connection : M Store := fun w => (w, Ok (db w)).

Definition commit (pending : Store) : M unit := fun w => (set_db pending w, Ok tt).

(** [cursor.execute]: the statement is refused by the engine when the
    environment says so, otherwise it has its effect [run]. *)
Definition execute {A} (run : result A) : M A :=
  fun w => match disk w with
           | true :: d => (set_disk d w, Raise OperationalError)
           | false :: d => (set_disk d w, run)
           | [] => (w, run)
           end.

(** [with get_db_connection() as conn: body]: leaving the block normally
    commits, leaving it by an exception rolls the pending copy back. *)
Definition with_connection {A} (body : Store -> M (Store * A)) : M A :=
  let! conn := get_db_connection in
  try_except
    (let! (pending, a) := body conn in
     commit pending ;;;
     ret a)
    (fun e => raise e).

(** The values bound by [_save_match_info], after the match id. *)
Definition match_row_of (m : halo_match) : match_row :=
  let info := MatchInfo m in
  {| start_time := StartTime info;
     end_time := EndTime info;
     duration := Duration info;
     outcome := Outcome m;
     rank := Rank m;
     playlist_id := AssetId (Playlist info);
     map_variant := AssetId (MapVariant info);
     map_version := VersionId (MapVariant info);
     ugc_variant := AssetId (UgcGameVariant info);
     teams_enabled := TeamsEnabled info;
     team_scoring := TeamScoringEnabled info |}.

Definition _save_match_info (cursor : Store) (m : halo_match) : M Store :=
  execute (Ok (replace_into_matches (MatchId m) (match_row_of m) cursor)).

(** [stats["Value"][0]["Result"]] *)
Definition value_0_result (s : skill_response) : result skill_result :=
  match Value s with
  | None => Raise (KeyError "Value")
  | Some [] => Raise IndexError
  | Some (entry :: _) =>
    match Result entry with
    | None => Raise (KeyError "Result")
    | Some res => Ok res
    end
  end.

(** The empty dict that [_save_stats] falls back to. *)
Definition no_result : skill_result :=
  {| RankRecap := None; StatPerformances := None; TeamMmr := None; TeamMmrs := None |}.

(** [d.get(key, {})] on a dict that may itself be the default [{}]. *)
Definition get {A B} (key : A -> option B) (d : option A) : option B :=
  match d with
  | Some a => key a
  | None => None
  end.

Definition stats_row_of (res : skill_result) : stats_row :=
  let rank_recap := RankRecap res in
  let perf := StatPerformances res in
  {| pre_csr := get CsrValue (get PreMatchCsr rank_recap);
     post_csr := get CsrValue (get PostMatchCsr rank_recap);
     kills := get Count (get Kills perf);
     deaths := get Count (get Deaths perf);
     kills_expected := get Expected (get Kills perf);
     deaths_expected := get Expected (get Deaths perf);
     team_mmr := TeamMmr res |}.

Definition _save_stats (cursor : Store) (match_id : string) (s : skill_response)
  : M Store :=
  let! res := lift (match Value s with
                    | Some _ => value_0_result s
                    | None => Ok no_result
                    end) in
  execute (Ok (set_stats (<[match_id := stats_row_of res]> (stats cursor)) cursor)).

(** [INSERT INTO team_mmrs VALUES (?, ?, ?)]: a plain insert, refused on an
    existing primary key. *)
Definition insert_team_mmr (cursor : Store) (match_id tid : string) (mmr : number)
  : result Store :=
  match team_mmrs cursor !! (match_id, tid) with
  | Some _ => Raise IntegrityError
  | None => Ok (set_team_mmrs (<[(match_id, tid) := mmr]> (team_mmrs cursor)) cursor)
  end.

Fixpoint insert_team_mmrs (cursor : Store) (match_id : string)
    (items : list (string * number)) : M Store :=
  match items with
  | [] => ret cursor
  | (tid, mmr) :: items =>
    let! cursor := execute (insert_team_mmr cursor match_id tid mmr) in
    insert_team_mmrs cursor match_id items
  end.

Definition _save_team_mmrs (cursor : Store) (match_id : string) (s : skill_response)
  : M Store :=
  let! cursor := execute (Ok (set_team_mmrs
                    (filter (fun kv => kv.1.1 ≠ match_id) (team_mmrs cursor)) cursor)) in
  let! res := lift (value_0_result s) in
  insert_team_mmrs cursor match_id (map_to_list (default ∅ (TeamMmrs res))).

Definition save_match_data (m : halo_match) (s : skill_response) : M unit :=
  with_connection (fun c =>
    let! c := _save_match_info c m in
    let! c := _save_stats c (MatchId m) s in
    let! c := _save_team_mmrs c (MatchId m) s in
    commit c ;;;
    ret (c, tt)).

(** [ORDER BY start_time DESC]: text columns compare byte by byte. Rows are
    inserted one by one into a descending list, an earlier row staying in
    front of a later one with the same key: of rows with the same
    [start_time], the one the scan meets first comes first. *)
Section OrderBy.

Context {A : Type}.
Variable key : A -> string.

Fixpoint insert_desc (x : A) (l : list A) : list A :=
  match l with
  | [] => [x]
  | y :: l' => if String.leb (key y) (key x) then x :: y :: l'
               else y :: insert_desc x l'
  end.

Definition order_by_desc (l : list A) : list A := foldr insert_desc [] l.

End OrderBy.

(** What [Get_Latest_Match] returns: the id and the start time. *)
Record latest_match := {
  latest_MatchId : string;
  latest_StartTime : string
}.

(** [CREATE TABLE IF NOT EXISTS], once per table: no content changes. *)
Definition init_db : M unit :=
  with_connection (fun conn =>
    for_each (fun _ : string => execute (Ok tt))
      ["matches"; "stats"; "team_mmrs"; "maps"; "Modes"] ;;;
    commit conn ;;;
    ret (conn, tt)).

Definition Get_Latest_Match : M (option latest_match) :=
  with_connection (fun conn =>
    let! rows := execute (Ok (order_by_desc (fun r => start_time r.2)
                                (scan_matches conn))) in
    match rows with
    | row :: _ =>
      ret (conn, Some {| latest_MatchId := row.1;
                         latest_StartTime := start_time row.2 |})
    | [] => ret (conn, None)
    end).

Definition asset_rows (t : asset_table) (c : Store) : gmap (string * string) ugc_asset :=
  match t with maps_table => maps c | Modes_table => Modes c end.

Definition get_asset_from_db (t : asset_table) (asset_id version_id : string)
  : M (option asset_info) :=
  with_connection (fun conn =>
    let! found := execute (Ok (asset_rows t conn !! (asset_id, version_id))) in
    match found with
    | Some a => ret (conn, Some {| name := PublicName a; description := Description a |})
    | None => ret (conn, None)
    end).

Definition upsert_asset (cursor : Store) (t : asset_table)
    (asset_id version_id : string) (public_name description : option string)
  : M Store :=
  let row := {| PublicName := public_name; Description := description |} in
  execute (Ok (match t with
               | maps_table =>
                 set_maps (<[(asset_id, version_id) := row]> (maps cursor)) cursor
               | Modes_table =>
                 set_Modes (<[(asset_id, version_id) := row]> (Modes cursor)) cursor
               end)).

(** [FROM matches m JOIN stats s ON m.match_id = s.match_id] *)
Definition join_row (c : Store) (m : string * match_row) : option recent_row :=
  match stats c !! m.1 with
  | Some s =>
    Some {| r_match_id := m.1;
            r_start_time := start_time m.2;
            r_end_time := end_time m.2;
            r_duration := duration m.2;
            r_outcome := outcome m.2;
            r_pre_csr := pre_csr s;
            r_post_csr := post_csr s;
            r_kills := kills s;
            r_deaths := deaths s;
            r_kills_expected := kills_expected s;
            r_deaths_expected := deaths_expected s;
            r_team_mmr := team_mmr s |}
  | None => None
  end.

Definition matches_join_stats (c : Store) : list recent_row :=
  order_by_desc r_start_time (omap (join_row c) (scan_matches c)).

(** [LIMIT ?]: a negative bound is no bound. *)
Definition limit {A} (count : Z) (rows : list A) : list A :=
  if count <? 0 then rows else take (Z.to_nat count) rows.

(** [timedelta(hours=2)], in microseconds. *)
Definition two_hours : Z := 7200000000.

Section RecentMatches.

(** [datetime.fromisoformat(s.replace("Z", "+00:00"))] as microseconds since
    the epoch, [None] where it raises [ValueError]. *)
Variable fromisoformat : string -> option Z.

(** The loop of the session branch, from [last_match_time] over the rows
    that are left; the rows come out in the order they were appended. *)
Fixpoint session_loop (last_match_time : Z) (rows : list recent_row)
  : result (list recent_row) :=
  match rows with
  | [] => Ok []
  | m :: rows =>
    match fromisoformat (r_start_time m) with
    | None => Raise ValueError
    | Some current_match_time =>
      if two_hours <? last_match_time - current_match_time then Ok []
      else match session_loop current_match_time rows with
           | Ok session_matches => Ok (m :: session_matches)
           | Raise e => Raise e
           end
    end
  end.

Definition session_of (all_matches : list recent_row) : result (list recent_row) :=
  match all_matches with
  | [] => Ok []
  | first :: _ =>
    match fromisoformat (r_start_time first) with
    | None => Raise ValueError
    | Some last_match_time =>
      match session_loop last_match_time all_matches with
      | Ok session_matches => Ok (rev session_matches)
      | Raise e => Raise e
      end
    end
  end.

Definition get_recent_match_data (count : Z) (session_only : bool)
  : M (list recent_row) :=
  with_connection (fun conn =>
    if session_only then
      let! all_matches := execute (Ok (matches_join_stats conn)) in
      let! session := lift (session_of all_matches) in
      ret (conn, session)
    else
      let! rows := execute (Ok (limit count (matches_join_stats conn))) in
      ret (conn, rows)).

End RecentMatches.

(** ** utils/graph_generator.py: the chart renderer, as far as files go *)

Definition PLOT_DIR : string := "./plots".

(** [os.path.join(PLOT_DIR, filename)] *)
Definition plot_path (filename : string) : string := PLOT_DIR ++ "/" ++ filename.

(** [plt.savefig(filepath)] *)
Definition savefig (filepath : string) : M unit :=
  fun w => (set_files ({[filepath]} ∪ files w) w, Ok tt).

Definition notna {A} (v : option A) : bool :=
  match v with Some _ => true | None => false end.

(** What a caller hands to a generator: dicts, as [report] makes them with
    [dict(row)], or the [sqlite3.Row] objects themselves, as
    [handle_halo_stopped] does. Of [sqlite3.Row] objects [pd.DataFrame] makes
    a frame with numbered columns: none of the columns the generators name
    is in it. *)
Inductive records :=
  | Dicts (data : list recent_row)
  | Rows (data : list recent_row).

(** On a frame without [post_csr] the column is added as [pd.NA], and no
    row is left after the filter. *)
Definition generate_csr_trend_plot (data : records) : M (option string) :=
  match data with
  | Dicts [] | Rows [] => ret None
  | Rows (_ :: _) => ret None
  | Dicts ((_ :: _) as data) =>
    match List.filter (fun r => notna (r_post_csr r)) data with
    | [] => ret None
    | _ =>
      let filepath := plot_path "csr_trend.png" in
      savefig filepath ;;;
      ret (Some filepath)
    end
  end.

(** On a frame without [kills], [sns.lineplot(..., y='kills', data=df)]
    raises [ValueError]. *)
Definition generate_kd_plot (data : records) : M (option string) :=
  match data with
  | Dicts [] | Rows [] => ret None
  | Rows (_ :: _) => raise ValueError
  | Dicts (_ :: _) =>
    let filepath := plot_path "kd_plot.png" in
    savefig filepath ;;;
    ret (Some filepath)
  end.

(** On a frame without [kills], [df['kills']] raises [KeyError]. *)
Definition generate_kd_ratio_plot (data : records) : M (option string) :=
  match data with
  | Dicts [] | Rows [] => ret None
  | Rows (_ :: _) => raise (KeyError "kills")
  | Dicts (_ :: _) =>
    let filepath := plot_path "kd_ratio_plot.png" in
    savefig filepath ;;;
    ret (Some filepath)
  end.

(** ** cogs/halo_watcher.py *)

(** [os.remove] *)
Definition os_remove (path : string) : M unit :=
  fun w => if bool_decide (path ∈ files w)
           then (set_files (files w ∖ {[path]}) w, Ok tt)
           else (w, Raise FileNotFoundError).

(** One call to Discord: it raises when the environment says so, otherwise
    it delivers [sent]. *)
Definition discord (sent : list notice) : M unit :=
  fun w => match net w with
           | true :: n => (set_net n w, Raise DiscordError)
           | false :: n => (set_outbox (outbox w ++ sent) (set_net n w), Ok tt)
           | [] => (set_outbox (outbox w ++ sent) w, Ok tt)
           end.

(** [user = await self.bot.fetch_user(...); dm = await user.create_dm()] *)
Definition create_dm : M unit := discord [].

Definition dm_send (body : string) : M unit := discord [Text body].

Definition ctx_send (body : string) : M unit := discord [Reply body].

(** [await dm.send(file=discord.File(path))]: the file is opened first. *)
Definition dm_send_file (path : string) : M unit :=
  let! present := (fun w => (w, Ok (bool_decide (path ∈ files w)))) in
  if present : bool then discord [Attachment path] else raise FileNotFoundError.

Definition start_scraper : M unit :=
  fun w => match scraper_task w with
           | NoTask | Done => (set_scraper_task Running w, Ok tt)
           | Running => (w, Ok tt)
           end.

Definition stop_scraper : M unit :=
  fun w => match scraper_task w with
           | Running => (set_scraper_task NoTask w, Ok tt)
           | _ => (w, Ok tt)
           end.

Section HaloWatcher.

Variable R : Remote.
(** [config.SPARTAN_TOKEN], kept in [self.spartan_token]. *)
Variable SPARTAN_TOKEN : string.
(** [config.USER_ID] *)
Variable USER_ID : Z.
Variable fromisoformat : string -> option Z.

(** One generated chart: sent, then removed. *)
Definition send_plot (generate : records -> M (option string))
    (recent_matches : records) : M unit :=
  let! plot_path := generate recent_matches in
  match plot_path with
  | Some path =>
    dm_send_file path ;;;
    os_remove path
  | None => ret tt
  end.

Definition send_plots (recent_matches : records) : M unit :=
  send_plot generate_csr_trend_plot recent_matches ;;;
  send_plot generate_kd_plot recent_matches ;;;
  send_plot generate_kd_ratio_plot recent_matches.

Definition handle_halo_started : M unit :=
  (fun w => (set_was_playing true w, Ok tt)) ;;;
  start_scraper.

Definition handle_halo_stopped : M unit :=
  (fun w => (set_was_playing false w, Ok tt)) ;;;
  stop_scraper ;;;
  let! recent_matches := get_recent_match_data fromisoformat 10 false in
  match recent_matches with
  | [] => ret tt
  | _ =>
    create_dm ;;;
    send_plots (Rows recent_matches)
  end.

(** [on_presence_update] for the member [after_id] showing the activities
    with the given names. *)
Definition on_presence_update (after_id : Z) (activities : list string) : M unit :=
  fun w =>
    if negb (after_id =? USER_ID) then (w, Ok tt)
    else
      let is_playing_halo := existsb (String.eqb "Halo Infinite") activities in
      if is_playing_halo && negb (was_playing w) then handle_halo_started w
      else if negb is_playing_halo && was_playing w then handle_halo_stopped w
      else (w, Ok tt).

(** [send_match_summary_report]: everything is inside the [try]. The notice
    keeps the arguments of [format_match_summary] and stands for the text it
    returns for them; the sample matches have the keys it reads. *)
Definition send_match_summary_report (m : halo_match) (s : skill_response)
    (mode_data map_data : option asset_data) : M unit :=
  try_except
    (create_dm ;;;
     discord [Summary m s mode_data map_data])
    (fun _ => ret tt).

Definition _handle_invalid_token : M unit :=
  stop_scraper ;;;
  create_dm ;;;
  dm_send "Your Spartan token has expired or is invalid. Please set the SPARTAN_TOKEN environment variable with a new token and restart the bot. You can get a new token by going to https://www.halowaypoint.com/en-us/profile/settings, logging in, opening your browser's developer tools (F12), going to the Network tab, refresh the page, finding a request to `https://halostats.svc.halowaypoint.com/hi/players/xuid(...)`, and copying the `x-343-authorization-spartan` header value." ;;;
  try_except
    (dm_send "Please restart the bot after setting the new token.")
    (fun _ => ret tt).

Definition _get_or_fetch_asset_data (asset_type : asset_table)
    (asset_id version_id : string) : M (option asset_data) :=
  let! cached := get_asset_from_db asset_type asset_id version_id in
  match cached with
  | Some a => ret (Some (Cached a))
  | None =>
    match fetch_ugc_asset R SPARTAN_TOKEN (table_name asset_type) asset_id version_id with
    | Some a =>
      let! conn := get_db_connection in
      let! conn := upsert_asset conn asset_type asset_id version_id
                     (PublicName a) (Description a) in
      commit conn ;;;
      ret (Some (Fetched a))
    | None => ret None
    end
  end.

(** [if stats:] on a dict: only the empty dict is false, and a body without
    ["Value"] is how the empty dict is written here. *)
Definition truthy (s : skill_response) : bool := notna (Value s).

Definition _process_new_match (m : halo_match) : M unit :=
  let! stats := lift (get_match_stats R (MatchId m) SPARTAN_TOKEN) in
  match stats with
  | PyFalse => _handle_invalid_token
  | PyNone => ret tt
  | Py s =>
    if truthy s then
      save_match_data m s ;;;
      let ugc_game_variant := UgcGameVariant (MatchInfo m) in
      let! mode_data := _get_or_fetch_asset_data Modes_table
                          (AssetId ugc_game_variant) (VersionId ugc_game_variant) in
      let map_variant := MapVariant (MatchInfo m) in
      let! map_data := _get_or_fetch_asset_data maps_table
                         (AssetId map_variant) (VersionId map_variant) in
      send_match_summary_report m s mode_data map_data
    else ret tt
  end.

(** [db_latest_match['MatchId'] if db_latest_match else ""] *)
Definition latest_known_id (db_latest_match : option latest_match) : string :=
  match db_latest_match with
  | Some latest => latest_MatchId latest
  | None => ""
  end.

Definition check_for_new_matches : M unit :=
  let! db_latest_match := Get_Latest_Match in
  let! new_matches := lift (get_new_matches R (latest_known_id db_latest_match)
                              SPARTAN_TOKEN) in
  match new_matches with
  | PyFalse => _handle_invalid_token
  | PyNone => ret tt
  | Py [] => ret tt
  | Py new_matches => for_each _process_new_match new_matches
  end.

(** One turn of [check_new_games_loop]: a live task runs
    [check_for_new_matches] and sleeps; an exception that leaves the loop
    ends the task for good. *)
Definition check_new_games_loop (w : World) : World :=
  match scraper_task w with
  | Running =>
    match check_for_new_matches w with
    | (w', Ok _) => w'
    | (w', Raise _) => set_scraper_task Done w'
    end
  | _ => w
  end.

Definition refresh : M unit :=
  ctx_send "Manually refreshing match data..." ;;;
  check_for_new_matches ;;;
  ctx_send "Refresh complete.".

Definition report : M unit :=
  ctx_send "Generating report..." ;;;
  let! recent_matches_raw := get_recent_match_data fromisoformat 10 true in
  let! recent_matches_raw :=
    if (Z.of_nat (length recent_matches_raw) <? 3) then
      ctx_send "⚠️ Your current session has fewer than 3 matches. Generating report for the last 20 matches instead." ;;;
      get_recent_match_data fromisoformat 20 false
    else ret recent_matches_raw in
  match recent_matches_raw with
  | [] => ctx_send "Could not generate report: No match data found."
  | _ =>
    let recent_matches := Dicts recent_matches_raw in
    create_dm ;;;
    send_plots recent_matches ;;;
    ctx_send "Report sent!"
  end.

End HaloWatcher.

(** ** cogs/halo_watcher.py: the start of the bot *)

Section Startup.

Variable R : Remote.
Variable SPARTAN_TOKEN : string.
Variable fromisoformat : string -> option Z.

Definition send_startup_dm : M unit :=
  try_except
    (create_dm ;;;
     dm_send "Hi! Bot is online and watching your Halo activity 👋")
    (fun _ => ret tt).

(** [server_matches["Results"][0]], behind the three tests that guard it. *)
Definition server_latest (server_matches : option match_list) : option halo_match :=
  match server_matches with
  | Some response =>
    match Results response with
    | Some (first :: _) => Some first
    | _ => None
    end
  | None => None
  end.

(** [datetime.fromisoformat(s.replace("Z", "+00:00"))], raising where it
    raises. *)
Definition parse_start_time (s : string) : M Z :=
  lift (match fromisoformat s with
        | Some t => Ok t
        | None => Raise ValueError
        end).

Definition _check_db_vs_server_matches : M unit :=
  let! db_latest_match := Get_Latest_Match in
  let! server_matches := lift (get_match_list R SPARTAN_TOKEN 3) in
  let server_latest_match := server_latest server_matches in
  create_dm ;;;
  match db_latest_match, server_latest_match with
  | None, None =>
    dm_send "ℹ️ No matches found in your local database or on the Halo Waypoint server yet."
  | None, Some _ =>
    dm_send "⚠️ Your local match database is empty, but recent matches were found on the server. The bot will start scraping new matches."
  | Some _, None =>
    dm_send "ℹ️ No recent matches found on the Halo Waypoint server, but your local database contains data."
  | Some db_latest_match, Some server_latest_match =>
    if String.eqb (latest_MatchId db_latest_match) (MatchId server_latest_match) then
      dm_send "✅ Your local match database is up-to-date with the latest match on the server."
    else
      let! db_start_time := parse_start_time (latest_StartTime db_latest_match) in
      let! server_start_time :=
        parse_start_time (StartTime (MatchInfo server_latest_match)) in
      if db_start_time <? server_start_time then
        dm_send "🔄 Your local match database is behind the latest match on the server. The bot will catch up."
      else
        dm_send "✅ Your local match database appears to be up-to-date or even more recent than the latest match currently reported by the server."
  end.

(** [on_ready], for what the gateway answers: [guild] is [None] when
    [get_guild] finds no guild; in a guild, [fetch_member] is a call to
    Discord, and [member] is [None] when it raises [discord.NotFound],
    otherwise the names of the member's activities. *)
Definition on_ready (guild : option (option (list string))) : M unit :=
  match guild with
  | Some member =>
    discord [] ;;;
    match member with
    | Some activities =>
      let is_playing_halo := existsb (String.eqb "Halo Infinite") activities in
      if is_playing_halo then handle_halo_started else ret tt
    | None => ret tt
    end
  | None => ret tt
  end ;;;
  init_db ;;;
  send_startup_dm ;;;
  _check_db_vs_server_matches.

End Startup.

(** ** Timestamps as the remote writes them

    [fromisoformat_utc] reads [YYYY-MM-DDTHH:MM:SS], an optional fraction of
    up to six digits, and the final [Z] that the callers replace by
    [+00:00]; it is the instance of [fromisoformat] the examples run with. *)

Definition digit (c : ascii) : option Z :=
  let n := Z.of_N (N_of_ascii c) in
  if (48 <=? n) && (n <=? 57) then Some (n - 48) else None.

Fixpoint digits (acc : Z) (cs : list ascii) : option Z :=
  match cs with
  | [] => Some acc
  | c :: cs =>
    match digit c with
    | Some d => digits (10 * acc + d) cs
    | None => None
    end
  end.

(** Days from 1970-01-01 to a date of the proleptic Gregorian calendar. *)
Definition days_from_civil (y m d : Z) : Z :=
  let y := if m <=? 2 then y - 1 else y in
  let era := y / 400 in
  let yoe := y - era * 400 in
  let mp := if 2 <? m then m - 3 else m + 9 in
  let doy := (153 * mp + 2) / 5 + d - 1 in
  let doe := yoe * 365 + yoe / 4 - yoe / 100 + doy in
  era * 146097 + doe - 719468.

Definition days_in_month (y m : Z) : Z :=
  if m =? 2 then
    if (y mod 4 =? 0) && (negb (y mod 100 =? 0) || (y mod 400 =? 0)) then 29 else 28
  else if (m =? 4) || (m =? 6) || (m =? 9) || (m =? 11) then 30
  else 31.

Definition fraction_micros (cs : list ascii) : option Z :=
  match cs with
  | [] => Some 0
  | c :: frac =>
    if Ascii.eqb c "."
    then if (1 <=? length frac)%nat && (length frac <=? 6)%nat
         then digits 0 (frac ++ repeat "0"%char (6 - length frac))
         else None
    else None
  end.

Definition fromisoformat_utc (s : string) : option Z :=
  match list_ascii_of_string s with
  | y1 :: y2 :: y3 :: y4 :: d1 :: m1 :: m2 :: d2 :: a1 :: a2 :: t
      :: h1 :: h2 :: c1 :: n1 :: n2 :: c2 :: s1 :: s2 :: rest =>
    if Ascii.eqb d1 "-" && Ascii.eqb d2 "-" && Ascii.eqb t "T"
       && Ascii.eqb c1 ":" && Ascii.eqb c2 ":"
    then
      match digits 0 [y1; y2; y3; y4], digits 0 [m1; m2], digits 0 [a1; a2],
            digits 0 [h1; h2], digits 0 [n1; n2], digits 0 [s1; s2],
            rev rest with
      | Some y, Some m, Some d, Some h, Some n, Some sec, z :: frac =>
        if Ascii.eqb z "Z" && (1 <=? y) && (1 <=? m) && (m <=? 12)
           && (1 <=? d) && (d <=? days_in_month y m)
           && (h <? 24) && (n <? 60) && (sec <? 60)
        then
          match fraction_micros (rev frac) with
          | Some us =>
            Some ((((days_from_civil y m d * 24 + h) * 60 + n) * 60 + sec) * 1000000 + us)
          | None => None
          end
        else None
      | _, _, _, _, _, _, _ => None
      end
    else None
  | _ => None
  end.

(** ** Notions the properties are stated with *)

(** The answer of [SELECT * FROM matches ORDER BY start_time DESC LIMIT 1]
    on a given content. *)
Definition latest_of (c : Store) : option latest_match :=
  match order_by_desc (fun r => start_time r.2) (scan_matches c) with
  | row :: _ => Some {| latest_MatchId := row.1; latest_StartTime := start_time row.2 |}
  | [] => None
  end.

(** The world after some statement executions and nothing else. *)
Definition only_disk (w w' : World) : Prop := exists d, w' = set_disk d w.

(** The [team_mmrs] table once the rows of [match_id] are deleted and one
    row per reported team is inserted. *)
Definition replace_team_mmrs (t : gmap (string * string) number) (match_id : string)
    (teams : gmap string number) : gmap (string * string) number :=
  foldl (fun t item => <[(match_id, item.1) := item.2]> t)
        (filter (fun kv => kv.1.1 ≠ match_id) t)
        (map_to_list teams).

(** The content with all three writes of [save_match_data] done. *)
Definition written (c : Store) (m : halo_match) (res : skill_result) : Store :=
  {| matches := <[MatchId m := match_row_of m]> (matches c);
     stats := <[MatchId m := stats_row_of res]> (stats c);
     team_mmrs := replace_team_mmrs (team_mmrs c) (MatchId m) (default ∅ (TeamMmrs res));
     maps := maps c;
     Modes := Modes c;
     matches_rowid := <[MatchId m := next_rowid c]> (matches_rowid c) |}.

(** No stats row without a matches row of the same id. *)
Definition stats_have_match (c : Store) : Prop :=
  forall match_id, is_Some (stats c !! match_id) -> is_Some (matches c !! match_id).

Section Orders.

Context {A : Type}.
Variable key : A -> string.

(** Every element is at least as late as all that follow it. *)
Definition descending (l : list A) : Prop :=
  StronglySorted (fun a b => String.leb (key b) (key a) = true) l.

(** Every element is at most as late as all that follow it. *)
Definition ascending (l : list A) : Prop :=
  StronglySorted (fun a b => String.leb (key a) (key b) = true) l.

End Orders.

(** The content once [upsert_asset] has stored a fetched body. *)
Definition store_asset (t : asset_table) (asset_id version_id : string)
    (a : ugc_asset) (c : Store) : Store :=
  let row := {| PublicName := PublicName a; Description := Description a |} in
  match t with
  | maps_table => set_maps (<[(asset_id, version_id) := row]> (maps c)) c
  | Modes_table => set_Modes (<[(asset_id, version_id) := row]> (Modes c)) c
  end.

(** The operations of [utils/match_cache.py] on the store; [upsert_asset]
    comes with the connection and the commit of its one caller. *)
Inductive store_op :=
  | Op_init_db
  | Op_save_match_data (m : halo_match) (s : skill_response)
  | Op_Get_Latest_Match
  | Op_get_asset_from_db (t : asset_table) (asset_id version_id : string)
  | Op_get_recent_match_data (count : Z) (session_only : bool)
  | Op_upsert_asset (t : asset_table) (asset_id version_id : string).

Definition run_store_op (R : Remote) (token : string)
    (fromisoformat : string -> option Z) (op : store_op) : M unit :=
  match op with
  | Op_init_db => init_db
  | Op_save_match_data m s => save_match_data m s
  | Op_Get_Latest_Match => Get_Latest_Match ;;; ret tt
  | Op_get_asset_from_db t asset_id version_id =>
    get_asset_from_db t asset_id version_id ;;; ret tt
  | Op_get_recent_match_data count session_only =>
    get_recent_match_data fromisoformat count session_only ;;; ret tt
  | Op_upsert_asset t asset_id version_id =>
    _get_or_fetch_asset_data R token t asset_id version_id ;;; ret tt
  end.

(** A property of the store that a computation keeps, however it ends. *)
Definition db_stable {A} (P : Store -> Prop) (c : M A) : Prop :=
  forall w w' r, P (db w) -> c w = (w', r) -> P (db w').

(** A computation that never commits anything. *)
Definition db_fixed {A} (c : M A) : Prop :=
  forall w w' r, c w = (w', r) -> db w' = db w.

(** [c'] differs from [c] at most in the rows of the matches [ids] and in
    asset rows that [c] did not have; no matches row is lost, and the rows
    of the other matches keep their rowids. *)
Definition grows_at (ids : list string) (c c' : Store) : Prop :=
  (forall id, id ∉ ids -> matches c' !! id = matches c !! id)
  /\ (forall id, id ∉ ids -> stats c' !! id = stats c !! id)
  /\ (forall id tid, id ∉ ids -> team_mmrs c' !! (id, tid) = team_mmrs c !! (id, tid))
  /\ (forall t k, is_Some (asset_rows t c !! k) -> asset_rows t c' !! k = asset_rows t c !! k)
  /\ (forall id, is_Some (matches c !! id) -> is_Some (matches c' !! id))
  /\ (forall id, id ∉ ids -> matches_rowid c' !! id = matches_rowid c !! id).

(** The same rows with the same values in every table, whatever their
    rowids. *)
Definition same_rows (c c' : Store) : Prop :=
  matches c = matches c' /\ stats c = stats c' /\ team_mmrs c = team_mmrs c'
  /\ maps c = maps c' /\ Modes c = Modes c'.

(** The three tables hold what saving [m] with [res] writes. *)
Definition recorded (c : Store) (m : halo_match) (res : skill_result) : Prop :=
  matches c !! MatchId m = Some (match_row_of m)
  /\ stats c !! MatchId m = Some (stats_row_of res)
  /\ forall tid, team_mmrs c !! (MatchId m, tid) = default ∅ (TeamMmrs res) !! tid.

(** The cache has the asset, or the remote does not give it. *)
Definition asset_settled (R : Remote) (token : string) (t : asset_table)
    (a : asset_ref) (c : Store) : Prop :=
  is_Some (asset_rows t c !! (AssetId a, VersionId a))
  \/ fetch_ugc_asset R token (table_name t) (AssetId a) (VersionId a) = None.

(** Processing [m] again has nothing left to write. *)
Definition settled (R : Remote) (token : string) (c : Store) (m : halo_match) : Prop :=
  forall s, get_match_stats R (MatchId m) token = Ok (Py s) ->
    (exists res, value_0_result s = Ok res /\ recorded c m res)
    /\ asset_settled R token Modes_table (UgcGameVariant (MatchInfo m)) c
    /\ asset_settled R token maps_table (MapVariant (MatchInfo m)) c.

(** The page that the match-list call hands to [get_new_matches]: the
    ["Results"] of the body, nothing after a failure. *)
Definition page_of (R : Remote) (token : string) : list halo_match :=
  match get_match_list R token 5 with
  | Ok (Some response) => default [] (Results response)
  | _ => []
  end.

(** The delta for a known id and a page. *)
Definition delta_from (old_match_id : string) (page : list halo_match) : list halo_match :=
  match find (fun m => String.eqb (MatchId m) old_match_id) page with
  | Some old_match =>
    List.filter (fun m => String.ltb (StartTime (MatchInfo old_match))
                                     (StartTime (MatchInfo m))) page
  | None => page
  end.

(** A reply that [halo_request] logs and turns into [None]: no response at
    all, or an HTTP error other than 401. *)
Definition transient {A} (r : reply A) : Prop :=
  match r with
  | Body _ => False
  | Status code => code ≠ 401
  | NoResponse => True
  end.

(** A property of the world that a computation keeps, however it ends. *)
Definition stable {A} (I : World -> Prop) (c : M A) : Prop :=
  forall w w' r, I w -> c w = (w', r) -> I w'.

(** Discord will not fail, no file has been added to those of [w0], and
    the file of every attachment sent since [w0] is gone. *)
Definition charts_cleaned (w0 w : World) : Prop :=
  (forall b, b ∈ net w -> b = false)
  /\ files w ⊆ files w0
  /\ forall p, Attachment p ∈ outbox w -> Attachment p ∈ outbox w0 \/ p ∉ files w.

(** What a chart generator does to the world: nothing, when it returns no
    path or raises, or one file. *)
Definition renders (generate : M (option string)) : Prop :=
  forall w w' r,
    generate w = (w', r) ->
    ((r = Ok None \/ exists e, r = Raise e) /\ w' = w)
    \/ exists p, r = Ok (Some p) /\ w' = set_files ({[p]} ∪ files w) w.

(** ** Further notions *)

(** Every stored match has its stats row and the other way round, and team
    rows belong to stored matches. *)
Definition rows_paired (c : Store) : Prop :=
  (forall match_id, is_Some (matches c !! match_id) <-> is_Some (stats c !! match_id))
  /\ forall match_id tid,
       is_Some (team_mmrs c !! (match_id, tid)) -> is_Some (matches c !! match_id).

(** What the bot reacts to: the gateway being ready, a presence update, the
    polling task waking up, and the two commands. *)
Inductive event :=
  | Ready (guild : option (option (list string)))
  | PresenceUpdate (after_id : Z) (activities : list string)
  | Wake
  | RefreshCommand
  | ReportCommand.

(** The world after the handler of an event has run to its end, whether it
    returned or raised; handlers run one after the other. *)
Definition react (R : Remote) (token : string) (USER_ID : Z)
    (fromisoformat : string -> option Z) (ev : event) (w : World) : World :=
  match ev with
  | Ready guild => (on_ready R token fromisoformat guild w).1
  | PresenceUpdate after_id activities =>
    (on_presence_update USER_ID fromisoformat after_id activities w).1
  | Wake => check_new_games_loop R token w
  | RefreshCommand => (refresh R token w).1
  | ReportCommand => (report fromisoformat w).1
  end.

(** The polling task is alive only while the user is taken to be playing. *)
Definition polls_only_while_playing (w : World) : Prop :=
  scraper_task w = Running -> was_playing w = true.

(** The time of the last row of [session], or [last] when there is none. *)
Definition last_time (fromisoformat : string -> option Z) (last : Z)
    (session : list recent_row) : option Z :=
  match list.last session with
  | Some m => fromisoformat (r_start_time m)
  | None => Some last
  end.

(** ** Sample data for the examples *)

Definition sample_ref (id : string) : asset_ref :=
  {| AssetId := id; VersionId := "v1" |}.

Definition sample_match (id start : string) : halo_match :=
  {| MatchId := id;
     MatchInfo := {| StartTime := start;
                     EndTime := Some "2025-08-26T23:59:59Z";
                     Duration := Some "PT8M33.6347133S";
                     Playlist := sample_ref "playlist";
                     MapVariant := sample_ref "map";
                     UgcGameVariant := sample_ref "mode";
                     TeamsEnabled := Some true;
                     TeamScoringEnabled := Some true |};
     Outcome := Some 2;
     Rank := Some 1 |}.

Definition sample_result : skill_result :=
  {| RankRecap := Some {| PreMatchCsr := Some {| CsrValue := Some (1500 # 1)%Q |};
                          PostMatchCsr := Some {| CsrValue := Some (1515 # 1)%Q |} |};
     StatPerformances :=
       Some {| Kills := Some {| Count := Some (15 # 1)%Q; Expected := Some (25 # 2)%Q |};
               Deaths := Some {| Count := Some (7 # 1)%Q; Expected := Some (8 # 1)%Q |} |};
     TeamMmr := Some (3011 # 2)%Q;
     TeamMmrs := Some (<["team_a" := (1500 # 1)%Q]> (<["team_b" := (1510 # 1)%Q]> ∅)) |}.

Definition sample_stats : skill_response :=
  {| Value := Some [ {| Result := Some sample_result |} ] |}.

Definition m1000 : halo_match := sample_match "m1000" "2025-08-26T10:00:00Z".
Definition m1030 : halo_match := sample_match "m1030" "2025-08-26T10:30:00Z".
Definition m1100 : halo_match := sample_match "m1100" "2025-08-26T11:00:00Z".
Definition m1330 : halo_match := sample_match "m1330" "2025-08-26T13:30:00Z".

(** The store after saving the given matches with the sample stats. *)
Definition sample_store (saved : list halo_match) : Store :=
  foldl (fun c m => written c m sample_result) empty_store saved.

(** A world with a healthy disk and a healthy Discord. *)
Definition world_of (c : Store) : World :=
  {| db := c; disk := []; net := []; outbox := []; files := ∅;
     scraper_task := Running; was_playing := true |}.

(** A remote whose list call returns [page]; every stats call returns the
    sample stats except for the ids in [failing], which get HTTP [code];
    assets are not served. *)
Definition sample_remote (page : reply match_list) (failing : list string) (code : Z)
  : Remote :=
  {| matches_endpoint := fun _ _ => page;
     skill_endpoint := fun _ match_id =>
       if existsb (String.eqb match_id) failing then Status code else Body sample_stats;
     ugc_endpoint := fun _ _ _ _ => NoResponse |}.

Definition page_reply (page : list halo_match) : reply match_list :=
  Body {| Results := Some page |}.

(** The row of the join for a sample match. *)
Definition sample_row (m : halo_match) : recent_row :=
  {| r_match_id := MatchId m;
     r_start_time := StartTime (MatchInfo m);
     r_end_time := Some "2025-08-26T23:59:59Z";
     r_duration := Some "PT8M33.6347133S";
     r_outcome := Some 2;
     r_pre_csr := Some (1500 # 1)%Q;
     r_post_csr := Some (1515 # 1)%Q;
     r_kills := Some (15 # 1)%Q;
     r_deaths := Some (7 # 1)%Q;
     r_kills_expected := Some (25 # 2)%Q;
     r_deaths_expected := Some (8 # 1)%Q;
     r_team_mmr := Some (3011 # 2)%Q |}.

(** The remotes and worlds of the examples. *)
Definition four_matches : list halo_match := [m1330; m1100; m1030; m1000].

Definition remote_ready : Remote := sample_remote (page_reply four_matches) [] 0.

Definition remote_list_401 : Remote := sample_remote (Status 401) [] 0.

Definition remote_no_matches : Remote := sample_remote (page_reply []) [] 0.

Definition remote_stats_503 : Remote :=
  sample_remote (page_reply [m1100; m1030]) ["m1100"] 503.

Definition world_two_known : World := world_of (sample_store [m1000; m1030]).

(** A match that started after every match of the page and is not on it. *)
Definition m1500 : halo_match := sample_match "m1500" "2025-08-26T15:00:00Z".

Definition world_later_known : World := world_of (sample_store [m1500]).

(** The third statement of the next connection is refused. *)
Definition world_failing_disk : World :=
  set_disk [false; false; true] (world_of empty_store).

(** Opening the DM works, the next call to Discord fails. *)
Definition world_failing_discord : World :=
  set_net [false; true] (world_of (sample_store [m1000])).

(** The two replies of [report] and the opening of the DM work, the next
    call to Discord fails. *)
Definition world_failing_upload : World :=
  set_net [false; false; false; true] (world_of (sample_store [m1000])).

(** Stats that report one other team. *)
Definition stats_team_c : skill_response :=
  {| Value := Some [ {| Result := Some
       {| RankRecap := None; StatPerformances := None; TeamMmr := None;
          TeamMmrs := Some {["team_c" := (1490 # 1)%Q]} |} |} ] |}.

(** ** More sample data *)

(** The world of [__init__], before any event. *)
Definition world_at_start (c : Store) : World :=
  {| db := c; disk := []; net := []; outbox := []; files := ∅;
     scraper_task := NoTask; was_playing := false |}.

(** The stats call for the second match of the page is refused with 401. *)
Definition remote_stats_401 : Remote :=
  sample_remote (page_reply [m1100; m1030]) ["m1030"] 401.

(** A remote that serves every asset under one name. *)
Definition remote_with_assets : Remote :=
  {| matches_endpoint := fun _ _ => page_reply [m1000];
     skill_endpoint := fun _ _ => Body sample_stats;
     ugc_endpoint := fun _ _ _ _ =>
       Body (Some {| PublicName := Some "Live Fire"; Description := None |}) |}.

(** * Properties *)

(** ** Running computations *)

Lemma bind_inv {A B} (c : M A) (k : A -> M B) w w' r :
  bind c k w = (w', r) ->
  (exists w1 a, c w = (w1, Ok a) /\ k a w1 = (w', r))
  \/ (exists e, c w = (w', Raise e) /\ r = Raise e).
Proof.
  unfold bind. destruct (c w) as [w1 [a|e]]; intros H.
  - left. eauto.
  - right. inversion H; subst. eauto.
Qed.

Lemma bind_Ok {A B} (c : M A) (k : A -> M B) w w' b :
  bind c k w = (w', Ok b) ->
  exists w1 a, c w = (w1, Ok a) /\ k a w1 = (w', Ok b).
Proof.
  intros H. apply bind_inv in H as [H | (e & _ & H)]; [done | discriminate].
Qed.

Lemma bind_run {A B} (c : M A) (k : A -> M B) w w1 a :
  c w = (w1, Ok a) -> bind c k w = k a w1.
Proof. unfold bind. by intros ->. Qed.

Lemma bind_raise {A B} (c : M A) (k : A -> M B) w w1 e :
  c w = (w1, Raise e) -> bind c k w = (w1, Raise e).
Proof. unfold bind. by intros ->. Qed.

(** A statement execution touches nothing but the environment's schedule. *)
Lemma execute_inv {A} (run : result A) w w' r :
  execute run w = (w', r) ->
  (exists d, w' = set_disk d w) /\ (r = run \/ r = Raise OperationalError).
Proof.
  unfold execute. destruct w as [c d n o f t p]; simpl.
  destruct d as [|[] d]; intros H; inversion H; subst; split; eauto.
Qed.

Lemma execute_healthy {A} (run : result A) w :
  disk w = [] -> execute run w = (w, run).
Proof. unfold execute. by intros ->. Qed.

(** ** Text order *)

Lemma ltb_lt (a b : string) : String.ltb a b = true <-> String_as_OT.lt a b.
Proof.
  unfold String.ltb. rewrite <- String_as_OT.cmp_lt. unfold String_as_OT.cmp.
  destruct (String.compare a b); split; congruence.
Qed.

Lemma ltb_trans (a b c : string) :
  String.ltb a b = true -> String.ltb b c = true -> String.ltb a c = true.
Proof. rewrite !ltb_lt. apply String_as_OT.lt_trans. Qed.

Lemma ltb_irrefl (a : string) : String.ltb a a = false.
Proof.
  destruct (String.ltb a a) eqn:E; [|done].
  apply ltb_lt in E. by destruct (String_as_OT.lt_not_eq _ _ E).
Qed.

Lemma leb_ltb (a b : string) : String.leb a b = negb (String.ltb b a).
Proof.
  unfold String.leb, String.ltb. rewrite (String.compare_antisym b a).
  by destruct (String.compare a b).
Qed.

Lemma leb_refl (a : string) : String.leb a a = true.
Proof. by rewrite leb_ltb, ltb_irrefl. Qed.

Lemma leb_trans (a b c : string) :
  String.leb a b = true -> String.leb b c = true -> String.leb a c = true.
Proof.
  rewrite !leb_ltb, !negb_true_iff. intros Hba Hcb.
  destruct (String.ltb c a) eqn:Hca; [|done].
  destruct (String.compare a b) eqn:Hab.
  - apply String.compare_eq_iff in Hab as ->. congruence.
  - assert (String.ltb a b = true) as Hlt by (unfold String.ltb; by rewrite Hab).
    rewrite (ltb_trans _ _ _ Hca Hlt) in Hcb. discriminate.
  - unfold String.ltb in Hba. rewrite (String.compare_antisym b a), Hab in Hba.
    discriminate.
Qed.

Lemma only_disk_refl w : only_disk w w.
Proof. exists (disk w). by destruct w. Qed.

Lemma only_disk_trans w1 w2 w3 : only_disk w1 w2 -> only_disk w2 w3 -> only_disk w1 w3.
Proof. intros [d1 ->] [d2 ->]. by exists d2. Qed.

Lemma only_disk_db w w' : only_disk w w' -> db w' = db w.
Proof. by intros [d ->]. Qed.

Lemma set_db_only_disk w w' : only_disk w w' -> set_db (db w) w' = w'.
Proof. intros [d ->]. by destruct w. Qed.

Lemma execute_only_disk {A} (run : result A) w w' r :
  execute run w = (w', r) -> only_disk w w'.
Proof. intros H. by apply execute_inv in H as [? _]. Qed.

(** ** The scan of the matches table *)

Lemma leb_total (a b : string) : String.leb a b = true \/ String.leb b a = true.
Proof.
  rewrite (leb_ltb a b). destruct (String.ltb b a) eqn:Hlt; [right | by left].
  rewrite leb_ltb. destruct (String.ltb a b) eqn:Hgt; [|done].
  pose proof (ltb_irrefl b) as Hirr. by rewrite (ltb_trans _ _ _ Hlt Hgt) in Hirr.
Qed.

Lemma scanned_before_refl c a : scanned_before c a a = true.
Proof.
  unfold scanned_before. rewrite Nat.eqb_refl, leb_refl. apply orb_true_r.
Qed.

Lemma scanned_before_inv c a b :
  scanned_before c a b = true <->
  (rowid_of c a < rowid_of c b)%nat
  \/ (rowid_of c a = rowid_of c b /\ String.leb a b = true).
Proof.
  unfold scanned_before.
  rewrite orb_true_iff, andb_true_iff, Nat.ltb_lt, Nat.eqb_eq. tauto.
Qed.

Lemma scanned_before_antisym c a b :
  scanned_before c a b = true -> scanned_before c b a = true -> a = b.
Proof.
  rewrite !scanned_before_inv.
  intros [? | [? ?]] [? | [? ?]]; try lia. by apply String.leb_antisym.
Qed.

#[local] Instance scan_leb_trans c : Transitive (scan_leb c).
Proof.
  intros x y z. unfold scan_leb. rewrite !scanned_before_inv.
  intros [? | [? ?]] [? | [? ?]]; try (left; lia).
  right. split; [lia | by eapply leb_trans].
Qed.

#[local] Instance scan_leb_total c : Total (scan_leb c).
Proof.
  intros x y. unfold scan_leb. rewrite !scanned_before_inv.
  destruct (lt_eq_lt_dec (rowid_of c x.1) (rowid_of c y.1)) as [[? | ?] | ?];
    [by left; left | | by right; left].
  destruct (leb_total x.1 y.1); [left | right]; by right.
Qed.

Lemma scan_matches_perm c : scan_matches c ≡ₚ map_to_list (matches c).
Proof. apply merge_sort_Permutation. Qed.

Lemma elem_of_scan_matches c (x : string * match_row) :
  x ∈ scan_matches c <-> matches c !! x.1 = Some x.2.
Proof. rewrite scan_matches_perm. destruct x. apply elem_of_map_to_list. Qed.

Lemma scan_matches_sorted c : StronglySorted (scan_leb c) (scan_matches c).
Proof. apply StronglySorted_merge_sort; apply _. Qed.

Lemma scan_matches_empty c : matches c = ∅ -> scan_matches c = [].
Proof.
  intros Hempty. apply Permutation_nil. symmetry.
  by rewrite scan_matches_perm, Hempty, map_to_list_empty.
Qed.

Lemma next_rowid_fresh c id : (rowid_of c id < next_rowid c)%nat.
Proof.
  unfold rowid_of, next_rowid.
  destruct (matches_rowid c !! id) as [n|] eqn:Hid; simpl; [|lia].
  apply Nat.lt_succ_r, max_list_elem_of_le.
  apply elem_of_map_to_list in Hid.
  change n with ((id, n).2). by apply list_elem_of_fmap_2.
Qed.

(** ** The delta of a run *)

Lemma existsb_eqb_elem (x : string) (l : list string) :
  existsb (String.eqb x) l = true <-> x ∈ l.
Proof.
  rewrite existsb_exists, list_elem_of_In. split.
  - intros (y & Hy & E). by apply String.eqb_eq in E as ->.
  - intros H. exists x. split; [done | apply String.eqb_refl].
Qed.

Lemma Get_Latest_Match_inv w w' r :
  Get_Latest_Match w = (w', r) ->
  only_disk w w' /\ (r = Ok (latest_of (db w)) \/ r = Raise OperationalError).
Proof.
  unfold Get_Latest_Match, with_connection, get_db_connection, try_except, bind.
  simpl.
  destruct (execute _ w) as [w1 r1] eqn:E.
  apply execute_inv in E as [Hd [-> | ->]].
  - unfold latest_of.
    destruct (order_by_desc _ _) as [|row rows]; simpl; intros H; inversion H; subst;
      rewrite (set_db_only_disk _ _ Hd); eauto.
  - unfold raise. intros H; inversion H; subst; eauto.
Qed.

Lemma latest_of_empty (c : Store) : matches c = ∅ -> latest_of c = None.
Proof. unfold latest_of. intros H. by rewrite scan_matches_empty. Qed.

Lemma get_new_matches_known (R : Remote) (token old : string) (page : list halo_match) :
  get_match_list R token 5 = Ok (Some {| Results := Some page |}) ->
  old ∈ map MatchId page ->
  exists known,
    find (fun m => String.eqb (MatchId m) old) page = Some known
    /\ known ∈ page /\ MatchId known = old
    /\ get_new_matches R old token
        = Ok (Py (List.filter
                    (fun m => String.ltb (StartTime (MatchInfo known))
                                         (StartTime (MatchInfo m))) page)).
Proof.
  intros Hlist Hin. unfold get_new_matches. rewrite Hlist. simpl.
  apply existsb_eqb_elem in Hin as Hex. rewrite Hex.
  destruct (find _ page) as [known|] eqn:Hfind.
  - exists known. apply find_some in Hfind as [Hk Heq].
    apply String.eqb_eq in Heq. by rewrite <- list_elem_of_In in Hk.
  - apply list_elem_of_In, in_map_iff in Hin as (m & Hm & Hin).
    apply (find_none _ _ Hfind) in Hin. rewrite Hm, String.eqb_refl in Hin.
    discriminate.
Qed.

Lemma get_new_matches_unknown (R : Remote) (token old : string) (page : list halo_match) :
  get_match_list R token 5 = Ok (Some {| Results := Some page |}) ->
  old ∉ map MatchId page ->
  get_new_matches R old token = Ok (Py page).
Proof.
  intros Hlist Hin. unfold get_new_matches. rewrite Hlist. simpl.
  destruct (existsb _ _) eqn:Hex; [|done].
  by apply existsb_eqb_elem in Hex.
Qed.

Lemma check_for_new_matches_run (R : Remote) (token : string) w w1 latest delta :
  Get_Latest_Match w = (w1, Ok latest) ->
  get_new_matches R (latest_known_id latest) token = Ok (Py delta) ->
  check_for_new_matches R token w = for_each (_process_new_match R token) delta w1.
Proof.
  intros Hlatest Hnew. unfold check_for_new_matches.
  rewrite (bind_run _ _ _ _ _ Hlatest). unfold bind at 1, lift. rewrite Hnew.
  by destruct delta.
Qed.

(** C1. In every run of [check_for_new_matches], with the page of five that
    the match-list call returned, the id asked for is the id of the latest
    stored match, or the empty string when the store is empty. When that id
    is the id of an entry of the page, the delta, which is what the run
    processes, is exactly the entries whose start time is strictly greater
    than that entry's, in page order; when it is not, the delta is the whole
    page. *)
Theorem synchronize_delta (R : Remote) (token : string) (w w1 : World)
    (latest : option latest_match) (page : list halo_match) :
  Get_Latest_Match w = (w1, Ok latest) ->
  get_match_list R token 5 = Ok (Some {| Results := Some page |}) ->
  let old := latest_known_id latest in
  let process := for_each (_process_new_match R token) in
  latest = latest_of (db w)
  /\ (matches (db w) = ∅ -> old = "")
  /\ (old ∈ map MatchId page ->
      exists known,
        known ∈ page /\ MatchId known = old
        /\ let delta :=
             List.filter (fun m => String.ltb (StartTime (MatchInfo known))
                                              (StartTime (MatchInfo m))) page in
           get_new_matches R old token = Ok (Py delta)
           /\ check_for_new_matches R token w = process delta w1)
  /\ (old ∉ map MatchId page ->
      get_new_matches R old token = Ok (Py page)
      /\ check_for_new_matches R token w = process page w1).
Proof.
  intros Hlatest Hlist old process.
  assert (latest = latest_of (db w)) as Hlatest_of.
  { apply Get_Latest_Match_inv in Hlatest as [_ [H | H]]; [|discriminate].
    by inversion H. }
  split; [done|]. repeat split.
  - intros Hempty. subst old. by rewrite Hlatest_of, (latest_of_empty _ Hempty).
  - intros Hin.
    destruct (get_new_matches_known R token old page Hlist Hin)
      as (known & _ & Hk & Hid & Hnew).
    exists known. repeat split; try done.
    by apply (check_for_new_matches_run R token w w1 latest).
  - by apply get_new_matches_unknown.
  - apply (check_for_new_matches_run R token w w1 latest); [done|].
    by apply get_new_matches_unknown.
Qed.

(** ** Saving one match *)

Lemma insert_team_mmrs_inv (match_id : string) (items : list (string * number)) :
  forall c w w' r,
    insert_team_mmrs c match_id items w = (w', r) ->
    only_disk w w'
    /\ forall c', r = Ok c' ->
        c' = set_team_mmrs
               (foldl (fun t item => <[(match_id, item.1) := item.2]> t)
                      (team_mmrs c) items) c.
Proof.
  induction items as [|[tid mmr] items IH]; intros c w w' r H.
  - inversion H; subst. split; [apply only_disk_refl|].
    intros c' [= <-]. by destruct c.
  - simpl in H. apply bind_inv in H as [(w1 & c1 & Hex & Hrest) | (e & Hex & ->)].
    + apply execute_inv in Hex as [Hd1 Hr]. apply IH in Hrest as [Hd2 Hc].
      split; [by eapply only_disk_trans|].
      intros c' ->. specialize (Hc c' eq_refl). subst c'.
      destruct Hr as [Hr | Hr]; [|discriminate].
      unfold insert_team_mmr in Hr.
      destruct (team_mmrs c !! (match_id, tid)); [discriminate|].
      inversion Hr; subst. by destruct c.
    + split; [by eapply execute_only_disk|]. discriminate.
Qed.

Lemma with_connection_inv {A} (body : Store -> M (Store * A)) w w' r :
  with_connection body w = (w', r) ->
  match body (db w) w with
  | (w1, Ok (pending, a)) => w' = set_db pending w1 /\ r = Ok a
  | (w1, Raise e) => w' = w1 /\ r = Raise e
  end.
Proof.
  unfold with_connection, get_db_connection, try_except, bind, commit, ret, raise.
  destruct (body (db w) w) as [w1 [[pending a]|e]]; intros H; by inversion H.
Qed.

Lemma _save_stats_inv c match_id s w w' r :
  _save_stats c match_id s w = (w', r) ->
  only_disk w w'
  /\ forall c', r = Ok c' ->
       exists res, (match Value s with Some _ => value_0_result s | None => Ok no_result end) = Ok res
         /\ c' = set_stats (<[match_id := stats_row_of res]> (stats c)) c.
Proof.
  unfold _save_stats. intros H.
  apply bind_inv in H as [(w1 & res & Hl & Hex) | (e & Hl & ->)].
  - unfold lift in Hl. inversion Hl; subst.
    apply execute_inv in Hex as [Hd Hr]. split; [done|].
    intros c' ->. destruct Hr as [Hr|Hr]; [|discriminate].
    inversion Hr; subst. eauto.
  - unfold lift in Hl. inversion Hl; subst. split; [apply only_disk_refl | discriminate].
Qed.

Lemma _save_team_mmrs_inv c match_id s w w' r :
  _save_team_mmrs c match_id s w = (w', r) ->
  only_disk w w'
  /\ forall c', r = Ok c' ->
       exists res, value_0_result s = Ok res
         /\ c' = set_team_mmrs
                  (replace_team_mmrs (team_mmrs c) match_id (default ∅ (TeamMmrs res))) c.
Proof.
  unfold _save_team_mmrs. intros H.
  apply bind_inv in H as [(w1 & c1 & Hex & H) | (e & Hex & ->)].
  2:{ split; [by eapply execute_only_disk | discriminate]. }
  apply execute_inv in Hex as [Hd1 Hr1].
  apply bind_inv in H as [(w2 & res & Hl & H) | (e & Hl & ->)].
  2:{ unfold lift in Hl. inversion Hl; subst. split; [done | discriminate]. }
  unfold lift in Hl. inversion Hl; subst.
  apply insert_team_mmrs_inv in H as [Hd2 Hc].
  split; [by eapply only_disk_trans|].
  intros c' ->. specialize (Hc c' eq_refl). subst c'.
  destruct Hr1 as [Hr1|Hr1]; [|discriminate]. inversion Hr1; subst.
  exists res. split; [done|]. by destruct c.
Qed.

Lemma save_match_data_inv m s w w' r :
  save_match_data m s w = (w', r) ->
  exists wd, only_disk w wd
    /\ ((exists res, value_0_result s = Ok res /\ r = Ok tt
                     /\ w' = set_db (written (db w) m res) wd)
        \/ (exists e, r = Raise e /\ w' = wd)).
Proof.
  unfold save_match_data. intros H. apply with_connection_inv in H.
  destruct (bind _ _ w) as [w1 r1] eqn:Hbody.
  apply bind_inv in Hbody as [(wa & c1 & H1 & Hbody) | (e & H1 & ->)].
  2:{ destruct H as [-> ->]. exists w1. split; [by eapply execute_only_disk | eauto]. }
  unfold _save_match_info in H1. apply execute_inv in H1 as [Hd1 Hr1].
  destruct Hr1 as [Hr1|Hr1]; [|discriminate]. inversion Hr1; subst c1; clear Hr1.
  apply bind_inv in Hbody as [(wb & c2 & H2 & Hbody) | (e & H2 & ->)].
  2:{ destruct H as [-> ->]. apply _save_stats_inv in H2 as [Hd2 _].
      exists w1. split; [by eapply only_disk_trans | eauto]. }
  apply _save_stats_inv in H2 as [Hd2 Hc2].
  destruct (Hc2 c2 eq_refl) as (res2 & Hres2 & ->). clear Hc2.
  apply bind_inv in Hbody as [(wc & c3 & H3 & Hbody) | (e & H3 & ->)].
  2:{ destruct H as [-> ->]. apply _save_team_mmrs_inv in H3 as [Hd3 _].
      exists w1. split; [eauto using only_disk_trans | eauto]. }
  apply _save_team_mmrs_inv in H3 as [Hd3 Hc3].
  destruct (Hc3 c3 eq_refl) as (res & Hres & ->). clear Hc3.
  assert (res2 = res) as ->.
  { unfold value_0_result in *. destruct (Value s); congruence. }
  unfold bind, commit, ret in Hbody. inversion Hbody; subst; clear Hbody.
  destruct H as [-> ->]. exists wc. split; [eauto using only_disk_trans|].
  left. exists res. split; [done|]. split; [done|].
  destruct wc; reflexivity.
Qed.

Lemma foldl_insert_lookup (match_id : string) (items : list (string * number)) :
  forall (t0 : gmap (string * string) number) (mid tid : string),
    NoDup items.*1 ->
    foldl (fun t item => <[(match_id, item.1) := item.2]> t) t0 items !! (mid, tid)
    = if decide (mid = match_id)
      then match (list_to_map items : gmap string number) !! tid with
           | Some v => Some v
           | None => t0 !! (mid, tid)
           end
      else t0 !! (mid, tid).
Proof.
  induction items as [|[k v] items IH]; intros t0 mid tid Hnd; simpl.
  - by case_decide.
  - apply NoDup_cons in Hnd as [Hk Hnd]. rewrite IH by done.
    case_decide as Hmid; [subst mid|].
    + destruct (decide (k = tid)) as [->|Hne].
      * rewrite lookup_insert_eq.
        rewrite (not_elem_of_list_to_map_1 _ _ Hk). by rewrite lookup_insert_eq.
      * rewrite (lookup_insert_ne _ k tid) by done.
        destruct (list_to_map items !! tid); [done|].
        rewrite lookup_insert_ne; [done | congruence].
    + rewrite lookup_insert_ne; [done | congruence].
Qed.

Lemma replace_team_mmrs_lookup (t : gmap (string * string) number)
    (match_id : string) (teams : gmap string number) (mid tid : string) :
  replace_team_mmrs t match_id teams !! (mid, tid)
  = if decide (mid = match_id) then teams !! tid else t !! (mid, tid).
Proof.
  unfold replace_team_mmrs.
  rewrite foldl_insert_lookup by apply NoDup_fst_map_to_list.
  rewrite list_to_map_to_list.
  case_decide as Hmid.
  - subst mid. destruct (teams !! tid); [done|].
    apply map_lookup_filter_None. right. intros x _. simpl. tauto.
  - destruct (t !! (mid, tid)) as [x|] eqn:E.
    + by apply map_lookup_filter_Some.
    + apply map_lookup_filter_None. by left.
Qed.

Lemma insert_team_mmrs_healthy (match_id : string) (items : list (string * number)) :
  forall c w,
    disk w = [] ->
    NoDup items.*1 ->
    (forall tid, tid ∈ items.*1 -> team_mmrs c !! (match_id, tid) = None) ->
    insert_team_mmrs c match_id items w
    = (w, Ok (set_team_mmrs
                (foldl (fun t item => <[(match_id, item.1) := item.2]> t)
                       (team_mmrs c) items) c)).
Proof.
  induction items as [|[tid mmr] items IH]; intros c w Hdisk Hnd Hfree; simpl.
  - unfold ret. by destruct c.
  - apply NoDup_cons in Hnd as [Hk Hnd].
    unfold bind. rewrite execute_healthy by done.
    unfold insert_team_mmr. rewrite Hfree by (simpl; left).
    rewrite IH; try done.
    intros tid' Hin. simpl. rewrite lookup_insert_ne.
    + apply Hfree. simpl. by right.
    + intros [= ->]. done.
Qed.

Lemma _save_stats_healthy c match_id s res w :
  disk w = [] ->
  value_0_result s = Ok res ->
  _save_stats c match_id s w
  = (w, Ok (set_stats (<[match_id := stats_row_of res]> (stats c)) c)).
Proof.
  intros Hdisk Hres. unfold _save_stats, bind, lift.
  assert ((match Value s with Some _ => value_0_result s | None => Ok no_result end)
          = Ok res) as ->.
  { unfold value_0_result in *. by destruct (Value s). }
  by rewrite execute_healthy.
Qed.

Lemma _save_team_mmrs_healthy c match_id s res w :
  disk w = [] ->
  value_0_result s = Ok res ->
  _save_team_mmrs c match_id s w
  = (w, Ok (set_team_mmrs
              (replace_team_mmrs (team_mmrs c) match_id (default ∅ (TeamMmrs res))) c)).
Proof.
  intros Hdisk Hres. unfold _save_team_mmrs.
  erewrite bind_run by (by apply execute_healthy).
  unfold bind at 1, lift. rewrite Hres.
  rewrite insert_team_mmrs_healthy; try done.
  - apply NoDup_fst_map_to_list.
  - intros tid _. simpl. apply map_lookup_filter_None. right. intros x _. simpl. tauto.
Qed.

Lemma save_match_data_healthy m s res w :
  disk w = [] ->
  value_0_result s = Ok res ->
  save_match_data m s w = (set_db (written (db w) m res) w, Ok tt).
Proof.
  intros Hdisk Hres.
  unfold save_match_data, with_connection, get_db_connection, try_except.
  unfold bind at 1.
  erewrite bind_run; cycle 1.
  { erewrite bind_run by (by apply execute_healthy).
    erewrite bind_run by (by apply _save_stats_healthy).
    erewrite bind_run by (by apply _save_team_mmrs_healthy).
    unfold bind, commit, ret. reflexivity. }
  unfold bind, commit, ret. simpl. destruct w; reflexivity.
Qed.

(** C6. The three writes of [save_match_data] are one transaction: either
    the call returns and the store holds all three (the match row, the stats
    row and the team rows), or it raises and the store is exactly what it was
    before the call. *)
Theorem save_match_data_atomic (m : halo_match) (s : skill_response)
    (w w' : World) (r : result unit) :
  save_match_data m s w = (w', r) ->
  (r = Ok tt /\ exists res, value_0_result s = Ok res /\ db w' = written (db w) m res)
  \/ (exists e, r = Raise e /\ db w' = db w).
Proof.
  intros H. apply save_match_data_inv in H as (wd & Hd & [H | H]).
  - destruct H as (res & Hres & -> & ->). left. split; [done|]. by exists res.
  - destruct H as (e & -> & ->). right. exists e. split; [done|].
    by apply only_disk_db.
Qed.

(** ** Ordered queries *)

Section OrderByFacts.

Context {A : Type}.
Variable key : A -> string.

Lemma insert_desc_perm (x : A) (l : list A) : insert_desc key x l ≡ₚ x :: l.
Proof.
  induction l as [|y l IH]; simpl; [done|].
  destruct (String.leb (key y) (key x)); [done|].
  rewrite IH. apply Permutation_swap.
Qed.

Lemma order_by_desc_perm (l : list A) : order_by_desc key l ≡ₚ l.
Proof.
  induction l as [|x l IH]; simpl; [done|].
  by rewrite insert_desc_perm, IH.
Qed.

Lemma elem_of_order_by_desc (x : A) (l : list A) : x ∈ order_by_desc key l <-> x ∈ l.
Proof. by rewrite order_by_desc_perm. Qed.

Lemma insert_desc_descending (x : A) (l : list A) :
  descending key l -> descending key (insert_desc key x l).
Proof.
  unfold descending. induction l as [|y l IH]; simpl; intros Hs.
  - constructor; [constructor | constructor].
  - destruct (String.leb (key y) (key x)) eqn:E.
    + constructor; [done|]. constructor; [done|].
      apply StronglySorted_inv in Hs as [_ Hall].
      eapply Forall_impl; [apply Hall|]. simpl. intros z Hz.
      by apply (leb_trans _ (key y)).
    + apply StronglySorted_inv in Hs as [Hs Hall]. constructor; [by apply IH|].
      apply List.Forall_forall. intros z Hz.
      apply (Permutation_in _ (insert_desc_perm x l)) in Hz as [<- | Hz].
      * destruct (String.leb_total (key x) (key y)); congruence.
      * rewrite List.Forall_forall in Hall. by apply Hall.
Qed.

Lemma order_by_desc_descending (l : list A) : descending key (order_by_desc key l).
Proof.
  induction l as [|x l IH]; simpl; [constructor|].
  by apply insert_desc_descending.
Qed.

Lemma descending_rev (l : list A) : descending key l -> ascending key (rev l).
Proof.
  unfold descending, ascending. induction l as [|x l IH]; simpl; intros Hs.
  - constructor.
  - apply StronglySorted_inv in Hs as [Hs Hall].
    apply StronglySorted_app_2; [|by apply IH|repeat constructor].
    intros x1 x2 H1 H2. apply list_elem_of_singleton in H2 as ->.
    rewrite List.Forall_forall in Hall. apply Hall.
    apply in_rev. by apply list_elem_of_In.
Qed.

Lemma descending_prefix (l1 l2 : list A) : descending key (l1 ++ l2) -> descending key l1.
Proof. apply StronglySorted_app_1_l. Qed.

(** The first row of an ordered query is a row of the table, and no row is
    later. *)
Lemma order_by_desc_head (l : list A) (x : A) (rest : list A) :
  order_by_desc key l = x :: rest ->
  x ∈ l /\ forall y, y ∈ l -> String.leb (key y) (key x) = true.
Proof.
  intros H. split.
  - apply elem_of_order_by_desc. rewrite H. by left.
  - intros y Hy. apply elem_of_order_by_desc in Hy. rewrite H in Hy.
    pose proof (order_by_desc_descending l) as Hs. rewrite H in Hs.
    apply StronglySorted_inv in Hs as [_ Hall].
    apply elem_of_cons in Hy as [-> | Hy]; [apply leb_refl|].
    rewrite List.Forall_forall in Hall. apply Hall. by apply list_elem_of_In.
Qed.

(** The row that comes first is met by the scan before every other row
    with the same key. *)
Lemma order_by_desc_first (l : list A) (x : A) (rest : list A) :
  order_by_desc key l = x :: rest ->
  exists l1 l2,
    l = (l1 ++ x :: l2)%list
    /\ forall y, y ∈ l1 -> String.ltb (key y) (key x) = true.
Proof.
  revert x rest. induction l as [|a l IH]; intros x rest H; [discriminate|].
  change (order_by_desc key (a :: l)) with (insert_desc key a (order_by_desc key l)) in H.
  destruct (order_by_desc key l) as [|h t] eqn:E; simpl in H.
  - injection H as <- <-. exists [], l. split; [done|].
    intros y Hy. by apply elem_of_nil in Hy.
  - destruct (String.leb (key h) (key a)) eqn:Hle.
    + injection H as <- <-. exists [], l. split; [done|].
      intros y Hy. by apply elem_of_nil in Hy.
    + injection H as <- <-. destruct (IH h t eq_refl) as (l1 & l2 & -> & Hl1).
      exists (a :: l1), l2. split; [done|].
      intros y [-> | Hy]%elem_of_cons; [|by apply Hl1].
      rewrite leb_ltb in Hle. by apply negb_false_iff in Hle.
Qed.

End OrderByFacts.

Lemma with_connection_run {A} (body : Store -> M (Store * A)) w w1 pending a :
  body (db w) w = (w1, Ok (pending, a)) ->
  with_connection body w = (set_db pending w1, Ok a).
Proof.
  intros H. unfold with_connection, get_db_connection, try_except, bind, commit, ret.
  by rewrite H.
Qed.

Lemma with_connection_raise {A} (body : Store -> M (Store * A)) w w1 e :
  body (db w) w = (w1, Raise e) ->
  with_connection body w = (w1, Raise e).
Proof.
  intros H. unfold with_connection, get_db_connection, try_except, bind, raise.
  by rewrite H.
Qed.

Lemma elem_of_matches_join_stats (c : Store) (r : recent_row) :
  r ∈ matches_join_stats c <->
  exists m, matches c !! r_match_id r = Some m
            /\ join_row c (r_match_id r, m) = Some r.
Proof.
  unfold matches_join_stats. rewrite elem_of_order_by_desc, list_elem_of_omap.
  split.
  - intros ([id m] & Hin & Hjoin). apply elem_of_scan_matches in Hin. simpl in Hin.
    assert (r_match_id r = id) as Hid.
    { unfold join_row in Hjoin. simpl in Hjoin.
      destruct (stats c !! id); [|discriminate]. by inversion Hjoin. }
    rewrite Hid. eauto.
  - intros (m & Hm & Hjoin). exists (r_match_id r, m). split; [|done].
    by apply elem_of_scan_matches.
Qed.

Lemma join_row_stats (c : Store) (id : string) (m : match_row) (r : recent_row) :
  join_row c (id, m) = Some r -> is_Some (stats c !! id).
Proof. unfold join_row. simpl. destruct (stats c !! id); [eauto | discriminate]. Qed.

Lemma matches_join_stats_descending (c : Store) :
  descending r_start_time (matches_join_stats c).
Proof. apply order_by_desc_descending. Qed.

Lemma limit_prefix {A} (count : Z) (rows : list A) :
  exists rest, rows = (limit count rows ++ rest)%list.
Proof.
  unfold limit. destruct (count <? 0).
  - exists []. by rewrite app_nil_r.
  - exists (drop (Z.to_nat count) rows). by rewrite take_drop.
Qed.

Section SessionFacts.

Variable fromisoformat : string -> option Z.

Lemma session_loop_prefix (rows : list recent_row) :
  forall last session,
    session_loop fromisoformat last rows = Ok session ->
    exists rest, rows = (session ++ rest)%list.
Proof.
  induction rows as [|m rows IH]; intros last session H; simpl in H.
  - inversion H. by exists [].
  - destruct (fromisoformat (r_start_time m)) as [cur|]; [|discriminate].
    destruct (two_hours <? last - cur).
    + inversion H. by exists (m :: rows).
    + destruct (session_loop fromisoformat cur rows) as [ss|] eqn:E; [|discriminate].
      inversion H; subst. destruct (IH _ _ E) as [rest ->]. by exists rest.
Qed.

Lemma session_of_prefix (all_matches session : list recent_row) :
  session_of fromisoformat all_matches = Ok session ->
  exists rest, all_matches = (rev session ++ rest)%list.
Proof.
  unfold session_of. destruct all_matches as [|first rows] eqn:Hall.
  - intros [= <-]. by exists [].
  - destruct (fromisoformat (r_start_time first)); [|discriminate].
    rewrite <- Hall.
    destruct (session_loop _ _ _) as [ss|] eqn:E; [|discriminate].
    intros [= <-]. rewrite rev_involutive. by eapply session_loop_prefix.
Qed.

Lemma get_recent_match_data_inv (count : Z) (session_only : bool) w w' r :
  get_recent_match_data fromisoformat count session_only w = (w', r) ->
  only_disk w w'
  /\ forall rows, r = Ok rows ->
       if session_only
       then session_of fromisoformat (matches_join_stats (db w)) = Ok rows
       else rows = limit count (matches_join_stats (db w)).
Proof.
  unfold get_recent_match_data. intros H. apply with_connection_inv in H.
  destruct session_only.
  - destruct (bind _ _ w) as [w1 r1] eqn:Hbody.
    apply bind_inv in Hbody as [(wa & rows & Hex & Hbody) | (e & Hex & ->)].
    + apply execute_inv in Hex as [Hd [Hr | Hr]]; [|discriminate].
      inversion Hr; subst rows; clear Hr.
      unfold bind, lift, ret in Hbody.
      destruct (session_of _ _) as [session|e]; inversion Hbody; subst.
      * destruct H as [-> ->]. rewrite set_db_only_disk by done. split; [done|].
        by intros rows [= <-].
      * destruct H as [-> ->]. split; [done | discriminate].
    + destruct H as [-> ->]. split; [by eapply execute_only_disk | discriminate].
  - destruct (bind _ _ w) as [w1 r1] eqn:Hbody.
    apply bind_inv in Hbody as [(wa & rows & Hex & Hbody) | (e & Hex & ->)].
    + apply execute_inv in Hex as [Hd [Hr | Hr]]; [|discriminate].
      inversion Hr; subst rows; clear Hr.
      unfold ret in Hbody. inversion Hbody; subst.
      destruct H as [-> ->]. rewrite set_db_only_disk by done. split; [done|].
      by intros rows [= <-].
    + destruct H as [-> ->]. split; [by eapply execute_only_disk | discriminate].
Qed.

Lemma get_recent_match_data_healthy (count : Z) (session_only : bool) w :
  disk w = [] ->
  get_recent_match_data fromisoformat count session_only w
  = (w, if session_only
        then session_of fromisoformat (matches_join_stats (db w))
        else Ok (limit count (matches_join_stats (db w)))).
Proof.
  intros Hdisk. unfold get_recent_match_data. destruct session_only.
  - destruct (session_of fromisoformat (matches_join_stats (db w))) as [rows|e] eqn:E.
    + erewrite with_connection_run; cycle 1.
      { erewrite bind_run by (by apply execute_healthy).
        unfold bind, lift, ret. by rewrite E. }
      by destruct w.
    + apply with_connection_raise.
      erewrite bind_run by (by apply execute_healthy).
      unfold bind, lift, ret. by rewrite E.
  - erewrite with_connection_run; cycle 1.
    { by erewrite bind_run by (by apply execute_healthy). }
    by destruct w.
Qed.

(** Every row that [get_recent_match_data] returns is a row of the join. *)
Lemma recent_rows_joined (count : Z) (session_only : bool) w w' rows :
  get_recent_match_data fromisoformat count session_only w = (w', Ok rows) ->
  exists rest, matches_join_stats (db w)
               = ((if session_only then rev rows else rows) ++ rest)%list.
Proof.
  intros H. apply get_recent_match_data_inv in H as [_ H].
  specialize (H rows eq_refl). destruct session_only.
  - by apply session_of_prefix.
  - subst rows. apply limit_prefix.
Qed.

End SessionFacts.

(** C10. In both modes every row returned by [get_recent_match_data] is a
    row of the inner join of [matches] with [stats]: its id has a matches
    row and a stats row, so a match without a stats row is in no result,
    whatever the store holds. *)
Theorem recent_matches_inner_join (fromisoformat : string -> option Z)
    (count : Z) (session_only : bool) (w w' : World) (rows : list recent_row) :
  get_recent_match_data fromisoformat count session_only w = (w', Ok rows) ->
  (forall r, r ∈ rows ->
     exists m s, matches (db w) !! r_match_id r = Some m
                 /\ stats (db w) !! r_match_id r = Some s
                 /\ join_row (db w) (r_match_id r, m) = Some r)
  /\ (forall match_id, stats (db w) !! match_id = None ->
        match_id ∉ map r_match_id rows).
Proof.
  intros H. apply recent_rows_joined in H as [rest Hjoin].
  assert (forall r, r ∈ rows -> r ∈ matches_join_stats (db w)) as Hsub.
  { intros r Hr. rewrite Hjoin. apply elem_of_app. left.
    destruct session_only; [|done].
    apply list_elem_of_In, in_rev. rewrite rev_involutive. by apply list_elem_of_In. }
  assert (forall r, r ∈ rows ->
     exists m s, matches (db w) !! r_match_id r = Some m
                 /\ stats (db w) !! r_match_id r = Some s
                 /\ join_row (db w) (r_match_id r, m) = Some r) as Hrows.
  { intros r Hr. apply Hsub, elem_of_matches_join_stats in Hr as (m & Hm & Hj).
    destruct (join_row_stats _ _ _ _ Hj) as [s Hs]. eauto. }
  split; [done|].
  intros match_id Hnone Hin.
  apply list_elem_of_In, in_map_iff in Hin as (r & <- & Hr).
  apply list_elem_of_In, Hrows in Hr as (m & s & _ & Hs & _). congruence.
Qed.

(** ** Operations that leave the store alone *)

Lemma create_tables_only_disk (names : list string) w w' r :
  for_each (fun _ => execute (Ok tt)) names w = (w', r) -> only_disk w w'.
Proof.
  revert w. induction names as [|n names IH]; intros w H; simpl in H.
  - inversion H. apply only_disk_refl.
  - apply bind_inv in H as [(w1 & [] & H1 & H2) | (e & H1 & _)].
    + eapply only_disk_trans; [by eapply execute_only_disk | by apply IH].
    + by eapply execute_only_disk.
Qed.

Lemma init_db_inv w w' r : init_db w = (w', r) -> only_disk w w'.
Proof.
  unfold init_db. intros H. apply with_connection_inv in H.
  destruct (bind _ _ w) as [w1 r1] eqn:Hbody.
  apply bind_inv in Hbody as [(wa & [] & H1 & Hbody) | (e & H1 & ->)].
  - apply create_tables_only_disk in H1.
    unfold bind, commit, ret in Hbody. inversion Hbody; subst.
    destruct H as [-> _]. by rewrite !(set_db_only_disk w wa).
  - destruct H as [-> _]. by eapply create_tables_only_disk.
Qed.

Lemma get_asset_from_db_inv t asset_id version_id w w' r :
  get_asset_from_db t asset_id version_id w = (w', r) ->
  only_disk w w'
  /\ forall found, r = Ok found ->
       match asset_rows t (db w) !! (asset_id, version_id) with
       | Some a => found = Some {| name := PublicName a; description := Description a |}
       | None => found = None
       end.
Proof.
  unfold get_asset_from_db. intros H. apply with_connection_inv in H.
  destruct (bind _ _ w) as [w1 r1] eqn:Hbody.
  apply bind_inv in Hbody as [(wa & row & Hex & Hbody) | (e & Hex & ->)].
  - apply execute_inv in Hex as [Hd [Hr | Hr]]; [|discriminate].
    inversion Hr; subst row; clear Hr.
    destruct (asset_rows t (db w) !! (asset_id, version_id)) as [a|];
      unfold ret in Hbody; inversion Hbody; subst;
      destruct H as [-> ->]; rewrite set_db_only_disk by done;
      (split; [done | by intros found [= <-]]).
  - destruct H as [-> ->]. split; [by eapply execute_only_disk | discriminate].
Qed.

Lemma _get_or_fetch_asset_data_inv R token t asset_id version_id w w' r :
  _get_or_fetch_asset_data R token t asset_id version_id w = (w', r) ->
  exists wd, only_disk w wd
    /\ ((w' = wd
         /\ forall x, r = Ok x ->
              is_Some (asset_rows t (db w) !! (asset_id, version_id))
              \/ fetch_ugc_asset R token (table_name t) asset_id version_id = None)
        \/ exists a,
             asset_rows t (db w) !! (asset_id, version_id) = None
             /\ fetch_ugc_asset R token (table_name t) asset_id version_id = Some a
             /\ w' = set_db (store_asset t asset_id version_id a (db w)) wd).
Proof.
  unfold _get_or_fetch_asset_data. intros H.
  apply bind_inv in H as [(w1 & cached & Hget & H) | (e & Hget & ->)].
  2:{ apply get_asset_from_db_inv in Hget as [Hd _]. exists w'. split; [done|].
      left. split; [done | discriminate]. }
  apply get_asset_from_db_inv in Hget as [Hd1 Hfound].
  specialize (Hfound cached eq_refl).
  destruct (asset_rows t (db w) !! (asset_id, version_id)) as [row|] eqn:Hrow; subst cached.
  { unfold ret in H. inversion H; subst. exists w'. split; [done|]. left. eauto. }
  destruct (fetch_ugc_asset R token (table_name t) asset_id version_id) as [a|] eqn:Hfetch.
  2:{ unfold ret in H. inversion H; subst. exists w'. split; [done|]. left. eauto. }
  unfold bind at 1, get_db_connection in H.
  apply bind_inv in H as [(w2 & c & Hup & H) | (e & Hup & ->)].
  2:{ apply execute_only_disk in Hup. exists w'.
      split; [eauto using only_disk_trans|]. left. split; [done | discriminate]. }
  unfold upsert_asset in Hup. apply execute_inv in Hup as [Hd2 [Hr | Hr]]; [|discriminate].
  unfold bind, commit, ret in H. inversion H; subst. inversion Hr; subst.
  exists w2. split; [eauto using only_disk_trans|]. right. exists a.
  split; [done|]. split; [done|].
  unfold store_asset. by rewrite (only_disk_db _ _ Hd1).
Qed.

(** ** The invariants of the store *)

Lemma stats_have_match_written c m res :
  stats_have_match c -> stats_have_match (written c m res).
Proof.
  intros Hinv match_id. unfold written. simpl.
  destruct (decide (match_id = MatchId m)) as [->|Hne].
  - by rewrite !lookup_insert_eq.
  - rewrite !lookup_insert_ne by done. apply Hinv.
Qed.

Lemma stats_have_match_store_asset t asset_id version_id a c :
  stats_have_match c -> stats_have_match (store_asset t asset_id version_id a c).
Proof. intros Hinv. unfold store_asset. by destruct t. Qed.

Lemma written_team_mmrs c m res (tid : string) :
  team_mmrs (written c m res) !! (MatchId m, tid) = default ∅ (TeamMmrs res) !! tid.
Proof.
  unfold written. simpl. rewrite replace_team_mmrs_lookup. by case_decide.
Qed.

(** C8. Every operation of the store keeps the invariant that a stats row
    has a matches row with the same id; and once [save_match_data] has
    returned, the team rows of that match are exactly the teams that the
    saved stats report, one row per team and no row left over from an
    earlier save. *)
Theorem store_invariants (R : Remote) (token : string)
    (fromisoformat : string -> option Z) (op : store_op)
    (w w' : World) (r : result unit) :
  run_store_op R token fromisoformat op w = (w', r) ->
  stats_have_match (db w) ->
  stats_have_match (db w')
  /\ forall m s, op = Op_save_match_data m s -> r = Ok tt ->
       exists res, value_0_result s = Ok res
         /\ forall tid, team_mmrs (db w') !! (MatchId m, tid)
                        = default ∅ (TeamMmrs res) !! tid.
Proof.
  intros H Hinv. destruct op as [|m s| |t aid ver|count so|t aid ver]; simpl in H.
  - apply init_db_inv, only_disk_db in H. rewrite H. split; [done | discriminate].
  - apply save_match_data_inv in H as (wd & Hd & [H | H]).
    + destruct H as (res & Hres & -> & ->). simpl. split.
      * by apply stats_have_match_written.
      * intros m' s' [= <- <-] _. exists res. split; [done|].
        intros tid. apply written_team_mmrs.
    + destruct H as (e & -> & ->). rewrite (only_disk_db _ _ Hd).
      split; [done | discriminate].
  - apply bind_inv in H as [(w1 & a & H1 & H2) | (e & H1 & _)].
    + inversion H2; subst. apply Get_Latest_Match_inv in H1 as [Hd _].
      rewrite (only_disk_db _ _ Hd). split; [done | discriminate].
    + apply Get_Latest_Match_inv in H1 as [Hd _].
      rewrite (only_disk_db _ _ Hd). split; [done | discriminate].
  - apply bind_inv in H as [(w1 & a & H1 & H2) | (e & H1 & _)].
    + inversion H2; subst. apply get_asset_from_db_inv in H1 as [Hd _].
      rewrite (only_disk_db _ _ Hd). split; [done | discriminate].
    + apply get_asset_from_db_inv in H1 as [Hd _].
      rewrite (only_disk_db _ _ Hd). split; [done | discriminate].
  - apply bind_inv in H as [(w1 & a & H1 & H2) | (e & H1 & _)].
    + inversion H2; subst. apply get_recent_match_data_inv in H1 as [Hd _].
      rewrite (only_disk_db _ _ Hd). split; [done | discriminate].
    + apply get_recent_match_data_inv in H1 as [Hd _].
      rewrite (only_disk_db _ _ Hd). split; [done | discriminate].
  - assert (exists w1 r1, _get_or_fetch_asset_data R token t aid ver w = (w1, r1)
                          /\ w' = w1) as (w1 & r1 & H1 & ->).
    { apply bind_inv in H as [(w1 & a & H1 & H2) | (e & H1 & _)]; [|eauto].
      inversion H2; subst. eauto. }
    apply _get_or_fetch_asset_data_inv in H1 as (wd & Hd & [[-> _] | (a & _ & _ & ->)]).
    + rewrite (only_disk_db _ _ Hd). split; [done | discriminate].
    + simpl. split; [by apply stats_have_match_store_asset | discriminate].
Qed.

(** ** Properties of the store along a computation *)

Lemma db_fixed_stable {A} (P : Store -> Prop) (c : M A) : db_fixed c -> db_stable P c.
Proof. intros Hc w w' r HP H. by rewrite (Hc _ _ _ H). Qed.

Lemma db_stable_ret {A} P (a : A) : db_stable P (ret a).
Proof. intros w w' r HP H. by inversion H; subst. Qed.

Lemma db_stable_lift {A} P (x : result A) : db_stable P (lift x).
Proof. intros w w' r HP H. by inversion H; subst. Qed.

Lemma db_stable_bind {A B} P (c : M A) (k : A -> M B) :
  db_stable P c -> (forall a, db_stable P (k a)) -> db_stable P (bind c k).
Proof.
  intros Hc Hk w w' r HP H.
  apply bind_inv in H as [(w1 & a & H1 & H2) | (e & H1 & _)].
  - eapply Hk; [|done]. eauto.
  - eauto.
Qed.

Lemma db_stable_try_except {A} P (c : M A) (h : exn -> M A) :
  db_stable P c -> (forall e, db_stable P (h e)) -> db_stable P (try_except c h).
Proof.
  intros Hc Hh w w' r HP H. unfold try_except in H.
  destruct (c w) as [w1 [a|e]] eqn:E.
  - inversion H; subst. eauto.
  - eapply Hh; [|done]. eauto.
Qed.

Lemma db_stable_for_each {A} P (body : A -> M unit) (l : list A) :
  (forall x, x ∈ l -> db_stable P (body x)) -> db_stable P (for_each body l).
Proof.
  induction l as [|x l IH]; intros Hb; simpl.
  - apply db_stable_ret.
  - apply db_stable_bind.
    + apply Hb. by left.
    + intros _. apply IH. intros y Hy. apply Hb. by right.
Qed.

Lemma db_fixed_all {A} (c : M A) : (forall c0, db_stable (eq c0) c) -> db_fixed c.
Proof. intros H w w' r Hrun. symmetry. by eapply (H (db w)). Qed.

Lemma db_fixed_discord sent : db_fixed (discord sent).
Proof.
  intros w w' r H. unfold discord in H.
  destruct (net w) as [|[] n]; by inversion H.
Qed.

Lemma db_fixed_stop_scraper : db_fixed stop_scraper.
Proof.
  intros w w' r H. unfold stop_scraper in H.
  destruct (scraper_task w); by inversion H.
Qed.

Lemma db_fixed_send_match_summary_report m s mode_data map_data :
  db_fixed (send_match_summary_report m s mode_data map_data).
Proof.
  apply db_fixed_all. intros c0. unfold send_match_summary_report.
  apply db_stable_try_except.
  - apply db_stable_bind; [|intros _]; apply db_fixed_stable, db_fixed_discord.
  - intros _. apply db_stable_ret.
Qed.

Lemma db_fixed__handle_invalid_token : db_fixed _handle_invalid_token.
Proof.
  apply db_fixed_all. intros c0. unfold _handle_invalid_token.
  apply db_stable_bind; [apply db_fixed_stable, db_fixed_stop_scraper | intros _].
  apply db_stable_bind; [apply db_fixed_stable, db_fixed_discord | intros _].
  apply db_stable_bind; [apply db_fixed_stable, db_fixed_discord | intros _].
  apply db_stable_try_except.
  - apply db_fixed_stable, db_fixed_discord.
  - intros _. apply db_stable_ret.
Qed.

(** ** What the skill endpoint can answer *)

Lemma has_rank_recap_result (s : skill_response) :
  has_rank_recap s = true -> truthy s = true /\ exists res, value_0_result s = Ok res.
Proof.
  unfold has_rank_recap, truthy, value_0_result.
  destruct (Value s) as [[|entry ?]|]; try discriminate.
  destruct (Result entry) as [res|]; [|discriminate]. eauto.
Qed.

Lemma get_match_stats_inv (R : Remote) (match_id token : string) v :
  get_match_stats R match_id token = Ok v ->
  v = PyNone \/ exists s, v = Py s /\ has_rank_recap s = true.
Proof.
  unfold get_match_stats.
  destruct (halo_request _) as [[response|]|e]; try discriminate.
  - destruct (has_rank_recap response) eqn:E; intros [= <-]; eauto.
  - intros [= <-]. eauto.
Qed.

(** ** What a run may change *)

Lemma grows_at_refl ids c : grows_at ids c c.
Proof. by split_and!. Qed.

Lemma grows_at_trans ids c1 c2 c3 :
  grows_at ids c1 c2 -> grows_at ids c2 c3 -> grows_at ids c1 c3.
Proof.
  intros (Hm1 & Hs1 & Ht1 & Ha1 & Hd1 & Hr1) (Hm2 & Hs2 & Ht2 & Ha2 & Hd2 & Hr2).
  split_and!.
  - intros id Hid. by rewrite Hm2, Hm1.
  - intros id Hid. by rewrite Hs2, Hs1.
  - intros id tid Hid. by rewrite Ht2, Ht1.
  - intros t k Hk. rewrite Ha2; [by apply Ha1|]. by rewrite Ha1.
  - intros id Hid. by apply Hd2, Hd1.
  - intros id Hid. by rewrite Hr2, Hr1.
Qed.

Lemma grows_at_written ids c m res :
  MatchId m ∈ ids -> grows_at ids c (written c m res).
Proof.
  intros Hin. unfold written. split_and!; simpl.
  - intros id Hid. rewrite lookup_insert_ne; [done | by intros <-].
  - intros id Hid. rewrite lookup_insert_ne; [done | by intros <-].
  - intros id tid Hid. rewrite replace_team_mmrs_lookup.
    case_decide; [by subst | done].
  - intros t k _. by destruct t.
  - intros id Hid. destruct (decide (MatchId m = id)) as [<-|Hne].
    + by rewrite lookup_insert_eq.
    + by rewrite lookup_insert_ne.
  - intros id Hid. rewrite lookup_insert_ne; [done | by intros <-].
Qed.

Lemma grows_at_store_asset ids c t asset_id version_id a :
  asset_rows t c !! (asset_id, version_id) = None ->
  grows_at ids c (store_asset t asset_id version_id a c).
Proof.
  intros Hnone. unfold store_asset. split_and!; try by destruct t.
  intros t' k Hk. destruct t, t'; simpl in *; try done;
    (rewrite lookup_insert_ne; [done|]); intros <-; rewrite Hnone in Hk;
    by destruct Hk.
Qed.

Lemma db_stable_save_match_data ids c0 m s :
  MatchId m ∈ ids -> db_stable (grows_at ids c0) (save_match_data m s).
Proof.
  intros Hin w w' r HP H. apply save_match_data_inv in H as (wd & Hd & [H | H]).
  - destruct H as (res & _ & _ & ->). simpl.
    eapply grows_at_trans; [done|]. by apply grows_at_written.
  - destruct H as (e & _ & ->). by rewrite (only_disk_db _ _ Hd).
Qed.

Lemma db_stable__get_or_fetch_asset_data R token ids c0 t asset_id version_id :
  db_stable (grows_at ids c0) (_get_or_fetch_asset_data R token t asset_id version_id).
Proof.
  intros w w' r HP H.
  apply _get_or_fetch_asset_data_inv in H as (wd & Hd & [[-> _] | (a & Hnone & _ & ->)]).
  - by rewrite (only_disk_db _ _ Hd).
  - simpl. eapply grows_at_trans; [done|]. by apply grows_at_store_asset.
Qed.

Lemma db_stable__process_new_match R token ids c0 m :
  MatchId m ∈ ids -> db_stable (grows_at ids c0) (_process_new_match R token m).
Proof.
  intros Hin. unfold _process_new_match.
  apply db_stable_bind; [apply db_stable_lift|]. intros [| |s].
  - apply db_fixed_stable, db_fixed__handle_invalid_token.
  - apply db_stable_ret.
  - destruct (truthy s); [|apply db_stable_ret].
    apply db_stable_bind; [by apply db_stable_save_match_data | intros _].
    apply db_stable_bind; [apply db_stable__get_or_fetch_asset_data | intros mode_data].
    apply db_stable_bind; [apply db_stable__get_or_fetch_asset_data | intros map_data].
    apply db_fixed_stable, db_fixed_send_match_summary_report.
Qed.

Lemma for_each__process_new_match_grows R token (delta : list halo_match) w w' r :
  for_each (_process_new_match R token) delta w = (w', r) ->
  grows_at (map MatchId delta) (db w) (db w').
Proof.
  intros H.
  eapply (db_stable_for_each (grows_at (map MatchId delta) (db w))); [| |done].
  - intros m Hm. apply db_stable__process_new_match.
    apply list_elem_of_In, in_map, list_elem_of_In. done.
  - apply grows_at_refl.
Qed.

(** ** Matches with nothing left to write *)

Lemma recorded_written c m res : recorded (written c m res) m res.
Proof.
  unfold recorded, written. simpl. rewrite !lookup_insert_eq.
  split_and!; try done. intros tid. rewrite replace_team_mmrs_lookup. by case_decide.
Qed.

Lemma same_rows_refl c : same_rows c c.
Proof. by split_and!. Qed.

Lemma same_rows_eq c c' : c = c' -> same_rows c c'.
Proof. intros ->. apply same_rows_refl. Qed.

Lemma same_rows_trans c1 c2 c3 : same_rows c1 c2 -> same_rows c2 c3 -> same_rows c1 c3.
Proof.
  intros (? & ? & ? & ? & ?) (? & ? & ? & ? & ?). split_and!; congruence.
Qed.

(** Saving what is recorded already rewrites the rows with the values they
    have. *)
Lemma written_recorded c m res : recorded c m res -> same_rows (written c m res) c.
Proof.
  intros (Hm & Hs & Ht). unfold written. split_and!; simpl; try done.
  - by apply insert_id.
  - by apply insert_id.
  - apply map_eq. intros [mid tid]. rewrite replace_team_mmrs_lookup.
    case_decide; [subst; by rewrite Ht | done].
Qed.

Lemma recorded_same_rows c c' m res : same_rows c c' -> recorded c m res -> recorded c' m res.
Proof.
  intros (Hm & Hs & Ht & _) (Rm & Rs & Rt). unfold recorded.
  by rewrite <- Hm, <- Hs, <- Ht.
Qed.

Lemma asset_settled_same_rows R token t a c c' :
  same_rows c c' -> asset_settled R token t a c -> asset_settled R token t a c'.
Proof.
  intros (_ & _ & _ & Hmaps & Hmodes) [Hk | Hnone]; [left | by right].
  destruct t; simpl in *; congruence.
Qed.

Lemma settled_same_rows R token c c' m :
  same_rows c c' -> settled R token c m -> settled R token c' m.
Proof.
  intros Hsame Hs s Hstats.
  destruct (Hs s Hstats) as ((res & Hres & Hrec) & Hmode & Hmap).
  split_and!.
  - exists res. split; [done|]. by eapply recorded_same_rows.
  - by eapply asset_settled_same_rows.
  - by eapply asset_settled_same_rows.
Qed.

Lemma recorded_grows ids c c' m res :
  MatchId m ∉ ids -> grows_at ids c c' -> recorded c m res -> recorded c' m res.
Proof.
  intros Hid (Hm & Hs & Ht & _) (Rm & Rs & Rt). split_and!.
  - by rewrite Hm.
  - by rewrite Hs.
  - intros tid. by rewrite Ht.
Qed.

Lemma asset_settled_grows R token ids t a c c' :
  grows_at ids c c' -> asset_settled R token t a c -> asset_settled R token t a c'.
Proof.
  intros (_ & _ & _ & Ha & _) [Hk | Hnone]; [left | by right].
  by rewrite Ha.
Qed.

Lemma settled_grows R token ids c c' m :
  MatchId m ∉ ids -> grows_at ids c c' -> settled R token c m -> settled R token c' m.
Proof.
  intros Hid Hg Hs s Hstats. destruct (Hs s Hstats) as ((res & Hres & Hrec) & Hmode & Hmap).
  split_and!.
  - exists res. split; [done|]. by eapply recorded_grows.
  - by eapply asset_settled_grows.
  - by eapply asset_settled_grows.
Qed.

Lemma _get_or_fetch_asset_data_settles R token t (a : asset_ref) w w' x :
  _get_or_fetch_asset_data R token t (AssetId a) (VersionId a) w = (w', Ok x) ->
  asset_settled R token t a (db w').
Proof.
  intros H.
  apply _get_or_fetch_asset_data_inv in H as (wd & Hd & [[-> Hs] | (b & _ & _ & ->)]).
  - rewrite (only_disk_db _ _ Hd). by apply (Hs x).
  - left. simpl. unfold store_asset. destruct t; simpl; rewrite lookup_insert_eq; eauto.
Qed.

Lemma _get_or_fetch_asset_data_settled R token t (a : asset_ref) w w' r :
  asset_settled R token t a (db w) ->
  _get_or_fetch_asset_data R token t (AssetId a) (VersionId a) w = (w', r) ->
  db w' = db w.
Proof.
  intros Hs H.
  apply _get_or_fetch_asset_data_inv in H as (wd & Hd & [[-> _] | (b & Hnone & Hfetch & ->)]).
  - by apply only_disk_db.
  - destruct Hs as [[row Hrow] | Hs]; congruence.
Qed.

Lemma _process_new_match_settles R token m w w' :
  _process_new_match R token m w = (w', Ok tt) -> settled R token (db w') m.
Proof.
  unfold _process_new_match. intros H.
  apply bind_Ok in H as (w0 & v & Hl & H). unfold lift in Hl.
  injection Hl as <- Hstats.
  destruct (get_match_stats_inv _ _ _ _ Hstats) as [-> | (s & -> & Hrecap)].
  { intros s Hs. congruence. }
  destruct (has_rank_recap_result _ Hrecap) as [Htruthy _]. rewrite Htruthy in H.
  apply bind_Ok in H as (w1 & [] & Hsave & H).
  apply save_match_data_inv in Hsave as (wd & Hd & [Hsave | (e & He & _)]); [|discriminate].
  destruct Hsave as (res & Hres & _ & Hw1).
  apply bind_Ok in H as (w2 & mode_data & Hmode & H).
  apply bind_Ok in H as (w3 & map_data & Hmap & H).
  apply db_fixed_send_match_summary_report in H.
  pose proof (db_stable__get_or_fetch_asset_data R token [] (db w1) _ _ _ _ _ _
                (grows_at_refl _ _) Hmode) as Hg2.
  pose proof (db_stable__get_or_fetch_asset_data R token [] (db w2) _ _ _ _ _ _
                (grows_at_refl _ _) Hmap) as Hg3.
  apply _get_or_fetch_asset_data_settles in Hmode.
  apply _get_or_fetch_asset_data_settles in Hmap.
  intros s' Hs'. rewrite Hstats in Hs'. inversion Hs'; subst s'. rewrite H.
  split_and!.
  - exists res. split; [done|].
    eapply (recorded_grows []); [apply not_elem_of_nil | apply Hg3 |].
    eapply (recorded_grows []); [apply not_elem_of_nil | apply Hg2 |].
    rewrite Hw1. simpl. apply recorded_written.
  - by eapply asset_settled_grows.
  - done.
Qed.

Lemma _process_new_match_settled R token m w w' r :
  settled R token (db w) m ->
  _process_new_match R token m w = (w', r) ->
  same_rows (db w') (db w).
Proof.
  unfold _process_new_match. intros Hs H.
  apply bind_inv in H as [(w0 & v & Hl & H) | (e & Hl & _)]; unfold lift in Hl.
  2:{ injection Hl as <- _. apply same_rows_refl. }
  injection Hl as <- Hstats.
  destruct (get_match_stats_inv _ _ _ _ Hstats) as [-> | (s & -> & Hrecap)].
  { injection H as <- _. apply same_rows_refl. }
  destruct (has_rank_recap_result _ Hrecap) as [Htruthy _]. rewrite Htruthy in H.
  destruct (Hs s Hstats) as ((res & Hres & Hrec) & Hmode & Hmap).
  assert (forall w1 r1, save_match_data m s w = (w1, r1) -> same_rows (db w1) (db w))
    as Hsave.
  { intros w1 r1 H1. apply save_match_data_inv in H1 as (wd & Hd & [H1 | H1]).
    - destruct H1 as (res' & Hres' & _ & ->). simpl.
      assert (res' = res) as -> by congruence. by apply written_recorded.
    - destruct H1 as (e & _ & ->). apply same_rows_eq. by apply only_disk_db. }
  apply bind_inv in H as [(w1 & [] & H1 & H) | (e & H1 & _)]; [|by eapply Hsave].
  apply Hsave in H1.
  assert (asset_settled R token Modes_table (UgcGameVariant (MatchInfo m)) (db w1)
          /\ asset_settled R token maps_table (MapVariant (MatchInfo m)) (db w1))
    as [Hmode1 Hmap1].
  { destruct H1 as (? & ? & ? & Hmaps & Hmodes).
    split; (eapply asset_settled_same_rows; [|eassumption]); by split_and!. }
  apply bind_inv in H as [(w2 & mode_data & H2 & H) | (e & H2 & _)];
    (apply _get_or_fetch_asset_data_settled in H2; [|done]); [|by rewrite H2].
  apply bind_inv in H as [(w3 & map_data & H3 & H) | (e & H3 & _)];
    (apply _get_or_fetch_asset_data_settled in H3; [|by rewrite H2]);
    [|by rewrite H3, H2].
  apply db_fixed_send_match_summary_report in H. by rewrite H, H3, H2.
Qed.

Lemma for_each_settles R token (delta : list halo_match) :
  forall w w',
    NoDup (map MatchId delta) ->
    for_each (_process_new_match R token) delta w = (w', Ok tt) ->
    forall m, m ∈ delta -> settled R token (db w') m.
Proof.
  induction delta as [|m0 delta IH]; intros w w' Hnd H m Hm.
  - by apply elem_of_nil in Hm.
  - simpl in H, Hnd. apply NoDup_cons in Hnd as [Hfresh Hnd].
    apply bind_Ok in H as (w1 & [] & H1 & H).
    apply elem_of_cons in Hm as [-> | Hm]; [|by eapply IH].
    eapply settled_grows; [apply Hfresh | by eapply for_each__process_new_match_grows |].
    by eapply _process_new_match_settles.
Qed.

Lemma for_each_settled R token (delta : list halo_match) :
  forall w w' r,
    (forall m, m ∈ delta -> settled R token (db w) m) ->
    for_each (_process_new_match R token) delta w = (w', r) ->
    same_rows (db w') (db w).
Proof.
  induction delta as [|m0 delta IH]; intros w w' r Hs H; simpl in H.
  - injection H as <- _. apply same_rows_refl.
  - assert (settled R token (db w) m0) as H0 by (apply Hs; by left).
    apply bind_inv in H as [(w1 & [] & H1 & H) | (e & H1 & _)].
    + apply (_process_new_match_settled _ _ _ _ _ _ H0) in H1.
      eapply same_rows_trans; [|exact H1]. eapply IH; [|done].
      intros m Hm. eapply settled_same_rows; [|apply Hs; by right].
      destruct H1 as (? & ? & ? & ? & ?). by split_and!.
    + by eapply _process_new_match_settled.
Qed.

(** ** The delta, once more *)

Lemma get_new_matches_spec (R : Remote) (old token : string) :
  get_new_matches R old token = Ok (Py (delta_from old (page_of R token))).
Proof.
  unfold get_new_matches, page_of, delta_from, get_match_list, halo_request.
  destruct (matches_endpoint R token 5) as [[[page|]]|code|]; simpl; try done.
  - destruct (existsb _ _) eqn:Hex.
    + destruct (find _ page) as [known|] eqn:Hfind; [done|].
      apply existsb_exists in Hex as (id & Hin & Heq).
      apply String.eqb_eq in Heq as <-.
      apply in_map_iff in Hin as (m & <- & Hin).
      apply (find_none _ _ Hfind) in Hin. by rewrite String.eqb_refl in Hin.
    + destruct (find _ page) as [known|] eqn:Hfind; [|done].
      apply find_some in Hfind as [Hin Heq]. apply String.eqb_eq in Heq.
      assert (existsb (String.eqb old) (map MatchId page) = true) as Hex'; [|congruence].
      apply existsb_exists. exists old. split; [|apply String.eqb_refl].
      apply in_map_iff. eauto.
  - by destruct (code =? 401).
Qed.

Lemma delta_from_sub (old : string) (page : list halo_match) (m : halo_match) :
  m ∈ delta_from old page -> m ∈ page.
Proof.
  unfold delta_from. destruct (find _ page); [|done].
  rewrite !list_elem_of_In, filter_In. tauto.
Qed.

Lemma find_by_id (page : list halo_match) (m : halo_match) :
  NoDup (map MatchId page) -> m ∈ page ->
  find (fun m' => String.eqb (MatchId m') (MatchId m)) page = Some m.
Proof.
  induction page as [|x page IH]; intros Hnd Hin; [by apply elem_of_nil in Hin|].
  simpl in *. apply NoDup_cons in Hnd as [Hx Hnd].
  destruct (String.eqb (MatchId x) (MatchId m)) eqn:E.
  - apply String.eqb_eq in E. apply elem_of_cons in Hin as [-> | Hin]; [done|].
    destruct Hx. rewrite E. apply list_elem_of_In, in_map. by apply list_elem_of_In.
  - apply elem_of_cons in Hin as [-> | Hin]; [by rewrite String.eqb_refl in E|].
    by apply IH.
Qed.

(** An entry of the delta has another id than the known match. *)
Lemma delta_from_not_old (old : string) (page : list halo_match) (m : halo_match) :
  NoDup (map MatchId page) -> old ∈ map MatchId page ->
  m ∈ delta_from old page -> MatchId m ≠ old.
Proof.
  intros Hnd Hold Hm Heq. pose proof (delta_from_sub _ _ _ Hm) as Hin.
  unfold delta_from in Hm. subst old. rewrite (find_by_id _ _ Hnd Hin) in Hm.
  apply list_elem_of_In, filter_In in Hm as [_ Hlt]. by rewrite ltb_irrefl in Hlt.
Qed.

Lemma delta_from_later (old : string) (page : list halo_match) (m : halo_match) :
  NoDup (map MatchId page) ->
  m ∈ delta_from old page ->
  forall m', m' ∈ delta_from (MatchId m) page -> m' ∈ delta_from old page.
Proof.
  intros Hnd Hm m' Hm'. pose proof (delta_from_sub _ _ _ Hm) as Hin.
  unfold delta_from in Hm'. rewrite (find_by_id _ _ Hnd Hin) in Hm'.
  apply list_elem_of_In, filter_In in Hm' as [Hin' Hlt'].
  unfold delta_from in *. destruct (find _ page) as [known|]; [|by apply list_elem_of_In].
  apply list_elem_of_In, filter_In in Hm as [_ Hlt].
  apply list_elem_of_In, filter_In. split; [done|]. by eapply ltb_trans.
Qed.

Lemma latest_of_Some (c : Store) (l : latest_match) :
  latest_of c = Some l ->
  exists row, matches c !! latest_MatchId l = Some row
    /\ latest_StartTime l = start_time row
    /\ forall id' row', matches c !! id' = Some row' ->
         String.leb (start_time row') (start_time row) = true.
Proof.
  unfold latest_of.
  destruct (order_by_desc _ _) as [|[id row] rest] eqn:E; [discriminate|].
  intros [= <-]. simpl. apply order_by_desc_head in E as [Hin Hmax].
  exists row. split_and!; [by apply (elem_of_scan_matches _ (id, row)) | done |].
  intros id' row' H'. apply (Hmax (id', row')). by apply elem_of_scan_matches.
Qed.

Lemma latest_of_None (c : Store) (id : string) :
  latest_of c = None -> matches c !! id = None.
Proof.
  unfold latest_of.
  destruct (order_by_desc _ _) as [|row rest] eqn:E; [|discriminate]. intros _.
  destruct (matches c !! id) as [row|] eqn:Hrow; [|done].
  apply (elem_of_scan_matches _ (id, row)) in Hrow.
  apply (elem_of_order_by_desc (fun r => start_time r.2)) in Hrow.
  rewrite E in Hrow. by apply elem_of_nil in Hrow.
Qed.

(** Of the stored matches with the latest start time, [latest_of] gives
    the one that the scan meets first. *)
Lemma latest_of_first (c : Store) (l : latest_match) (id' : string) (row' : match_row) :
  latest_of c = Some l ->
  matches c !! id' = Some row' ->
  start_time row' = latest_StartTime l ->
  scanned_before c (latest_MatchId l) id' = true.
Proof.
  unfold latest_of.
  destruct (order_by_desc _ _) as [|[id row] rest] eqn:E; [discriminate|].
  intros [= <-] Hrow' Htime. simpl in *.
  apply order_by_desc_first in E as (l1 & l2 & Hscan & Hl1).
  pose proof (scan_matches_sorted c) as Hsorted. rewrite Hscan in Hsorted.
  assert ((id', row') ∈ scan_matches c) as Hin by (by apply elem_of_scan_matches).
  rewrite Hscan in Hin. apply elem_of_app in Hin as [Hin | Hin].
  - apply Hl1 in Hin. simpl in Hin. by rewrite Htime, ltb_irrefl in Hin.
  - apply elem_of_cons in Hin as [Heq | Hin].
    + injection Heq as -> _. apply scanned_before_refl.
    + apply StronglySorted_app_1_r, StronglySorted_inv in Hsorted as [_ Hall].
      rewrite Forall_forall in Hall. exact (Hall _ Hin).
Qed.

(** After a run that wrote at most the matches of its delta, the delta of
    the next run over the same page is part of it. *)
Lemma delta_shrinks (page : list halo_match) (c0 c1 : Store) :
  NoDup (map MatchId page) ->
  let delta0 := delta_from (latest_known_id (latest_of c0)) page in
  grows_at (map MatchId delta0) c0 c1 ->
  forall m, m ∈ delta_from (latest_known_id (latest_of c1)) page -> m ∈ delta0.
Proof.
  intros Hnd delta0 (Hm & _ & _ & _ & Hdom & Hrowid) m Hin.
  destruct (latest_of c1) as [l1|] eqn:Hl1.
  2:{ assert (latest_of c0 = None) as Hl0.
      { destruct (latest_of c0) as [l0|] eqn:Hl0; [|done].
        apply latest_of_Some in Hl0 as (row & Hrow & _).
        assert (is_Some (matches c1 !! latest_MatchId l0)) as [? Hc1] by eauto.
        by rewrite (latest_of_None _ _ Hl1) in Hc1. }
      subst delta0. by rewrite Hl0. }
  simpl in Hin.
  destruct (latest_of_Some _ _ Hl1) as (row1 & Hrow1 & Htime1 & Hmax1).
  destruct (decide (latest_MatchId l1 ∈ map MatchId delta0)) as [Hsaved | Hkept].
  - apply list_elem_of_In, in_map_iff in Hsaved as (e1 & Hid & He1).
    rewrite <- Hid in Hin. eapply delta_from_later; [done | | done].
    by apply list_elem_of_In.
  - rewrite (Hm _ Hkept) in Hrow1.
    destruct (latest_of c0) as [l0|] eqn:Hl0.
    2:{ by rewrite (latest_of_None _ _ Hl0) in Hrow1. }
    destruct (latest_of_Some _ _ Hl0) as (row0 & Hrow0 & Htime0 & Hmax0).
    destruct (decide (latest_MatchId l0 = latest_MatchId l1)) as [Heq | Hne].
    { subst delta0. simpl. by rewrite Heq. }
    subst delta0. simpl in *.
    destruct (decide (latest_MatchId l0 ∈ map MatchId page)) as [Hpage | Hpage].
    + assert (latest_MatchId l0
              ∉ map MatchId (delta_from (latest_MatchId l0) page)) as Hold.
      { intros Hx. apply list_elem_of_In, in_map_iff in Hx as (e & He & Hx).
        apply list_elem_of_In in Hx. by apply delta_from_not_old in Hx. }
      destruct Hne.
      assert (start_time row0 = start_time row1) as Hsame.
      { apply String.leb_antisym; [|by eapply Hmax0].
        apply (Hmax1 (latest_MatchId l0)). by rewrite (Hm _ Hold). }
      apply (scanned_before_antisym c0).
      * apply (latest_of_first c0 l0 _ row1 Hl0 Hrow1). congruence.
      * assert (scanned_before c1 (latest_MatchId l1) (latest_MatchId l0) = true)
          as Hbefore.
        { apply (latest_of_first c1 l1 _ row0 Hl1); [|congruence].
          by rewrite (Hm _ Hold). }
        revert Hbefore. unfold scanned_before, rowid_of.
        by rewrite (Hrowid _ Hold), (Hrowid _ Hkept).
    + apply delta_from_sub in Hin. unfold delta_from.
      destruct (find _ page) as [known|] eqn:Hfind; [|done].
      apply find_some in Hfind as [Hk Heq]. apply String.eqb_eq in Heq.
      destruct Hpage. rewrite <- Heq. by apply list_elem_of_In, in_map.
Qed.

Lemma NoDup_map_filter {A B} (f : A -> B) (p : A -> bool) (l : list A) :
  NoDup (map f l) -> NoDup (map f (List.filter p l)).
Proof.
  induction l as [|x l IH]; simpl; intros Hnd; [done|].
  apply NoDup_cons in Hnd as [Hx Hnd]. destruct (p x); simpl; [|by apply IH].
  apply NoDup_cons. split; [|by apply IH].
  intros Hin. apply Hx. apply list_elem_of_In, in_map_iff in Hin as (y & Hy & Hin).
  apply filter_In in Hin as [Hin _]. apply list_elem_of_In, in_map_iff. eauto.
Qed.

Lemma delta_from_NoDup (old : string) (page : list halo_match) :
  NoDup (map MatchId page) -> NoDup (map MatchId (delta_from old page)).
Proof.
  intros Hnd. unfold delta_from. destruct (find _ page); [|done].
  by apply NoDup_map_filter.
Qed.

(** A run is the processing of the delta for the latest stored match. *)
Lemma check_for_new_matches_inv (R : Remote) (token : string) w w' r :
  check_for_new_matches R token w = (w', r) ->
  (only_disk w w' /\ r = Raise OperationalError)
  \/ exists w1,
       only_disk w w1
       /\ for_each (_process_new_match R token)
            (delta_from (latest_known_id (latest_of (db w))) (page_of R token)) w1
          = (w', r).
Proof.
  intros H. destruct (Get_Latest_Match w) as [w1 r1] eqn:Hlatest.
  pose proof Hlatest as Hinv. apply Get_Latest_Match_inv in Hinv as [Hd [-> | ->]].
  - right. exists w1. split; [done|].
    by erewrite <- check_for_new_matches_run; [| done | apply get_new_matches_spec].
  - left. unfold check_for_new_matches in H.
    rewrite (bind_raise _ _ _ _ _ Hlatest) in H. by inversion H; subst.
Qed.

(** C3. Running [check_for_new_matches] again, after a run that returned
    and against a remote that answers as before with a page of distinct
    ids, leaves the rows of every table as they are: nothing is added to,
    removed from or changed in [matches], [stats], [team_mmrs], [maps] or
    [Modes], whatever the outcome of the second run and whatever start times
    the stored matches share. The matches that the second run saves again
    keep their columns and are stored under new rowids. *)
Theorem resynchronize_keeps_rows (R : Remote) (token : string)
    (w0 w1 w2 : World) (r : result unit) :
  NoDup (map MatchId (page_of R token)) ->
  check_for_new_matches R token w0 = (w1, Ok tt) ->
  check_for_new_matches R token w1 = (w2, r) ->
  same_rows (db w2) (db w1).
Proof.
  intros Hnd Hrun1 Hrun2.
  apply check_for_new_matches_inv in Hrun1 as [[_ ?] | (wa & Hda & Hrun1)]; [discriminate|].
  apply check_for_new_matches_inv in Hrun2 as [[Hd _] | (wb & Hdb & Hrun2)].
  { apply same_rows_eq. by apply only_disk_db. }
  pose proof (for_each__process_new_match_grows _ _ _ _ _ _ Hrun1) as Hgrows.
  rewrite (only_disk_db _ _ Hda) in Hgrows.
  pose proof (for_each_settles _ _ _ _ _ (delta_from_NoDup _ _ Hnd) Hrun1) as Hsettled.
  rewrite <- (only_disk_db _ _ Hdb).
  eapply for_each_settled; [|done].
  intros m Hm. rewrite (only_disk_db _ _ Hdb). apply Hsettled.
  by eapply delta_shrinks.
Qed.

(** ** Failures of the remote *)

Lemma halo_request_transient {A} (r : reply A) :
  transient r -> halo_request r = Ok None.
Proof.
  destruct r as [a|code|]; simpl; [done | | done].
  intros Hcode. by apply Z.eqb_neq in Hcode as ->.
Qed.

Lemma get_match_stats_transient (R : Remote) (match_id token : string) :
  transient (skill_endpoint R token match_id) ->
  get_match_stats R match_id token = Ok PyNone.
Proof. intros H. unfold get_match_stats. by rewrite halo_request_transient. Qed.

Lemma page_of_transient (R : Remote) (token : string) :
  transient (matches_endpoint R token 5) -> page_of R token = [].
Proof. intros H. unfold page_of, get_match_list. by rewrite halo_request_transient. Qed.

Lemma _process_new_match_skip (R : Remote) (token : string) (m : halo_match) w :
  get_match_stats R (MatchId m) token = Ok PyNone ->
  _process_new_match R token m w = (w, Ok tt).
Proof. intros H. unfold _process_new_match, bind, lift. by rewrite H. Qed.

Lemma _process_new_match_raise (R : Remote) (token : string) (m : halo_match) w e :
  get_match_stats R (MatchId m) token = Raise e ->
  _process_new_match R token m w = (w, Raise e).
Proof. intros H. unfold _process_new_match, bind, lift. by rewrite H. Qed.

Lemma for_each_app {A} (body : A -> M unit) (l1 l2 : list A) w w1 :
  for_each body l1 w = (w1, Ok tt) ->
  for_each body (l1 ++ l2) w = for_each body l2 w1.
Proof.
  revert w. induction l1 as [|x l1 IH]; intros w H; simpl in *.
  - by inversion H.
  - apply bind_Ok in H as (wx & [] & Hx & H).
    rewrite (bind_run _ _ _ _ _ Hx). by apply IH.
Qed.

(** C7. A transient failure of the match-list call ends the run with no
    write and nothing sent. A transient failure of the stats call of one
    match of the delta makes the run skip that match, writing and sending
    nothing for it, and go on with the matches after it. Every run starts
    from the latest match as the store has it then. *)
Theorem transient_failures (R : Remote) (token : string) :
  (transient (matches_endpoint R token 5) ->
   forall w w' r, check_for_new_matches R token w = (w', r) -> only_disk w w')
  /\ (forall m rest w,
        transient (skill_endpoint R token (MatchId m)) ->
        _process_new_match R token m w = (w, Ok tt)
        /\ for_each (_process_new_match R token) (m :: rest) w
           = for_each (_process_new_match R token) rest w)
  /\ (forall w w' r,
        check_for_new_matches R token w = (w', r) ->
        (only_disk w w' /\ r = Raise OperationalError)
        \/ exists w1,
             only_disk w w1
             /\ for_each (_process_new_match R token)
                  (delta_from (latest_known_id (latest_of (db w))) (page_of R token)) w1
                = (w', r)).
Proof.
  split_and!.
  - intros Hlist w w' r H.
    apply check_for_new_matches_inv in H as [[Hd _] | (w1 & Hd & H)]; [done|].
    rewrite (page_of_transient _ _ Hlist) in H. unfold delta_from in H. simpl in H.
    by inversion H; subst.
  - intros m rest w Hstats.
    pose proof (_process_new_match_skip R token m w
                  (get_match_stats_transient _ _ _ Hstats)) as Hskip.
    split; [done|]. simpl. by rewrite (bind_run _ _ _ _ _ Hskip).
  - apply check_for_new_matches_inv.
Qed.

(** A stats call that is refused with 401 ends the run where it stands:
    what was committed before stays, nothing after it is processed. *)
Lemma stats_auth_failure_aborts (R : Remote) (token : string)
    (before after : list halo_match) (m : halo_match) w w1 :
  get_match_stats R (MatchId m) token = Raise InvalidTokenError ->
  for_each (_process_new_match R token) before w = (w1, Ok tt) ->
  for_each (_process_new_match R token) (before ++ m :: after) w
  = (w1, Raise InvalidTokenError).
Proof.
  intros Hstats Hbefore. rewrite (for_each_app _ _ _ _ _ Hbefore). simpl.
  by rewrite (bind_raise _ _ _ _ _ (_process_new_match_raise R token m w1 _ Hstats)).
Qed.

(** The exception leaves [check_new_games_loop], and a task that is done
    runs nothing more until [start_scraper] makes a new one. *)
Lemma check_new_games_loop_ends (R : Remote) (token : string) w w' e :
  scraper_task w = Running ->
  check_for_new_matches R token w = (w', Raise e) ->
  check_new_games_loop R token w = set_scraper_task Done w'.
Proof. intros Ht H. unfold check_new_games_loop. by rewrite Ht, H. Qed.

Lemma check_new_games_loop_done (R : Remote) (token : string) w :
  scraper_task w ≠ Running -> check_new_games_loop R token w = w.
Proof. intros Ht. unfold check_new_games_loop. by destruct (scraper_task w). Qed.

Lemma start_scraper_restarts w :
  scraper_task w = Done -> start_scraper w = (set_scraper_task Running w, Ok tt).
Proof. intros Ht. unfold start_scraper. by rewrite Ht. Qed.

(** [get_new_matches] never answers [False], the one value its caller
    takes for a rejected token. *)
Lemma get_new_matches_never_False (R : Remote) (old token : string) :
  get_new_matches R old token ≠ Ok PyFalse.
Proof. by rewrite get_new_matches_spec. Qed.

Lemma get_new_matches_401 (R : Remote) (old token : string) :
  matches_endpoint R token 5 = Status 401 ->
  get_match_list R token 5 = Raise InvalidTokenError
  /\ get_new_matches R old token = Ok (Py []).
Proof.
  intros H. unfold get_new_matches, get_match_list. by rewrite H.
Qed.

(** ** Invariants of the world along a computation *)

Lemma stable_ret {A} I (a : A) : stable I (ret a).
Proof. intros w w' r HI H. by inversion H; subst. Qed.

Lemma stable_bind {A B} I (c : M A) (k : A -> M B) :
  stable I c -> (forall a, stable I (k a)) -> stable I (bind c k).
Proof.
  intros Hc Hk w w' r HI H.
  apply bind_inv in H as [(w1 & a & H1 & H2) | (e & H1 & _)].
  - eapply Hk; [|done]. eauto.
  - eauto.
Qed.

Lemma stable_only_disk {A} (I : World -> Prop) (c : M A) :
  (forall w d, I w -> I (set_disk d w)) ->
  (forall w w' r, c w = (w', r) -> only_disk w w') ->
  stable I c.
Proof. intros Hblind Hc w w' r HI H. apply Hc in H as [d ->]. by apply Hblind. Qed.

(** ** Chart files *)

Lemma charts_cleaned_refl w :
  (forall b, b ∈ net w -> b = false) -> charts_cleaned w w.
Proof. intros H. split_and!; [done | done | by left]. Qed.

Lemma charts_cleaned_set_disk w0 w d :
  charts_cleaned w0 w -> charts_cleaned w0 (set_disk d w).
Proof. by intros (? & ? & ?). Qed.

Lemma stable_discord_text w0 (sent : list notice) :
  (forall p, Attachment p ∉ sent) ->
  stable (charts_cleaned w0) (discord sent).
Proof.
  intros Hsent w w' r (Hnet & Hfiles & Hout) H. unfold discord in H.
  destruct (net w) as [|[] n] eqn:En.
  - inversion H; subst. split_and!; simpl; [by rewrite En | done |].
    intros p Hp. apply elem_of_app in Hp as [Hp | Hp]; [by apply Hout|].
    by apply Hsent in Hp.
  - assert (true = false) by (apply Hnet; by left). discriminate.
  - inversion H; subst. split_and!; simpl; [| done |].
    + intros b Hb. apply Hnet. by right.
    + intros p Hp. apply elem_of_app in Hp as [Hp | Hp]; [by apply Hout|].
      by apply Hsent in Hp.
Qed.

Lemma no_attachment_nil p : Attachment p ∉ ([] : list notice).
Proof. apply not_elem_of_nil. Qed.

Lemma no_attachment_reply p body : Attachment p ∉ [Reply body].
Proof. intros H. apply list_elem_of_singleton in H. discriminate. Qed.

Lemma stable_ctx_send w0 body : stable (charts_cleaned w0) (ctx_send body).
Proof. apply stable_discord_text. intros p. apply no_attachment_reply. Qed.

Lemma stable_create_dm w0 : stable (charts_cleaned w0) create_dm.
Proof. apply stable_discord_text. intros p. apply no_attachment_nil. Qed.

Lemma stable_get_recent_match_data w0 fromisoformat count session_only :
  stable (charts_cleaned w0) (get_recent_match_data fromisoformat count session_only).
Proof.
  apply stable_only_disk.
  - intros w d. apply charts_cleaned_set_disk.
  - intros w w' r H. by apply get_recent_match_data_inv in H as [? _].
Qed.

Lemma renders_csr_trend data : renders (generate_csr_trend_plot data).
Proof.
  intros w w' r H. unfold generate_csr_trend_plot in H.
  destruct data as [[|row data] | [|row data]];
    try (injection H as <- <-; left; split; [by left | done]).
  destruct (List.filter _ _); [injection H as <- <-; left; split; [by left | done]|].
  injection H as <- <-. right. eauto.
Qed.

Lemma renders_kd data : renders (generate_kd_plot data).
Proof.
  intros w w' r H. unfold generate_kd_plot in H.
  destruct data as [[|row data] | [|row data]]; injection H as <- <-;
    [left; split; [by left | done] | right; eauto
    | left; split; [by left | done] | left; split; [right; eauto | done]].
Qed.

Lemma renders_kd_ratio data : renders (generate_kd_ratio_plot data).
Proof.
  intros w w' r H. unfold generate_kd_ratio_plot in H.
  destruct data as [[|row data] | [|row data]]; injection H as <- <-;
    [left; split; [by left | done] | right; eauto
    | left; split; [by left | done] | left; split; [right; eauto | done]].
Qed.

Lemma saved_then_removed_sub (p : string) (F F0 : gset string) :
  F ⊆ F0 -> ({[p]} ∪ F) ∖ {[p]} ⊆ F0.
Proof.
  intros Hsub q Hq. apply elem_of_difference in Hq as [Hq Hne].
  apply elem_of_union in Hq as [Hq | Hq]; [done | by apply Hsub].
Qed.

Lemma saved_then_removed_gone (p : string) (F : gset string) :
  p ∉ ({[p]} ∪ F) ∖ {[p]}.
Proof. intros Hq. apply elem_of_difference in Hq as [_ Hne]. by apply Hne, elem_of_singleton. Qed.

Lemma saved_then_removed_absent (p q : string) (F : gset string) :
  q ∉ F -> q ∉ ({[p]} ∪ F) ∖ {[p]}.
Proof.
  intros Hq Hin. apply elem_of_difference in Hin as [Hin Hne].
  apply elem_of_union in Hin as [Hin | Hin]; [by apply Hne | done].
Qed.

Lemma saved_present (p : string) (F : gset string) : p ∈ {[p]} ∪ F.
Proof. apply elem_of_union. left. by apply elem_of_singleton. Qed.

(** Generated, sent, removed: the plot directory is as before, less the
    file if it was already there. *)
Lemma stable_send_plot w0 generate data :
  renders (generate data) -> stable (charts_cleaned w0) (send_plot generate data).
Proof.
  intros Hgen w w' r (Hnet & Hfiles & Hout) H. unfold send_plot in H.
  apply bind_inv in H as [(w1 & path & Hg & H) | (e & Hg & _)];
    apply Hgen in Hg as [[[Hr | [e' Hr]] ->] | (p & Hr & ->)];
    try done; try discriminate.
  - injection Hr as ->. by inversion H; subst.
  - injection Hr as ->.
    unfold dm_send_file, bind in H. simpl in H.
    rewrite bool_decide_eq_true_2 in H by apply saved_present.
    unfold discord in H. simpl in H.
    destruct (net w) as [|[] n] eqn:En; simpl in H.
    + unfold os_remove in H. simpl in H.
      rewrite bool_decide_eq_true_2 in H by apply saved_present.
      injection H as <- <-. split_and!; simpl.
      * by rewrite En.
      * by apply saved_then_removed_sub.
      * intros q Hq. apply elem_of_app in Hq as [Hq | Hq].
        -- destruct (Hout q Hq); [by left | right; by apply saved_then_removed_absent].
        -- apply list_elem_of_singleton in Hq. injection Hq as ->. right.
           apply saved_then_removed_gone.
    + assert (true = false) by (apply Hnet; by left). discriminate.
    + unfold os_remove in H. simpl in H.
      rewrite bool_decide_eq_true_2 in H by apply saved_present.
      injection H as <- <-. split_and!; simpl.
      * intros b Hb. apply Hnet. by right.
      * by apply saved_then_removed_sub.
      * intros q Hq. apply elem_of_app in Hq as [Hq | Hq].
        -- destruct (Hout q Hq); [by left | right; by apply saved_then_removed_absent].
        -- apply list_elem_of_singleton in Hq. injection Hq as ->. right.
           apply saved_then_removed_gone.
Qed.

Lemma stable_send_plots w0 data : stable (charts_cleaned w0) (send_plots data).
Proof.
  unfold send_plots.
  apply stable_bind; [apply stable_send_plot, renders_csr_trend | intros _].
  apply stable_bind; [apply stable_send_plot, renders_kd | intros _].
  apply stable_send_plot, renders_kd_ratio.
Qed.

Lemma stable_handle_halo_stopped w0 fromisoformat :
  stable (charts_cleaned w0) (handle_halo_stopped fromisoformat).
Proof.
  unfold handle_halo_stopped.
  apply stable_bind; [|intros _].
  { intros w w' r HI H. by inversion H; subst. }
  apply stable_bind; [|intros _].
  { intros w w' r HI H. unfold stop_scraper in H.
    destruct (scraper_task w); by inversion H; subst. }
  apply stable_bind; [apply stable_get_recent_match_data | intros data].
  destruct data; [apply stable_ret|].
  apply stable_bind; [apply stable_create_dm | intros _].
  apply stable_send_plots.
Qed.

Lemma stable_report w0 fromisoformat :
  stable (charts_cleaned w0) (report fromisoformat).
Proof.
  unfold report.
  apply stable_bind; [apply stable_ctx_send | intros _].
  apply stable_bind; [apply stable_get_recent_match_data | intros raw].
  apply stable_bind.
  { destruct (_ <? 3); [|apply stable_ret].
    apply stable_bind; [apply stable_ctx_send | intros _].
    apply stable_get_recent_match_data. }
  intros data. destruct data; [apply stable_ctx_send|].
  apply stable_bind; [apply stable_create_dm | intros _].
  apply stable_bind; [apply stable_send_plots | intros _].
  apply stable_ctx_send.
Qed.

(** C9, as the code has it. When no call to Discord fails, the session-end
    report and the [report] command leave no chart file behind: the plot
    directory holds no file that it did not hold before, and the file of
    every chart that was sent has been removed. *)
Theorem chart_files_removed_after_sending (fromisoformat : string -> option Z)
    (w w' : World) (r : result unit) :
  (forall b, b ∈ net w -> b = false) ->
  handle_halo_stopped fromisoformat w = (w', r)
  \/ report fromisoformat w = (w', r) ->
  files w' ⊆ files w
  /\ forall p, Attachment p ∈ outbox w' -> Attachment p ∈ outbox w \/ p ∉ files w'.
Proof.
  intros Hnet [H | H].
  - by apply (stable_handle_halo_stopped w fromisoformat _ _ _
                (charts_cleaned_refl w Hnet)) in H as (_ & ? & ?).
  - by apply (stable_report w fromisoformat _ _ _
                (charts_cleaned_refl w Hnet)) in H as (_ & ? & ?).
Qed.

(** A transmission that fails leaves the file where it is. *)
Lemma send_plot_failure generate data w w1 p n :
  generate data w = (w1, Ok (Some p)) ->
  p ∈ files w1 ->
  net w1 = true :: n ->
  send_plot generate data w = (set_net n w1, Raise DiscordError)
  /\ p ∈ files (set_net n w1).
Proof.
  intros Hg Hp Hnet. split; [|done]. unfold send_plot.
  rewrite (bind_run _ _ _ _ _ Hg). unfold dm_send_file, bind, discord. simpl.
  rewrite bool_decide_eq_true_2 by done. by rewrite Hnet.
Qed.

(** ** The order of the rows handed to the charts *)

Lemma session_rows_ascending (fromisoformat : string -> option Z) (count : Z)
    (w w' : World) (rows : list recent_row) :
  get_recent_match_data fromisoformat count true w = (w', Ok rows) ->
  ascending r_start_time rows.
Proof.
  intros H. apply recent_rows_joined in H as [rest Hjoin].
  pose proof (matches_join_stats_descending (db w)) as Hd. rewrite Hjoin in Hd.
  apply descending_prefix, descending_rev in Hd. by rewrite rev_involutive in Hd.
Qed.

Lemma recent_rows_descending (fromisoformat : string -> option Z) (count : Z)
    (w w' : World) (rows : list recent_row) :
  get_recent_match_data fromisoformat count false w = (w', Ok rows) ->
  descending r_start_time rows.
Proof.
  intros H. apply recent_rows_joined in H as [rest Hjoin].
  pose proof (matches_join_stats_descending (db w)) as Hd. rewrite Hjoin in Hd.
  by apply descending_prefix in Hd.
Qed.

(** C4, as the code has it. With four stored matches, the latest of them
    three and a half hours after the first and two and a half hours after
    the third, the session branch of [get_recent_match_data] walks back from
    the latest, meets the gap of more than two hours at once, and returns
    that latest match alone. *)
Theorem session_window_example (fromisoformat : string -> option Z) (count : Z)
    (w : World) (r1 r2 r3 r4 : recent_row) (t : Z) :
  disk w = [] ->
  matches_join_stats (db w) = [r4; r3; r2; r1] ->
  fromisoformat (r_start_time r1) = Some t ->
  fromisoformat (r_start_time r2) = Some (t + 1800000000) ->
  fromisoformat (r_start_time r3) = Some (t + 3600000000) ->
  fromisoformat (r_start_time r4) = Some (t + 12600000000) ->
  get_recent_match_data fromisoformat count true w = (w, Ok [r4]).
Proof.
  intros Hdisk Hrows H1 H2 H3 H4.
  rewrite get_recent_match_data_healthy by done. f_equal.
  rewrite Hrows. unfold session_of. simpl. rewrite H4, H3.
  replace (two_hours <? t + 12600000000 - (t + 12600000000)) with false
    by (symmetry; apply Z.ltb_ge; unfold two_hours; lia).
  replace (two_hours <? t + 12600000000 - (t + 3600000000)) with true
    by (symmetry; apply Z.ltb_lt; unfold two_hours; lia).
  done.
Qed.

(** * Examples *)

(** Decides a closed proposition by evaluating its decision procedure. *)
Ltac by_decide :=
  match goal with
  | |- ?P => apply (bool_decide_eq_true_1 P); vm_compute; reflexivity
  end.

Example sample_times :
  map fromisoformat_utc
      ["2025-08-26T10:00:00Z"; "2025-08-26T10:30:00Z";
       "2025-08-26T11:00:00Z"; "2025-08-26T13:30:00Z"]
  = [Some 1756202400000000; Some 1756204200000000;
     Some 1756206000000000; Some 1756215000000000].
Proof. reflexivity. Qed.

Example four_stored :
  matches_join_stats (sample_store [m1000; m1030; m1100; m1330])
  = [sample_row m1330; sample_row m1100; sample_row m1030; sample_row m1000].
Proof. vm_compute. reflexivity. Qed.

Lemma session_window_example_witness :
  get_recent_match_data fromisoformat_utc 10 true
    (world_of (sample_store [m1000; m1030; m1100; m1330]))
  = (world_of (sample_store [m1000; m1030; m1100; m1330]), Ok [sample_row m1330]).
Proof.
  apply (session_window_example fromisoformat_utc 10 _
           (sample_row m1000) (sample_row m1030) (sample_row m1100) (sample_row m1330)
           1756202400000000);
    vm_compute; reflexivity.
Defined.

(** The spec's own example: four matches at 10:00, 10:30, 11:00 and 13:30.
    The session is the match of 13:30 alone, not the three earlier ones. *)
Lemma session_window_counterexample :
  let w := world_of (sample_store [m1000; m1030; m1100; m1330]) in
  map r_start_time (matches_join_stats (db w))
  = ["2025-08-26T13:30:00Z"; "2025-08-26T11:00:00Z";
     "2025-08-26T10:30:00Z"; "2025-08-26T10:00:00Z"]
  /\ get_recent_match_data fromisoformat_utc 10 true w = (w, Ok [sample_row m1330])
  /\ (get_recent_match_data fromisoformat_utc 10 true w).2
     <> Ok [sample_row m1000; sample_row m1030; sample_row m1100].
Proof.
  split_and!.
  - vm_compute. reflexivity.
  - vm_compute. reflexivity.
  - vm_compute. discriminate.
Qed.

Lemma synchronize_delta_witness :
  exists known,
    known ∈ four_matches /\ MatchId known = "m1030"
    /\ let delta :=
         List.filter (fun m => String.ltb (StartTime (MatchInfo known))
                                          (StartTime (MatchInfo m))) four_matches in
       get_new_matches remote_ready "m1030" "token" = Ok (Py delta)
       /\ check_for_new_matches remote_ready "token" world_two_known
          = for_each (_process_new_match remote_ready "token") delta world_two_known.
Proof.
  refine (proj1 (proj2 (proj2 (synchronize_delta remote_ready "token"
            world_two_known world_two_known
            (Some {| latest_MatchId := "m1030";
                     latest_StartTime := "2025-08-26T10:30:00Z" |})
            four_matches _ _))) _).
  - vm_compute. reflexivity.
  - reflexivity.
  - by_decide.
Defined.

Example delta_of_two_known :
  get_new_matches remote_ready "m1030" "token" = Ok (Py [m1330; m1100]).
Proof. vm_compute. reflexivity. Qed.

Example delta_of_empty_store :
  get_new_matches remote_ready "" "token" = Ok (Py four_matches).
Proof. vm_compute. reflexivity. Qed.

Lemma resynchronize_keeps_rows_witness :
  same_rows
    (db (check_for_new_matches remote_ready "token"
           (check_for_new_matches remote_ready "token" world_two_known).1).1)
    (db (check_for_new_matches remote_ready "token" world_two_known).1).
Proof.
  apply (resynchronize_keeps_rows remote_ready "token" world_two_known
           (check_for_new_matches remote_ready "token" world_two_known).1
           (check_for_new_matches remote_ready "token"
              (check_for_new_matches remote_ready "token" world_two_known).1).1
           (check_for_new_matches remote_ready "token"
              (check_for_new_matches remote_ready "token" world_two_known).1).2).
  - by_decide.
  - vm_compute. reflexivity.
  - vm_compute. reflexivity.
Defined.

(** The latest stored match is not on the page: both runs save the four
    matches of the page, the second under new rowids, and both send the
    four summaries. The store after the second run is not the store after
    the first. *)
Lemma resynchronize_rewrites_counterexample :
  let run1 := check_for_new_matches remote_ready "token" world_later_known in
  let run2 := check_for_new_matches remote_ready "token" run1.1 in
  run1.2 = Ok tt
  /\ run2.2 = Ok tt
  /\ matches_rowid (db run1.1) !! "m1330" = Some 2%nat
  /\ matches_rowid (db run2.1) !! "m1330" = Some 6%nat
  /\ length (outbox run1.1) = 4%nat
  /\ length (outbox run2.1) = 8%nat
  /\ db run2.1 <> db run1.1.
Proof.
  split_and!; try (vm_compute; reflexivity).
  intros Heq.
  assert (matches_rowid
            (db (check_for_new_matches remote_ready "token"
                   (check_for_new_matches remote_ready "token"
                      world_later_known).1).1) !! "m1330"
          = matches_rowid
              (db (check_for_new_matches remote_ready "token"
                     world_later_known).1) !! "m1330") as Hrow
    by (by rewrite Heq).
  vm_compute in Hrow. discriminate.
Qed.

Example first_run_saves_the_delta :
  dom (matches (db (check_for_new_matches remote_ready "token" world_two_known).1))
  = {["m1000"; "m1030"; "m1100"; "m1330"]}.
Proof. vm_compute. reflexivity. Qed.

(** The delete of [_save_team_mmrs] is refused after both upserts went
    through: nothing of the match is in the store afterwards. *)
Lemma save_match_data_atomic_witness :
  save_match_data m1000 sample_stats world_failing_disk
  = (world_of empty_store, Raise OperationalError)
  /\ db (world_of empty_store) = db world_failing_disk.
Proof.
  assert (save_match_data m1000 sample_stats world_failing_disk
          = (world_of empty_store, Raise OperationalError)) as Hrun
    by (vm_compute; reflexivity).
  split; [exact Hrun|].
  destruct (save_match_data_atomic m1000 sample_stats world_failing_disk
              (world_of empty_store) (Raise OperationalError) Hrun)
    as [[Hok _] | (e & _ & Hsame)]; [discriminate Hok | exact Hsame].
Defined.

Example save_match_data_writes_all_three :
  save_match_data m1000 sample_stats (world_of empty_store)
  = (world_of (sample_store [m1000]), Ok tt).
Proof. vm_compute. reflexivity. Qed.

(** Stats without ["Value"]: both upserts and the delete have run when
    [_save_team_mmrs] raises, and the store is as before. *)
Example save_match_data_rolls_back :
  save_match_data m1000 {| Value := None |} (world_of empty_store)
  = (world_of empty_store, Raise (KeyError "Value")).
Proof. vm_compute. reflexivity. Qed.

Lemma stats_have_match_empty : stats_have_match empty_store.
Proof. intros match_id [row Hrow]. simpl in Hrow. by rewrite lookup_empty in Hrow. Qed.

(** Saving a match again with other teams replaces its team rows. *)
Lemma store_invariants_witness :
  let c := db (save_match_data m1000 stats_team_c (world_of (sample_store [m1000]))).1 in
  team_mmrs c !! ("m1000", "team_c") = Some (1490 # 1)%Q
  /\ team_mmrs c !! ("m1000", "team_a") = None
  /\ stats_have_match c.
Proof.
  pose (w := world_of (sample_store [m1000])).
  destruct (store_invariants remote_ready "token" fromisoformat_utc
              (Op_save_match_data m1000 stats_team_c) w
              (save_match_data m1000 stats_team_c w).1
              (save_match_data m1000 stats_team_c w).2)
    as [Hinv Hteams].
  - apply surjective_pairing.
  - intros match_id [row Hrow].
    destruct (decide (match_id = "m1000")) as [-> | Hne].
    + by_decide.
    + exfalso. revert Hrow. unfold w, sample_store. simpl.
      by rewrite lookup_insert_ne, lookup_empty.
  - destruct (Hteams m1000 stats_team_c eq_refl) as (res & Hres & Hrows).
    + vm_compute. reflexivity.
    + injection Hres as <-. split_and!.
      * etrans; [exact (Hrows "team_c") | vm_compute; reflexivity].
      * etrans; [exact (Hrows "team_a") | vm_compute; reflexivity].
      * exact Hinv.
Defined.

Lemma recent_matches_inner_join_witness :
  (forall r, r ∈ [sample_row m1000] ->
     exists m s, matches (db (world_of (sample_store [m1000]))) !! r_match_id r = Some m
                 /\ stats (db (world_of (sample_store [m1000]))) !! r_match_id r = Some s
                 /\ join_row (db (world_of (sample_store [m1000]))) (r_match_id r, m) = Some r)
  /\ (forall match_id, stats (db (world_of (sample_store [m1000]))) !! match_id = None ->
        match_id ∉ map r_match_id [sample_row m1000]).
Proof.
  apply (recent_matches_inner_join fromisoformat_utc 10 false
           (world_of (sample_store [m1000])) (world_of (sample_store [m1000]))).
  vm_compute. reflexivity.
Defined.

(** A match whose stats were never ready has a matches row only, and no
    report sees it. *)
Example match_without_stats_is_not_reported :
  let c := set_matches (<["m1030" := match_row_of m1030]> (matches (sample_store [m1000])))
             (sample_store [m1000]) in
  (get_recent_match_data fromisoformat_utc 10 false (world_of c)).2 = Ok [sample_row m1000]
  /\ (get_recent_match_data fromisoformat_utc 10 true (world_of c)).2 = Ok [sample_row m1000].
Proof. split; vm_compute; reflexivity. Qed.

(** C5 on the code. The branch without [session_only] hands its rows over
    latest first, for every store. With matches stored at 10:00 and 11:00 it
    returns 11:00 before 10:00, while the session branch returns the same
    two matches earliest first; [report], whose session has fewer than three
    matches here, asks for the last 20 and passes them to the charts as
    they come. *)
Theorem recent_matches_latest_first :
  let w := world_of (sample_store [m1000; m1100]) in
  (forall fromisoformat count w w' rows,
     get_recent_match_data fromisoformat count false w = (w', Ok rows) ->
     descending r_start_time rows)
  /\ get_recent_match_data fromisoformat_utc 20 false w
  = (w, Ok [sample_row m1100; sample_row m1000])
  /\ ~ ascending r_start_time [sample_row m1100; sample_row m1000]
  /\ get_recent_match_data fromisoformat_utc 10 true w
     = (w, Ok [sample_row m1000; sample_row m1100])
  /\ report fromisoformat_utc w
     = (ctx_send "Generating report..." ;;;
        ctx_send "⚠️ Your current session has fewer than 3 matches. Generating report for the last 20 matches instead." ;;;
        create_dm ;;;
        send_plots (Dicts [sample_row m1100; sample_row m1000]) ;;;
        ctx_send "Report sent!") w.
Proof.
  split_and!.
  - apply recent_rows_descending.
  - vm_compute. reflexivity.
  - intros Hasc. apply StronglySorted_inv in Hasc as [_ Hall].
    apply Forall_inv in Hall. vm_compute in Hall. discriminate.
  - vm_compute. reflexivity.
  - vm_compute. reflexivity.
Qed.

(** C2 on the code. [get_new_matches] never answers [False], the value
    its caller takes for a rejected token. When the match-list call is
    refused with 401, it answers the empty list, as it does when the remote
    has no matches, and the run ends as a run without news: the task stays
    alive and the user is told nothing. *)
Theorem rejected_token_on_list_looks_like_no_news :
  (forall R old token, get_new_matches R old token <> Ok PyFalse)
  /\ get_match_list remote_list_401 "token" 5 = Raise InvalidTokenError
  /\ get_new_matches remote_list_401 "" "token" = Ok (Py [])
  /\ get_new_matches remote_no_matches "" "token" = Ok (Py [])
  /\ check_for_new_matches remote_list_401 "token" (world_of empty_store)
     = (world_of empty_store, Ok tt)
  /\ check_new_games_loop remote_list_401 "token" (world_of empty_store)
     = world_of empty_store
  /\ scraper_task (world_of empty_store) = Running.
Proof.
  split; [apply get_new_matches_never_False|].
  split_and!; vm_compute; reflexivity.
Qed.

(** The stats call of the first match of the delta fails with 503: the
    run goes on and saves the match after it. *)
Lemma transient_stats_counterexample :
  transient (skill_endpoint remote_stats_503 "token" "m1100")
  /\ get_new_matches remote_stats_503 "" "token" = Ok (Py [m1100; m1030])
  /\ check_for_new_matches remote_stats_503 "token" (world_of empty_store)
     = (set_outbox [Summary m1030 sample_stats None None] (world_of (sample_store [m1030])),
        Ok tt)
  /\ matches (sample_store [m1030]) !! "m1030" = Some (match_row_of m1030)
  /\ db (check_for_new_matches remote_stats_503 "token" (world_of empty_store)).1
     <> db (world_of empty_store).
Proof.
  split_and!.
  - vm_compute. discriminate.
  - vm_compute. reflexivity.
  - vm_compute. reflexivity.
  - vm_compute. reflexivity.
  - intros Hsame.
    assert (matches (db (check_for_new_matches remote_stats_503 "token"
                           (world_of empty_store)).1) !! "m1030"
            = matches (db (world_of empty_store)) !! "m1030") as Hrow
      by (by rewrite Hsame).
    vm_compute in Hrow. discriminate.
Qed.

Lemma transient_failures_witness :
  _process_new_match remote_stats_503 "token" m1100 (world_of empty_store)
  = (world_of empty_store, Ok tt)
  /\ for_each (_process_new_match remote_stats_503 "token") [m1100; m1030]
       (world_of empty_store)
     = for_each (_process_new_match remote_stats_503 "token") [m1030]
         (world_of empty_store).
Proof.
  apply (proj1 (proj2 (transient_failures remote_stats_503 "token"))).
  vm_compute. discriminate.
Defined.

Lemma chart_files_removed_after_sending_witness :
  files (report fromisoformat_utc (world_of (sample_store [m1000]))).1
    ⊆ files (world_of (sample_store [m1000]))
  /\ forall p,
       Attachment p
         ∈ outbox (report fromisoformat_utc (world_of (sample_store [m1000]))).1 ->
       Attachment p ∈ outbox (world_of (sample_store [m1000]))
       \/ p ∉ files (report fromisoformat_utc (world_of (sample_store [m1000]))).1.
Proof.
  apply (chart_files_removed_after_sending fromisoformat_utc
           (world_of (sample_store [m1000]))
           (report fromisoformat_utc (world_of (sample_store [m1000]))).1
           (report fromisoformat_utc (world_of (sample_store [m1000]))).2).
  - intros b Hb. by apply elem_of_nil in Hb.
  - right. apply surjective_pairing.
Defined.

Example report_sends_three_charts :
  report fromisoformat_utc (world_of (sample_store [m1000]))
  = (set_outbox [Reply "Generating report..."; Reply "⚠️ Your current session has fewer than 3 matches. Generating report for the last 20 matches instead.";
                 Attachment "./plots/csr_trend.png"; Attachment "./plots/kd_plot.png";
                 Attachment "./plots/kd_ratio_plot.png"; Reply "Report sent!"]
       (world_of (sample_store [m1000])),
     Ok tt).
Proof. vm_compute. reflexivity. Qed.

(** The handler of the end of a session hands [sqlite3.Row] objects to the
    generators: the first returns no path, the second raises, and no chart
    is written or sent. *)
Example session_end_sends_no_chart :
  handle_halo_stopped fromisoformat_utc (world_of (sample_store [m1000]))
  = (set_scraper_task NoTask (set_was_playing false (world_of (sample_store [m1000]))),
     Raise ValueError).
Proof. vm_compute. reflexivity. Qed.

(** The first chart of [report] cannot be sent: the command raises, and the
    chart it had just written stays in the plot directory. *)
Lemma chart_file_left_counterexample :
  files world_failing_upload = ∅
  /\ (report fromisoformat_utc world_failing_upload).2 = Raise DiscordError
  /\ files (report fromisoformat_utc world_failing_upload).1
     = {["./plots/csr_trend.png"]}
  /\ ~ files (report fromisoformat_utc world_failing_upload).1
       ⊆ files world_failing_upload.
Proof.
  split_and!; try (vm_compute; reflexivity).
  intros Hsub.
  assert ("./plots/csr_trend.png" ∈ files world_failing_upload) as Hin.
  { apply Hsub. by_decide. }
  revert Hin. apply (bool_decide_eq_false_1 _). vm_compute. reflexivity.
Qed.

(** * Further properties *)

(** ** Saving, once more *)

Lemma save_match_data_healthy_raise m s e w :
  disk w = [] ->
  value_0_result s = Raise e ->
  save_match_data m s w = (w, Raise e).
Proof.
  intros Hdisk Hres. unfold save_match_data.
  apply with_connection_raise.
  unfold _save_match_info. erewrite bind_run by (by apply execute_healthy).
  unfold _save_stats, value_0_result in *.
  destruct (Value s) as [[|entry entries]|] eqn:Hv.
  - injection Hres as <-. done.
  - destruct (Result entry) eqn:Hentry; [done|]. injection Hres as <-. done.
  - injection Hres as <-.
    erewrite bind_run; cycle 1.
    { unfold bind, lift. by apply execute_healthy. }
    apply bind_raise. unfold _save_team_mmrs.
    erewrite bind_run by (by apply execute_healthy).
    unfold value_0_result. rewrite Hv. done.
Qed.

Lemma written_commute c m1 res1 m2 res2 :
  MatchId m1 ≠ MatchId m2 ->
  same_rows (written (written c m1 res1) m2 res2) (written (written c m2 res2) m1 res1).
Proof.
  intros Hne. unfold written. split_and!; simpl; try done.
  - by apply insert_insert_ne.
  - by apply insert_insert_ne.
  - apply map_eq. intros [mid tid].
    rewrite !replace_team_mmrs_lookup.
    repeat case_decide; congruence.
Qed.

Lemma written_twice c m res : same_rows (written (written c m res) m res) (written c m res).
Proof. apply written_recorded, recorded_written. Qed.

Lemma rowid_of_written c m res : rowid_of (written c m res) (MatchId m) = next_rowid c.
Proof. unfold rowid_of, written. simpl. by rewrite lookup_insert_eq. Qed.

Lemma rowid_of_written_ne c m res id :
  id ≠ MatchId m -> rowid_of (written c m res) id = rowid_of c id.
Proof. intros Hne. unfold rowid_of, written. simpl. by rewrite lookup_insert_ne. Qed.

(** A save on a healthy disk that returned has written the three tables. *)
Lemma save_match_data_healthy_inv m s w w' :
  disk w = [] ->
  save_match_data m s w = (w', Ok tt) ->
  exists res, value_0_result s = Ok res /\ w' = set_db (written (db w) m res) w.
Proof.
  intros Hdisk Hrun. destruct (value_0_result s) as [res|e] eqn:Hres.
  - rewrite (save_match_data_healthy m s res w Hdisk Hres) in Hrun.
    injection Hrun as <-. by exists res.
  - rewrite (save_match_data_healthy_raise m s e w Hdisk Hres) in Hrun. discriminate.
Qed.

(** X1. A stats body in which [stats["Value"][0]["Result"]] cannot be read
    is never saved: whatever the disk does, [save_match_data] raises, and
    the store is as it was; the row that [_save_match_info] had written on
    the connection is not committed. *)
Theorem save_match_data_without_result (m : halo_match) (s : skill_response)
    (e : exn) (w : World) :
  value_0_result s = Raise e ->
  exists w' e', save_match_data m s w = (w', Raise e') /\ db w' = db w.
Proof.
  intros Hres. destruct (save_match_data m s w) as [w' r] eqn:Hrun.
  apply save_match_data_inv in Hrun
    as (wd & Hwd & [(res & Hok & _) | (e' & -> & ->)]); [congruence|].
  exists wd, e'. split; [done|]. by apply only_disk_db.
Qed.

(** X2. Saving the same match with the same stats a second time returns
    and leaves the columns of every row of every table as the first save
    left them; the [matches] row of the match is written again, under a
    rowid greater than the one it had, and the [matches] rows of the other
    matches keep theirs. *)
Theorem save_match_data_twice (m : halo_match) (s : skill_response) (w w1 : World) :
  disk w = [] ->
  save_match_data m s w = (w1, Ok tt) ->
  exists w2,
    save_match_data m s w1 = (w2, Ok tt)
    /\ same_rows (db w2) (db w1)
    /\ (rowid_of (db w1) (MatchId m) < rowid_of (db w2) (MatchId m))%nat
    /\ forall id, id <> MatchId m -> rowid_of (db w2) id = rowid_of (db w1) id.
Proof.
  intros Hdisk Hrun.
  apply save_match_data_healthy_inv in Hrun as (res & Hres & ->); [|done].
  exists (set_db (written (written (db w) m res) m res) (set_db (written (db w) m res) w)).
  split_and!.
  - by rewrite (save_match_data_healthy m s res).
  - apply written_twice.
  - simpl. rewrite (rowid_of_written (written (db w) m res)). apply next_rowid_fresh.
  - intros id Hne. simpl. by apply rowid_of_written_ne.
Qed.

(** X3. Saving two matches with different ids leaves the same rows in every
    table in either order. The order shows in the rowids: in [matches], the
    match saved second has the greater one. *)
Theorem save_match_data_commute (m1 m2 : halo_match) (s1 s2 : skill_response)
    (w wa wb : World) :
  disk w = [] ->
  MatchId m1 <> MatchId m2 ->
  (save_match_data m1 s1 ;;; save_match_data m2 s2) w = (wa, Ok tt) ->
  (save_match_data m2 s2 ;;; save_match_data m1 s1) w = (wb, Ok tt) ->
  same_rows (db wa) (db wb)
  /\ (rowid_of (db wa) (MatchId m1) < rowid_of (db wa) (MatchId m2))%nat
  /\ (rowid_of (db wb) (MatchId m2) < rowid_of (db wb) (MatchId m1))%nat.
Proof.
  intros Hdisk Hne Ha Hb.
  apply bind_Ok in Ha as (wa1 & [] & Ha1 & Ha2).
  apply bind_Ok in Hb as (wb1 & [] & Hb1 & Hb2).
  apply save_match_data_healthy_inv in Ha1 as (res1 & Hres1 & ->); [|done].
  apply save_match_data_healthy_inv in Hb1 as (res2 & Hres2 & ->); [|done].
  apply save_match_data_healthy_inv in Ha2 as (res2' & Hres2' & ->); [|done].
  apply save_match_data_healthy_inv in Hb2 as (res1' & Hres1' & ->); [|done].
  assert (res1' = res1) as -> by congruence.
  assert (res2' = res2) as -> by congruence.
  simpl. split_and!.
  - by apply written_commute.
  - rewrite rowid_of_written, rowid_of_written_ne by done. apply next_rowid_fresh.
  - rewrite rowid_of_written, rowid_of_written_ne by done. apply next_rowid_fresh.
Qed.

(** X4. However [save_match_data] ends, the rows of every other match and
    both asset tables are as they were. *)
Theorem save_match_data_frame (m : halo_match) (s : skill_response) (w : World) :
  let c' := db (save_match_data m s w).1 in
  (forall id, id <> MatchId m ->
     matches c' !! id = matches (db w) !! id
     /\ stats c' !! id = stats (db w) !! id
     /\ forall tid, team_mmrs c' !! (id, tid) = team_mmrs (db w) !! (id, tid))
  /\ maps c' = maps (db w)
  /\ Modes c' = Modes (db w).
Proof.
  destruct (save_match_data m s w) as [w' r] eqn:Hrun. simpl.
  apply save_match_data_inv in Hrun as (wd & Hwd & [(res & _ & _ & ->) | (e & _ & ->)]).
  - simpl. split_and!; try done.
    intros id Hid. split_and!.
    + by rewrite lookup_insert_ne.
    + by rewrite lookup_insert_ne.
    + intros tid. rewrite replace_team_mmrs_lookup. by case_decide.
  - rewrite (only_disk_db _ _ Hwd). done.
Qed.

(** X5. What [Get_Latest_Match] returns: [None] only for an empty
    [matches] table, otherwise the id and start time of a stored row that
    no stored row is later than; the store is left as it was. *)
Theorem Get_Latest_Match_is_latest (w w' : World) (latest : option latest_match) :
  Get_Latest_Match w = (w', Ok latest) ->
  db w' = db w
  /\ match latest with
     | None => matches (db w) = ∅
     | Some l =>
       exists row,
         matches (db w) !! latest_MatchId l = Some row
         /\ latest_StartTime l = start_time row
         /\ forall id' row', matches (db w) !! id' = Some row' ->
              String.leb (start_time row') (start_time row) = true
     end.
Proof.
  intros Hrun. apply Get_Latest_Match_inv in Hrun as [Hw [Hr | Hr]]; [|discriminate].
  injection Hr as ->. split; [by apply only_disk_db|].
  destruct (latest_of (db w)) as [l|] eqn:Hl.
  - by apply latest_of_Some.
  - apply map_empty. intros id. by apply latest_of_None.
Qed.

(** ** What a computation may touch *)

Lemma stable_lift {A} I (x : result A) : stable I (lift x).
Proof. intros w w' r HI Hrun. by injection Hrun as <- _. Qed.

Lemma stable_raise {A} I (e : exn) : stable I (raise (A := A) e).
Proof. intros w w' r HI Hrun. by injection Hrun as <- _. Qed.

Lemma stable_try_except {A} I (c : M A) (h : exn -> M A) :
  stable I c -> (forall e, stable I (h e)) -> stable I (try_except c h).
Proof.
  intros Hc Hh w w' r HI Hrun. unfold try_except in Hrun.
  destruct (c w) as [w1 [a|e]] eqn:Hcw.
  - injection Hrun as <- _. by eapply Hc.
  - eapply Hh; [|exact Hrun]. by eapply Hc.
Qed.

Lemma stable_for_each {A} I (body : A -> M unit) (l : list A) :
  (forall x, x ∈ l -> stable I (body x)) -> stable I (for_each body l).
Proof.
  induction l as [|x l IH]; intros Hbody; simpl.
  - apply stable_ret.
  - apply stable_bind.
    + apply Hbody. by left.
    + intros _. apply IH. intros y Hy. apply Hbody. by right.
Qed.

Section Footprint.

(** An invariant that does not look at the disk, the Discord schedule or
    the plot directory, that survives the two writes to the store, and
    that admits the notices [sendable] into the outbox. *)
Variable I : World -> Prop.
Variable sendable : notice -> Prop.
Hypothesis I_disk : forall w d, I w -> I (set_disk d w).
Hypothesis I_written :
  forall w m res, I w -> I (set_db (written (db w) m res) w).
Hypothesis I_store_asset :
  forall w t asset_id version_id a,
    I w -> I (set_db (store_asset t asset_id version_id a (db w)) w).
Hypothesis I_net : forall w n, I w -> I (set_net n w).
Hypothesis I_outbox :
  forall w sent, I w -> Forall sendable sent -> I (set_outbox (outbox w ++ sent) w).
Hypothesis I_files : forall w f, I w -> I (set_files f w).
Hypothesis I_task : forall w t, I w -> I (set_scraper_task t w).
Hypothesis I_playing : forall w b, I w -> I (set_was_playing b w).

Lemma save_match_data_keeps m s : stable I (save_match_data m s).
Proof.
  intros w w' r HI Hrun.
  apply save_match_data_inv in Hrun
    as (wd & [d ->] & [(res & _ & _ & ->) | (e & _ & ->)]).
  - apply (I_written (set_disk d w)). by apply I_disk.
  - by apply I_disk.
Qed.

Lemma Get_Latest_Match_keeps : stable I Get_Latest_Match.
Proof.
  apply stable_only_disk; [exact I_disk|].
  intros w w' r Hrun. by apply Get_Latest_Match_inv in Hrun as [? _].
Qed.

Lemma init_db_keeps : stable I init_db.
Proof. apply stable_only_disk; [exact I_disk | apply init_db_inv]. Qed.

Lemma get_recent_match_data_keeps fromisoformat count session_only :
  stable I (get_recent_match_data fromisoformat count session_only).
Proof.
  apply stable_only_disk; [exact I_disk|].
  intros w w' r Hrun. by apply get_recent_match_data_inv in Hrun as [? _].
Qed.

Lemma _get_or_fetch_asset_data_keeps R token t asset_id version_id :
  stable I (_get_or_fetch_asset_data R token t asset_id version_id).
Proof.
  intros w w' r HI Hrun.
  apply _get_or_fetch_asset_data_inv in Hrun
    as (wd & [d ->] & [[-> _] | (a & _ & _ & ->)]).
  - by apply I_disk.
  - apply (I_store_asset (set_disk d w)). by apply I_disk.
Qed.

Lemma discord_keeps sent : Forall sendable sent -> stable I (discord sent).
Proof.
  intros Hsent w w' r HI Hrun. unfold discord in Hrun.
  destruct (net w) as [|[] n]; injection Hrun as <- _.
  - by apply I_outbox.
  - by apply I_net.
  - apply (I_outbox (set_net n w)); [by apply I_net | done].
Qed.

Lemma create_dm_keeps : stable I create_dm.
Proof. apply discord_keeps. constructor. Qed.

Lemma dm_send_keeps body : sendable (Text body) -> stable I (dm_send body).
Proof. intros Hs. apply discord_keeps. by repeat constructor. Qed.

Lemma ctx_send_keeps body : sendable (Reply body) -> stable I (ctx_send body).
Proof. intros Hs. apply discord_keeps. by repeat constructor. Qed.

Lemma send_match_summary_report_keeps m s mode_data map_data :
  sendable (Summary m s mode_data map_data) ->
  stable I (send_match_summary_report m s mode_data map_data).
Proof.
  intros Hs. apply stable_try_except.
  - apply stable_bind; [apply create_dm_keeps|].
    intros _. apply discord_keeps. by repeat constructor.
  - intros _. apply stable_ret.
Qed.

Lemma send_startup_dm_keeps :
  (forall body, sendable (Text body)) -> stable I send_startup_dm.
Proof.
  intros Hs. apply stable_try_except.
  - apply stable_bind; [apply create_dm_keeps|].
    intros _. by apply dm_send_keeps.
  - intros _. apply stable_ret.
Qed.

Lemma _check_db_vs_server_matches_keeps R token fromisoformat :
  (forall body, sendable (Text body)) ->
  stable I (_check_db_vs_server_matches R token fromisoformat).
Proof.
  intros Hs. unfold _check_db_vs_server_matches.
  apply stable_bind; [apply Get_Latest_Match_keeps|]. intros db_latest.
  apply stable_bind; [apply stable_lift|]. intros server_matches.
  apply stable_bind; [apply create_dm_keeps|]. intros _.
  destruct db_latest as [db_latest|], (server_latest server_matches) as [server|];
    try by apply dm_send_keeps.
  destruct (String.eqb _ _); [by apply dm_send_keeps|].
  apply stable_bind; [apply stable_lift|]. intros db_start_time.
  apply stable_bind; [apply stable_lift|]. intros server_start_time.
  destruct (_ <? _); by apply dm_send_keeps.
Qed.

Lemma _process_new_match_keeps R token m :
  (forall s mode_data map_data,
     get_match_stats R (MatchId m) token = Ok (Py s) ->
     sendable (Summary m s mode_data map_data)) ->
  stable I (_process_new_match R token m).
Proof.
  intros Hs w w' r HI Hrun. unfold _process_new_match in Hrun.
  destruct (get_match_stats R (MatchId m) token) as [v|e] eqn:Hstats.
  - destruct (get_match_stats_inv _ _ _ _ Hstats) as [-> | (s & -> & Hrecap)].
    + by injection Hrun as <- _.
    + apply has_rank_recap_result in Hrecap as [Htruthy _].
      unfold bind at 1, lift at 1 in Hrun. rewrite Htruthy in Hrun.
      assert (stable I (
        save_match_data m s ;;;
        let! mode_data := _get_or_fetch_asset_data R token Modes_table
                            (AssetId (UgcGameVariant (MatchInfo m)))
                            (VersionId (UgcGameVariant (MatchInfo m))) in
        let! map_data := _get_or_fetch_asset_data R token maps_table
                           (AssetId (MapVariant (MatchInfo m)))
                           (VersionId (MapVariant (MatchInfo m))) in
        send_match_summary_report m s mode_data map_data)) as Hstable.
      { apply stable_bind; [apply save_match_data_keeps|]. intros _.
        apply stable_bind; [apply _get_or_fetch_asset_data_keeps|]. intros mode_data.
        apply stable_bind; [apply _get_or_fetch_asset_data_keeps|]. intros map_data.
        apply send_match_summary_report_keeps. by apply Hs. }
      exact (Hstable w w' r HI Hrun).
  - by injection Hrun as <- _.
Qed.

Lemma process_delta_keeps R token (delta : list halo_match) :
  (forall m s mode_data map_data,
     m ∈ delta ->
     get_match_stats R (MatchId m) token = Ok (Py s) ->
     sendable (Summary m s mode_data map_data)) ->
  stable I (for_each (_process_new_match R token) delta).
Proof.
  intros Hs. apply stable_for_each. intros m Hm.
  apply _process_new_match_keeps. intros s mode_data map_data. by apply Hs.
Qed.

Lemma check_for_new_matches_keeps R token :
  (forall m s mode_data map_data, sendable (Summary m s mode_data map_data)) ->
  stable I (check_for_new_matches R token).
Proof.
  intros Hs w w' r HI Hrun.
  apply check_for_new_matches_inv in Hrun as [[[d ->] _] | (w1 & [d ->] & Hrun)].
  - by apply I_disk.
  - eapply process_delta_keeps; [| |exact Hrun].
    + intros m s mode_data map_data _ _. apply Hs.
    + by apply I_disk.
Qed.

Lemma refresh_keeps R token :
  (forall n, sendable n) -> stable I (refresh R token).
Proof.
  intros Hs. unfold refresh.
  apply stable_bind; [by apply ctx_send_keeps|]. intros _.
  apply stable_bind; [apply check_for_new_matches_keeps; intros; apply Hs|]. intros _.
  by apply ctx_send_keeps.
Qed.

Lemma savefig_keeps filepath : stable I (savefig filepath).
Proof. intros w w' r HI Hrun. injection Hrun as <- _. by apply I_files. Qed.

Lemma os_remove_keeps path : stable I (os_remove path).
Proof.
  intros w w' r HI Hrun. unfold os_remove in Hrun.
  case_bool_decide; injection Hrun as <- _; [by apply I_files | done].
Qed.

Lemma dm_send_file_keeps path :
  sendable (Attachment path) -> stable I (dm_send_file path).
Proof.
  intros Hs. unfold dm_send_file. apply stable_bind.
  - intros w w' r HI Hrun. by injection Hrun as <- _.
  - intros [|]; [|apply stable_raise]. apply discord_keeps. by repeat constructor.
Qed.

Lemma generator_keeps (generate : M (option string)) :
  renders generate -> stable I generate.
Proof.
  intros Hg w w' r HI Hrun.
  destruct (Hg w w' r Hrun) as [[_ ->] | (p & _ & ->)]; [done | by apply I_files].
Qed.

Lemma send_plot_keeps generate data :
  (forall n, sendable n) ->
  renders (generate data) -> stable I (send_plot generate data).
Proof.
  intros Hs Hg. unfold send_plot.
  apply stable_bind; [by apply generator_keeps|].
  intros [path|]; [|apply stable_ret].
  apply stable_bind; [by apply dm_send_file_keeps|]. intros _. apply os_remove_keeps.
Qed.

Lemma send_plots_keeps data : (forall n, sendable n) -> stable I (send_plots data).
Proof.
  intros Hs. unfold send_plots.
  apply stable_bind; [apply send_plot_keeps; [done | apply renders_csr_trend]|]. intros _.
  apply stable_bind; [apply send_plot_keeps; [done | apply renders_kd]|]. intros _.
  apply send_plot_keeps; [done | apply renders_kd_ratio].
Qed.

Lemma report_keeps fromisoformat : (forall n, sendable n) -> stable I (report fromisoformat).
Proof.
  intros Hs. unfold report.
  apply stable_bind; [by apply ctx_send_keeps|]. intros _.
  apply stable_bind; [apply get_recent_match_data_keeps|]. intros raw.
  apply stable_bind.
  - destruct (_ <? _); [|apply stable_ret].
    apply stable_bind; [by apply ctx_send_keeps|]. intros _.
    apply get_recent_match_data_keeps.
  - intros [|row rows]; [by apply ctx_send_keeps|].
    apply stable_bind; [apply create_dm_keeps|]. intros _.
    apply stable_bind; [by apply send_plots_keeps|]. intros _.
    by apply ctx_send_keeps.
Qed.

Lemma session_end_charts_keeps fromisoformat :
  (forall n, sendable n) ->
  stable I (let! recent_matches := get_recent_match_data fromisoformat 10 false in
            match recent_matches with
            | [] => ret tt
            | _ => create_dm ;;; send_plots (Rows recent_matches)
            end).
Proof.
  intros Hs.
  apply stable_bind; [apply get_recent_match_data_keeps|].
  intros [|row rows]; [apply stable_ret|].
  apply stable_bind; [apply create_dm_keeps|]. intros _. by apply send_plots_keeps.
Qed.

Lemma startup_checks_keep R token fromisoformat :
  (forall n, sendable n) ->
  stable I (init_db ;;; send_startup_dm ;;;
            _check_db_vs_server_matches R token fromisoformat).
Proof.
  intros Hs.
  apply stable_bind; [apply init_db_keeps|]. intros _.
  apply stable_bind; [by apply send_startup_dm_keeps|]. intros _.
  by apply _check_db_vs_server_matches_keeps.
Qed.

Lemma start_scraper_keeps : stable I start_scraper.
Proof.
  intros w w' r HI Hrun. unfold start_scraper in Hrun.
  destruct (scraper_task w); injection Hrun as <- _; try done; by apply I_task.
Qed.

Lemma stop_scraper_keeps : stable I stop_scraper.
Proof.
  intros w w' r HI Hrun. unfold stop_scraper in Hrun.
  destruct (scraper_task w); injection Hrun as <- _; try done; by apply I_task.
Qed.

Lemma handle_halo_started_keeps : stable I handle_halo_started.
Proof.
  apply stable_bind; [|intros _; apply start_scraper_keeps].
  intros w w' r HI Hrun. injection Hrun as <- _. by apply I_playing.
Qed.

Lemma handle_halo_stopped_keeps fromisoformat :
  (forall n, sendable n) -> stable I (handle_halo_stopped fromisoformat).
Proof.
  intros Hs. unfold handle_halo_stopped.
  apply stable_bind.
  { intros w w' r HI Hrun. injection Hrun as <- _. by apply I_playing. }
  intros _. apply stable_bind; [apply stop_scraper_keeps|]. intros _.
  by apply session_end_charts_keeps.
Qed.

Lemma on_presence_update_keeps USER_ID fromisoformat after_id activities :
  (forall n, sendable n) ->
  stable I (on_presence_update USER_ID fromisoformat after_id activities).
Proof.
  intros Hs w w' r HI Hrun. unfold on_presence_update in Hrun.
  destruct (negb _); [by injection Hrun as <- _|].
  destruct (_ && _).
  - by eapply handle_halo_started_keeps.
  - destruct (_ && _); [|by injection Hrun as <- _].
    by eapply handle_halo_stopped_keeps.
Qed.

Lemma on_ready_keeps R token fromisoformat guild :
  (forall n, sendable n) -> stable I (on_ready R token fromisoformat guild).
Proof.
  intros Hs. unfold on_ready. apply stable_bind.
  - destruct guild as [member|]; [|apply stable_ret].
    apply stable_bind; [apply discord_keeps; constructor|]. intros _.
    destruct member as [activities|]; [|apply stable_ret].
    destruct (existsb _ _); [apply handle_halo_started_keeps | apply stable_ret].
  - intros _. by apply startup_checks_keep.
Qed.

Lemma check_new_games_loop_keeps R token w :
  (forall n, sendable n) -> I w -> I (check_new_games_loop R token w).
Proof.
  intros Hs HI. unfold check_new_games_loop.
  destruct (scraper_task w); try done.
  destruct (check_for_new_matches R token w) as [w' [u|e]] eqn:Hrun.
  - eapply check_for_new_matches_keeps; [|exact HI|exact Hrun]. intros; apply Hs.
  - apply I_task. eapply check_for_new_matches_keeps; [|exact HI|exact Hrun].
    intros; apply Hs.
Qed.

Lemma react_keeps R token USER_ID fromisoformat ev w :
  (forall n, sendable n) -> I w -> I (react R token USER_ID fromisoformat ev w).
Proof.
  intros Hs HI. destruct ev as [guild|after_id activities| | |]; simpl.
  - destruct (on_ready _ _ _ _ _) as [w' r] eqn:Hrun.
    by eapply on_ready_keeps.
  - destruct (on_presence_update _ _ _ _ _) as [w' r] eqn:Hrun.
    by eapply on_presence_update_keeps.
  - by apply check_new_games_loop_keeps.
  - destruct (refresh _ _ _) as [w' r] eqn:Hrun. by eapply refresh_keeps.
  - destruct (report _ _) as [w' r] eqn:Hrun. by eapply report_keeps.
Qed.

End Footprint.

(** ** The store along the life of the bot *)

Lemma rows_paired_written c m res : rows_paired c -> rows_paired (written c m res).
Proof.
  intros [Hpair Hteams]. split.
  - intros match_id. simpl. rewrite !lookup_insert_is_Some.
    specialize (Hpair match_id). tauto.
  - intros match_id tid. simpl. rewrite replace_team_mmrs_lookup, lookup_insert_is_Some.
    case_decide as Hid; [by left|].
    intros Hrow. right. split; [done|]. by eapply Hteams.
Qed.

Lemma rows_paired_store_asset t asset_id version_id a c :
  rows_paired c -> rows_paired (store_asset t asset_id version_id a c).
Proof. by destruct t. Qed.

Lemma rows_paired_empty : rows_paired empty_store.
Proof.
  split.
  - intros match_id. simpl. rewrite !lookup_empty. split; by intros [? ?].
  - intros match_id tid. simpl. rewrite lookup_empty. by intros [? ?].
Qed.

(** X6. Whatever events the bot reacts to, and however their handlers end,
    the store changes only by the writes of [save_match_data] and by asset
    rows being stored: a property of the store that these two writes keep
    holds after any sequence of events. *)
Theorem store_changes_only_by_saves_and_assets (P : Store -> Prop)
    (R : Remote) (token : string) (USER_ID : Z) (fromisoformat : string -> option Z)
    (evs : list event) (w : World) :
  (forall c m res, P c -> P (written c m res)) ->
  (forall c t asset_id version_id a, P c -> P (store_asset t asset_id version_id a c)) ->
  P (db w) ->
  P (db (foldl (fun w ev => react R token USER_ID fromisoformat ev w) w evs)).
Proof.
  intros Hwritten Hasset. revert w.
  induction evs as [|ev evs IH]; intros w HP; simpl; [done|].
  apply IH.
  apply (react_keeps (fun w => P (db w)) (fun _ => True)); try done.
  - intros w0 m res. apply Hwritten.
  - intros w0 t asset_id version_id a. apply Hasset.
Qed.

(** X7. In every store that the bot reaches from a store where it holds,
    the matches with a row in [matches] are those with a row in [stats],
    and every row of [team_mmrs] belongs to a stored match. *)
Theorem matches_and_stats_stay_paired
    (R : Remote) (token : string) (USER_ID : Z) (fromisoformat : string -> option Z)
    (evs : list event) (w : World) :
  rows_paired (db w) ->
  rows_paired (db (foldl (fun w ev => react R token USER_ID fromisoformat ev w) w evs)).
Proof.
  revert w. induction evs as [|ev evs IH]; intros w Hpaired; simpl; [done|].
  apply IH.
  apply (react_keeps (fun w => rows_paired (db w)) (fun _ => True)); try done.
  - intros w0 m res. apply rows_paired_written.
  - intros w0 t asset_id version_id a. apply rows_paired_store_asset.
Qed.

(** ** The polling task *)

Lemma stop_scraper_stops w :
  exists w', stop_scraper w = (w', Ok tt)
    /\ scraper_task w' <> Running /\ was_playing w' = was_playing w.
Proof.
  unfold stop_scraper. destruct (scraper_task w) eqn:Ht; eexists; split_and!;
    try reflexivity; simpl; congruence.
Qed.

Lemma handle_halo_started_starts w :
  exists w', handle_halo_started w = (w', Ok tt)
    /\ scraper_task w' = Running /\ was_playing w' = true.
Proof.
  unfold handle_halo_started, bind, start_scraper. simpl.
  destruct (scraper_task w) eqn:Ht; eexists; split_and!; try reflexivity; done.
Qed.

Lemma handle_halo_stopped_stops fromisoformat w w' r :
  handle_halo_stopped fromisoformat w = (w', r) ->
  scraper_task w' <> Running /\ was_playing w' = false.
Proof.
  unfold handle_halo_stopped. unfold bind at 1.
  destruct (stop_scraper_stops (set_was_playing false w)) as (w1 & Hstop & Htask & Hplaying).
  erewrite bind_run by exact Hstop. intros Hrun.
  by eapply (session_end_charts_keeps
               (fun w => scraper_task w <> Running /\ was_playing w = false)
               (fun _ => True)); [..|exact Hrun].
Qed.

Lemma on_presence_update_polls USER_ID fromisoformat after_id activities w w' r :
  polls_only_while_playing w ->
  on_presence_update USER_ID fromisoformat after_id activities w = (w', r) ->
  polls_only_while_playing w'.
Proof.
  intros HI Hrun. unfold on_presence_update in Hrun.
  destruct (negb _); [by injection Hrun as <- _|].
  destruct (_ && _).
  - destruct (handle_halo_started_starts w) as (w1 & Hrun1 & _ & Hplaying).
    rewrite Hrun1 in Hrun. injection Hrun as <- _. by intros _.
  - destruct (_ && _); [|by injection Hrun as <- _].
    apply handle_halo_stopped_stops in Hrun as [Htask _]. by intros ?.
Qed.

Lemma on_ready_polls R token fromisoformat guild w w' r :
  polls_only_while_playing w ->
  on_ready R token fromisoformat guild w = (w', r) ->
  polls_only_while_playing w'.
Proof.
  revert w w' r. change (stable polls_only_while_playing
                           (on_ready R token fromisoformat guild)).
  unfold on_ready. apply stable_bind.
  - destruct guild as [member|]; [|apply stable_ret].
    apply stable_bind; [by apply (discord_keeps _ (fun _ => True)); try constructor|].
    intros _. destruct member as [activities|]; [|apply stable_ret].
    destruct (existsb _ _); [|apply stable_ret].
    intros w w' r _ Hrun.
    destruct (handle_halo_started_starts w) as (w1 & Hrun1 & _ & Hplaying).
    rewrite Hrun1 in Hrun. injection Hrun as <- _. by intros _.
  - intros _. by apply (startup_checks_keep _ (fun _ => True)).
Qed.

Lemma check_new_games_loop_polls R token w :
  polls_only_while_playing w -> polls_only_while_playing (check_new_games_loop R token w).
Proof.
  intros HI. unfold check_new_games_loop.
  destruct (scraper_task w) eqn:Htask; try done.
  destruct (check_for_new_matches R token w) as [w' [u|e]] eqn:Hrun.
  - by eapply (check_for_new_matches_keeps _ (fun _ => True)); [..|exact Hrun].
  - by intros ?.
Qed.

(** X8. The polling task is alive only while the user is taken to be
    playing Halo Infinite: from the state of [__init__], or from any state
    where this holds, it holds after every sequence of events. *)
Theorem polling_task_only_while_playing
    (R : Remote) (token : string) (USER_ID : Z) (fromisoformat : string -> option Z)
    (evs : list event) (w : World) :
  polls_only_while_playing w ->
  polls_only_while_playing
    (foldl (fun w ev => react R token USER_ID fromisoformat ev w) w evs).
Proof.
  revert w. induction evs as [|ev evs IH]; intros w HI; simpl; [done|].
  apply IH. destruct ev as [guild|after_id activities| | |]; simpl.
  - destruct (on_ready _ _ _ _ _) as [w' r] eqn:Hrun. by eapply on_ready_polls.
  - destruct (on_presence_update _ _ _ _ _) as [w' r] eqn:Hrun.
    by eapply on_presence_update_polls.
  - by apply check_new_games_loop_polls.
  - destruct (refresh _ _ _) as [w' r] eqn:Hrun.
    by eapply (refresh_keeps _ (fun _ => True)); [..|exact Hrun].
  - destruct (report _ _) as [w' r] eqn:Hrun.
    by eapply (report_keeps _ (fun _ => True)); [..|exact Hrun].
Qed.

(** X9. [on_presence_update] ignores every member but the watched one. For
    the watched member, [was_playing] is afterwards whether Halo Infinite
    is among the activities, however the handler ends; a change to playing
    leaves the polling task running, a change to not playing leaves it not
    running, and an update without a change does nothing. So the same
    update, delivered a second time, does nothing. *)
Theorem presence_is_tracked (USER_ID : Z) (fromisoformat : string -> option Z)
    (after_id : Z) (activities : list string) (w : World) :
  let is_playing_halo := existsb (String.eqb "Halo Infinite") activities in
  let w' := (on_presence_update USER_ID fromisoformat after_id activities w).1 in
  (if after_id =? USER_ID then
     was_playing w' = is_playing_halo
     /\ (is_playing_halo = true -> was_playing w = false -> scraper_task w' = Running)
     /\ (is_playing_halo = false -> was_playing w = true -> scraper_task w' <> Running)
     /\ (is_playing_halo = was_playing w -> w' = w)
   else w' = w)
  /\ on_presence_update USER_ID fromisoformat after_id activities w' = (w', Ok tt).
Proof.
  simpl.
  assert (forall w0,
            negb (after_id =? USER_ID) = true
            \/ was_playing w0 = existsb (String.eqb "Halo Infinite") activities ->
            on_presence_update USER_ID fromisoformat after_id activities w0 = (w0, Ok tt))
    as Hsame.
  { intros w0 Hw0. unfold on_presence_update.
    destruct (negb (after_id =? USER_ID)); [done|].
    destruct Hw0 as [? | ->]; [done|]. by destruct (existsb _ activities). }
  destruct (after_id =? USER_ID) eqn:Hid; simpl.
  - assert (was_playing (on_presence_update USER_ID fromisoformat after_id activities w).1
            = existsb (String.eqb "Halo Infinite") activities
            /\ (existsb (String.eqb "Halo Infinite") activities = true ->
                was_playing w = false ->
                scraper_task
                  (on_presence_update USER_ID fromisoformat after_id activities w).1
                = Running)
            /\ (existsb (String.eqb "Halo Infinite") activities = false ->
                was_playing w = true ->
                scraper_task
                  (on_presence_update USER_ID fromisoformat after_id activities w).1
                <> Running)
            /\ (existsb (String.eqb "Halo Infinite") activities = was_playing w ->
                (on_presence_update USER_ID fromisoformat after_id activities w).1 = w))
      as Htracked.
    { unfold on_presence_update. rewrite Hid. simpl.
      destruct (existsb _ activities), (was_playing w) eqn:Hwas; simpl.
      - split_and!; done.
      - destruct (handle_halo_started_starts w) as (w1 & -> & Htask & Hplaying).
        simpl. split_and!; done.
      - destruct (handle_halo_stopped _ w) as [w' r] eqn:Hrun.
        apply handle_halo_stopped_stops in Hrun as [Htask Hplaying].
        simpl. split_and!; done.
      - split_and!; done. }
    split; [exact Htracked|].
    apply Hsame. right. apply Htracked.
  - assert ((on_presence_update USER_ID fromisoformat after_id activities w).1 = w)
      as ->.
    { rewrite Hsame; [done | by left]. }
    split; [done|]. apply Hsame. by left.
Qed.

(** X10. Once an exception leaves a run, the polling task is done: that
    turn of the loop marks it, no later turn does anything, and nothing
    but [start_scraper] brings it back. *)
Theorem polling_ends_with_the_first_exception (R : Remote) (token : string)
    (w w' : World) (e : exn) (n : nat) :
  scraper_task w = Running ->
  check_for_new_matches R token w = (w', Raise e) ->
  Nat.iter (S n) (check_new_games_loop R token) w = set_scraper_task Done w'
  /\ start_scraper (set_scraper_task Done w') = (set_scraper_task Running w', Ok tt).
Proof.
  intros Htask Hrun. split; [|done].
  rewrite Nat.iter_succ_r, (check_new_games_loop_ends R token w w' e Htask Hrun).
  induction n as [|n IH]; simpl; [done|].
  rewrite IH. by apply check_new_games_loop_done.
Qed.

(** X11. [get_match_stats] never answers [False], the value that
    [_process_new_match] takes for a rejected token. A stats call refused
    with 401 raises instead, and ends the processing of the delta there:
    the matches before it stay processed, the match itself and those after
    it are not touched, and [InvalidTokenError] leaves the run. *)
Theorem stats_401_ends_the_run (R : Remote) (token : string)
    (before after : list halo_match) (m : halo_match) (w w1 : World) :
  skill_endpoint R token (MatchId m) = Status 401 ->
  for_each (_process_new_match R token) before w = (w1, Ok tt) ->
  for_each (_process_new_match R token) (before ++ m :: after) w
  = (w1, Raise InvalidTokenError)
  /\ forall match_id, get_match_stats R match_id token <> Ok PyFalse.
Proof.
  intros H401 Hbefore. split.
  - apply stats_auth_failure_aborts; [|done].
    unfold get_match_stats. by rewrite H401.
  - intros match_id Hfalse.
    by apply get_match_stats_inv in Hfalse as [? | (? & ? & _)].
Qed.

(** ** One run, once more *)

Lemma _process_new_match_grows R token (x : halo_match) w w' r :
  _process_new_match R token x w = (w', r) ->
  grows_at [MatchId x] (db w) (db w').
Proof.
  intros Hrun.
  eapply (db_stable__process_new_match R token [MatchId x] (db w) x);
    [by left | apply grows_at_refl | exact Hrun].
Qed.

Lemma for_each_returns {A} (body : A -> M unit) (l : list A) :
  forall w w' x,
    for_each body l w = (w', Ok tt) -> x ∈ l ->
    exists w1 w2, body x w1 = (w2, Ok tt).
Proof.
  induction l as [|y l IH]; intros w w' x Hrun Hx; [by apply elem_of_nil in Hx|].
  simpl in Hrun. apply bind_Ok in Hrun as (w1 & [] & Hy & Hrest).
  apply elem_of_cons in Hx as [-> | Hx]; [by eauto | by eapply IH].
Qed.

Lemma for_each_skips R token (delta : list halo_match) (m : halo_match) :
  forall w w' r,
    NoDup (map MatchId delta) ->
    m ∈ delta ->
    get_match_stats R (MatchId m) token = Ok PyNone ->
    for_each (_process_new_match R token) delta w = (w', r) ->
    matches (db w') !! MatchId m = matches (db w) !! MatchId m
    /\ stats (db w') !! MatchId m = stats (db w) !! MatchId m
    /\ forall tid, team_mmrs (db w') !! (MatchId m, tid)
                   = team_mmrs (db w) !! (MatchId m, tid).
Proof.
  induction delta as [|x delta IH]; intros w w' r Hnd Hm Hstats Hrun.
  { by apply elem_of_nil in Hm. }
  simpl in Hnd. apply NoDup_cons in Hnd as [Hx Hnd].
  simpl in Hrun. apply elem_of_cons in Hm as [<- | Hm].
  - rewrite (bind_run _ _ _ _ _ (_process_new_match_skip R token m w Hstats)) in Hrun.
    apply for_each__process_new_match_grows in Hrun as (Hmatches & Hstat & Hteams & _).
    split_and!; [by apply Hmatches | by apply Hstat | intros tid; by apply Hteams].
  - assert (MatchId m <> MatchId x) as Hne.
    { intros Heq. apply Hx. rewrite <- Heq. by apply list_elem_of_fmap_2. }
    apply bind_inv in Hrun as [(w1 & [] & Hx1 & Hrest) | (e & Hx1 & _)].
    + destruct (IH w1 w' r Hnd Hm Hstats Hrest) as (E1 & E2 & E3).
      destruct (_process_new_match_grows _ _ _ _ _ _ Hx1) as (G1 & G2 & G3 & _).
      assert (MatchId m ∉ [MatchId x]) as Hnot
        by (apply not_elem_of_cons; split; [done | apply not_elem_of_nil]).
      split_and!.
      * by rewrite E1, G1.
      * by rewrite E2, G2.
      * intros tid. by rewrite E3, G3.
    + destruct (_process_new_match_grows _ _ _ _ _ _ Hx1) as (G1 & G2 & G3 & _).
      assert (MatchId m ∉ [MatchId x]) as Hnot
        by (apply not_elem_of_cons; split; [done | apply not_elem_of_nil]).
      split_and!; [by apply G1 | by apply G2 | intros tid; by apply G3].
Qed.

(** X12. A run changes no row of a match outside its delta, loses no
    [matches] row, and leaves every asset row that was there as it was,
    however the run ends. *)
Theorem check_for_new_matches_frame (R : Remote) (token : string) (w : World) :
  let delta := delta_from (latest_known_id (latest_of (db w))) (page_of R token) in
  let c' := db (check_for_new_matches R token w).1 in
  (forall id, id ∉ map MatchId delta ->
     matches c' !! id = matches (db w) !! id
     /\ stats c' !! id = stats (db w) !! id
     /\ forall tid, team_mmrs c' !! (id, tid) = team_mmrs (db w) !! (id, tid))
  /\ (forall id, is_Some (matches (db w) !! id) -> is_Some (matches c' !! id))
  /\ (forall t k, is_Some (asset_rows t (db w) !! k) ->
        asset_rows t c' !! k = asset_rows t (db w) !! k).
Proof.
  simpl. destruct (check_for_new_matches R token w) as [w' r] eqn:Hrun. simpl.
  apply check_for_new_matches_inv in Hrun as [[Hw _] | (w1 & Hw & Hrun)].
  - rewrite (only_disk_db _ _ Hw). split_and!; done.
  - apply for_each__process_new_match_grows in Hrun.
    rewrite (only_disk_db _ _ Hw) in Hrun.
    destruct Hrun as (G1 & G2 & G3 & G4 & G5 & _).
    split_and!; [|done..].
    intros id Hid. split_and!; [by apply G1 | by apply G2 | intros tid; by apply G3].
Qed.

(** X13. After a run that returns, every match of the delta whose stats
    were ready has its three kinds of rows in the store, and a match of the
    delta whose stats were not ready has the rows it had before. *)
Theorem check_for_new_matches_saves_what_is_ready (R : Remote) (token : string)
    (w w' : World) (m : halo_match) :
  NoDup (map MatchId (page_of R token)) ->
  check_for_new_matches R token w = (w', Ok tt) ->
  m ∈ delta_from (latest_known_id (latest_of (db w))) (page_of R token) ->
  match get_match_stats R (MatchId m) token with
  | Ok (Py s) => exists res, value_0_result s = Ok res /\ recorded (db w') m res
  | _ =>
    matches (db w') !! MatchId m = matches (db w) !! MatchId m
    /\ stats (db w') !! MatchId m = stats (db w) !! MatchId m
    /\ forall tid, team_mmrs (db w') !! (MatchId m, tid)
                   = team_mmrs (db w) !! (MatchId m, tid)
  end.
Proof.
  intros Hnd Hrun Hm.
  apply check_for_new_matches_inv in Hrun as [[_ ?] | (w1 & Hw & Hrun)]; [done|].
  pose proof (delta_from_NoDup (latest_known_id (latest_of (db w))) _ Hnd) as Hnd'.
  destruct (get_match_stats R (MatchId m) token) as [[| |s]|e] eqn:Hstats.
  - by apply get_match_stats_inv in Hstats as [? | (? & ? & _)].
  - rewrite <- (only_disk_db _ _ Hw). by eapply for_each_skips.
  - by apply (for_each_settles R token _ w1 w' Hnd' Hrun m Hm s).
  - destruct (for_each_returns _ _ _ _ _ Hrun Hm) as (wa & wb & Hok).
    by rewrite (_process_new_match_raise R token m wa e Hstats) in Hok.
Qed.

(** ** The remote client, once more *)

Lemma sublist_filter_bool {A} (p : A -> bool) (l : list A) : sublist (List.filter p l) l.
Proof.
  induction l as [|x l IH]; simpl; [constructor|].
  destruct (p x); by constructor.
Qed.

(** X14. What [get_new_matches] returns for each answer of the match-list
    call: the empty list when the call fails (HTTP 401 as any other status,
    or no response) and when the body has no ["Results"]; when the body
    carries a list of matches, that list with some entries left out, in the
    order of the page, the entry taken for the known match among those left
    out. It raises for none of these answers. *)
Theorem get_new_matches_returns_part_of_the_page (R : Remote) (old token : string) :
  match matches_endpoint R token 5 with
  | Body {| Results := Some page |} =>
    exists delta,
      get_new_matches R old token = Ok (Py delta)
      /\ sublist delta page
      /\ forall known,
           find (fun m => String.eqb (MatchId m) old) page = Some known ->
           known ∉ delta
  | Body {| Results := None |} | Status _ | NoResponse =>
    get_new_matches R old token = Ok (Py [])
  end.
Proof.
  pose proof (get_new_matches_spec R old token) as Hspec.
  unfold page_of, get_match_list, halo_request in Hspec.
  destruct (matches_endpoint R token 5) as [[[page|]]|code|]; simpl in Hspec.
  - exists (delta_from old page). split_and!; [done | |].
    + unfold delta_from. destruct (find _ _); [apply sublist_filter_bool | done].
    + intros known Hfind. unfold delta_from. rewrite Hfind.
      rewrite list_elem_of_In, filter_In, ltb_irrefl. by intros [_ ?].
  - done.
  - by destruct (code =? 401).
  - done.
Qed.

Lemma has_rank_recap_inv (s : skill_response) :
  has_rank_recap s = true ->
  exists res, value_0_result s = Ok res /\ is_Some (RankRecap res).
Proof.
  unfold has_rank_recap, value_0_result.
  destruct (Value s) as [[|entry entries]|]; try done.
  destruct (Result entry) as [res|]; [|done].
  destruct (RankRecap res) eqn:Hrecap; [|done].
  intros _. exists res. by rewrite Hrecap.
Qed.

(** X15. What [get_match_stats] hands on as stats is the body of the skill
    endpoint as it came, it is truthy, [stats["Value"][0]["Result"]] can be
    read in it, and that result carries the key ["RankRecap"]. *)
Theorem ready_stats_have_a_rank_recap (R : Remote) (token match_id : string)
    (s : skill_response) :
  get_match_stats R match_id token = Ok (Py s) ->
  skill_endpoint R token match_id = Body s
  /\ truthy s = true
  /\ exists res, value_0_result s = Ok res /\ is_Some (RankRecap res).
Proof.
  intros Hstats. unfold get_match_stats in Hstats.
  destruct (skill_endpoint R token match_id) as [body|code|]; simpl in Hstats.
  - destruct (has_rank_recap body) eqn:Hrecap; [|done].
    injection Hstats as ->. split; [done|].
    split; [by apply has_rank_recap_result in Hrecap as [? _]|].
    destruct (has_rank_recap_inv _ Hrecap) as (res & Hres & Hsome).
    by exists res.
  - by destruct (code =? 401).
  - done.
Qed.

(** ** The asset cache *)

Lemma get_asset_from_db_healthy t asset_id version_id w :
  disk w = [] ->
  get_asset_from_db t asset_id version_id w
  = (w, Ok (match asset_rows t (db w) !! (asset_id, version_id) with
            | Some a => Some {| name := PublicName a; description := Description a |}
            | None => None
            end)).
Proof.
  intros Hdisk. unfold get_asset_from_db.
  destruct (asset_rows t (db w) !! (asset_id, version_id)) as [a|] eqn:Hrow.
  - erewrite with_connection_run; cycle 1.
    { erewrite bind_run by (by apply execute_healthy). rewrite Hrow. reflexivity. }
    by destruct w.
  - erewrite with_connection_run; cycle 1.
    { erewrite bind_run by (by apply execute_healthy). rewrite Hrow. reflexivity. }
    by destruct w.
Qed.

Lemma _get_or_fetch_asset_data_healthy R token t asset_id version_id w :
  disk w = [] ->
  _get_or_fetch_asset_data R token t asset_id version_id w
  = match asset_rows t (db w) !! (asset_id, version_id) with
    | Some a =>
      (w, Ok (Some (Cached {| name := PublicName a; description := Description a |})))
    | None =>
      match fetch_ugc_asset R token (table_name t) asset_id version_id with
      | Some a =>
        (set_db (store_asset t asset_id version_id a (db w)) w, Ok (Some (Fetched a)))
      | None => (w, Ok None)
      end
    end.
Proof.
  intros Hdisk. unfold _get_or_fetch_asset_data.
  erewrite bind_run by (by apply get_asset_from_db_healthy).
  destruct (asset_rows t (db w) !! (asset_id, version_id)) as [a|]; [done|].
  destruct (fetch_ugc_asset _ _ _ _ _) as [a|]; [|done].
  unfold bind at 1, get_db_connection. unfold upsert_asset.
  erewrite bind_run by (by apply execute_healthy).
  by destruct t.
Qed.

Lemma _get_or_fetch_asset_data_Ok R token t asset_id version_id w w' x :
  _get_or_fetch_asset_data R token t asset_id version_id w = (w', Ok x) ->
  match x with
  | Some (Cached info) =>
    exists a, asset_rows t (db w) !! (asset_id, version_id) = Some a
      /\ info = {| name := PublicName a; description := Description a |}
      /\ db w' = db w
  | Some (Fetched a) =>
    asset_rows t (db w) !! (asset_id, version_id) = None
    /\ fetch_ugc_asset R token (table_name t) asset_id version_id = Some a
    /\ db w' = store_asset t asset_id version_id a (db w)
  | None =>
    asset_rows t (db w) !! (asset_id, version_id) = None
    /\ fetch_ugc_asset R token (table_name t) asset_id version_id = None
    /\ db w' = db w
  end.
Proof.
  unfold _get_or_fetch_asset_data. intros Hrun.
  apply bind_Ok in Hrun as (w1 & cached & Hget & Hrun).
  apply get_asset_from_db_inv in Hget as [Hw1 Hcached].
  specialize (Hcached cached eq_refl).
  destruct (asset_rows t (db w) !! (asset_id, version_id)) as [a0|] eqn:Hrow.
  - subst cached. injection Hrun as <- <-. exists a0. split_and!; try done.
    by apply only_disk_db.
  - subst cached.
    destruct (fetch_ugc_asset _ _ _ _ _) as [a|] eqn:Hfetch.
    + apply bind_Ok in Hrun as (w2 & conn & Hconn & Hrun).
      injection Hconn as <- <-.
      apply bind_Ok in Hrun as (w3 & conn' & Hupsert & Hrun).
      apply execute_inv in Hupsert as [[d ->] [Hconn' | ?]]; [|done].
      injection Hconn' as ->.
      injection Hrun as <- <-. split_and!; try done.
      simpl. rewrite (only_disk_db _ _ Hw1). by destruct t.
    + injection Hrun as <- <-. split_and!; try done. by apply only_disk_db.
Qed.

Lemma asset_rows_store_asset t asset_id version_id a c :
  asset_rows t (store_asset t asset_id version_id a c) !! (asset_id, version_id)
  = Some {| PublicName := PublicName a; Description := Description a |}.
Proof. destruct t; simpl; by rewrite lookup_insert_eq. Qed.

(** X16. An asset that [_get_or_fetch_asset_data] has just fetched is in
    the cache afterwards: the next lookup of it, on a disk that refuses
    nothing, returns its name and description from the table, whatever the
    remote would answer, and leaves the world as it is. *)
Theorem fetched_asset_is_cached (R R' : Remote) (token token' : string)
    (t : asset_table) (asset_id version_id : string) (a : ugc_asset) (w w1 : World) :
  _get_or_fetch_asset_data R token t asset_id version_id w
  = (w1, Ok (Some (Fetched a))) ->
  disk w1 = [] ->
  _get_or_fetch_asset_data R' token' t asset_id version_id w1
  = (w1, Ok (Some (Cached {| name := PublicName a; description := Description a |}))).
Proof.
  intros Hrun Hdisk.
  apply _get_or_fetch_asset_data_Ok in Hrun as (_ & _ & Hdb).
  rewrite _get_or_fetch_asset_data_healthy by done.
  by rewrite Hdb, asset_rows_store_asset.
Qed.

(** ** Notifications *)

Lemma send_match_summary_report_returns m s mode_data map_data w :
  exists w', send_match_summary_report m s mode_data map_data w = (w', Ok tt)
    /\ db w' = db w /\ disk w' = disk w.
Proof.
  unfold send_match_summary_report, try_except, bind, create_dm, discord, ret.
  destruct (net w) as [|[] n] eqn:Hnet; simpl; rewrite ?Hnet; eauto.
  destruct n as [|[] n]; simpl; eauto.
Qed.

Lemma recorded_store_asset t asset_id version_id a c m res :
  recorded c m res -> recorded (store_asset t asset_id version_id a c) m res.
Proof. by destruct t. Qed.

Lemma _get_or_fetch_asset_data_healthy_run R token t asset_id version_id w m res :
  disk w = [] ->
  recorded (db w) m res ->
  exists w' x,
    _get_or_fetch_asset_data R token t asset_id version_id w = (w', Ok x)
    /\ disk w' = [] /\ recorded (db w') m res.
Proof.
  intros Hdisk Hrec. rewrite _get_or_fetch_asset_data_healthy by done.
  destruct (asset_rows t (db w) !! (asset_id, version_id)) as [a|]; [by eauto|].
  destruct (fetch_ugc_asset _ _ _ _ _) as [a|]; [|by eauto].
  eexists _, _. split_and!; [done..|]. by apply recorded_store_asset.
Qed.

(** X17. Once [save_match_data] has returned for a match whose stats are
    ready, nothing that Discord does undoes it: on a disk that refuses
    nothing, [_process_new_match] returns, with the rows of the match in
    the store, for every schedule of Discord failures. *)
Theorem match_is_saved_whatever_discord_does (R : Remote) (token : string)
    (m : halo_match) (s : skill_response) (w w1 : World) :
  disk w = [] ->
  get_match_stats R (MatchId m) token = Ok (Py s) ->
  save_match_data m s w = (w1, Ok tt) ->
  exists w' res,
    _process_new_match R token m w = (w', Ok tt)
    /\ value_0_result s = Ok res
    /\ recorded (db w') m res.
Proof.
  intros Hdisk Hstats Hsave.
  destruct (get_match_stats_inv _ _ _ _ Hstats) as [? | (s' & Hs & Hrecap)]; [done|].
  injection Hs as <-.
  apply has_rank_recap_result in Hrecap as [Htruthy _].
  apply save_match_data_healthy_inv in Hsave as (res & Hres & ->); [|done].
  unfold _process_new_match. rewrite Hstats.
  unfold bind at 1, lift at 1. rewrite Htruthy.
  erewrite bind_run by (by apply save_match_data_healthy).
  destruct (_get_or_fetch_asset_data_healthy_run R token Modes_table
              (AssetId (UgcGameVariant (MatchInfo m)))
              (VersionId (UgcGameVariant (MatchInfo m)))
              (set_db (written (db w) m res) w) m res)
    as (w2 & mode_data & Hmode & Hdisk2 & Hrec2); [done | apply recorded_written |].
  erewrite bind_run by exact Hmode.
  destruct (_get_or_fetch_asset_data_healthy_run R token maps_table
              (AssetId (MapVariant (MatchInfo m)))
              (VersionId (MapVariant (MatchInfo m))) w2 m res)
    as (w3 & map_data & Hmap & Hdisk3 & Hrec3); [done..|].
  erewrite bind_run by exact Hmap.
  destruct (send_match_summary_report_returns m s mode_data map_data w3)
    as (w' & Hsend & Hdb & _).
  exists w', res. split_and!; [done..|]. by rewrite Hdb.
Qed.

(** X18. A run touches neither the plot directory, nor the polling task,
    nor [was_playing], and what it adds to the outbox are summaries of
    matches of its delta with the stats it fetched for them: no other
    message, in particular none about the token, comes out of a run. *)
Theorem check_for_new_matches_footprint (R : Remote) (token : string) (w : World) :
  let delta := delta_from (latest_known_id (latest_of (db w))) (page_of R token) in
  let w' := (check_for_new_matches R token w).1 in
  files w' = files w
  /\ scraper_task w' = scraper_task w
  /\ was_playing w' = was_playing w
  /\ forall n, n ∈ outbox w' ->
       n ∈ outbox w
       \/ exists m s mode_data map_data,
            n = Summary m s mode_data map_data
            /\ m ∈ delta
            /\ get_match_stats R (MatchId m) token = Ok (Py s).
Proof.
  simpl. destruct (check_for_new_matches R token w) as [w' r] eqn:Hrun. simpl.
  apply check_for_new_matches_inv in Hrun as [[[d ->] _] | (w1 & [d ->] & Hrun)].
  - split_and!; try done. intros n Hn. by left.
  - set (delta := delta_from (latest_known_id (latest_of (db w))) (page_of R token)) in *.
    set (sendable := fun n =>
           exists m s mode_data map_data,
             n = Summary m s mode_data map_data
             /\ m ∈ delta
             /\ get_match_stats R (MatchId m) token = Ok (Py s)).
    eapply (process_delta_keeps
              (fun w1 => files w1 = files w
                         /\ scraper_task w1 = scraper_task w
                         /\ was_playing w1 = was_playing w
                         /\ forall n, n ∈ outbox w1 -> n ∈ outbox w \/ sendable n)
              sendable); [..|exact Hrun]; try done.
    + intros w0 sent (? & ? & ? & Hout) Hsent. split_and!; try done.
      intros n [Hn | Hn]%elem_of_app; [by apply Hout|].
      right. by eapply Forall_forall.
    + intros m s mode_data map_data Hm Hstats. by exists m, s, mode_data, map_data.
    + split_and!; try done. intros n Hn. by left.
Qed.

(** ** Recent matches, once more *)

(** X19. Without [session_only], and for a bound that is not negative,
    [get_recent_match_data] returns at most [count] rows, all of them if
    there are no more than [count], and they are the latest ones: a match
    with stats that is left out started no later than any that is
    returned. *)
Theorem recent_rows_are_the_latest (fromisoformat : string -> option Z) (count : Z)
    (w w' : World) (rows : list recent_row) :
  0 <= count ->
  get_recent_match_data fromisoformat count false w = (w', Ok rows) ->
  length rows = Nat.min (Z.to_nat count) (length (matches_join_stats (db w)))
  /\ exists rest,
       matches_join_stats (db w) = (rows ++ rest)%list
       /\ forall r r', r ∈ rows -> r' ∈ rest ->
            String.leb (r_start_time r') (r_start_time r) = true.
Proof.
  intros Hcount Hrun.
  apply get_recent_match_data_inv in Hrun as [_ Hrows].
  specialize (Hrows rows eq_refl). simpl in Hrows. subst rows.
  unfold limit. destruct (count <? 0) eqn:Hneg; [apply Z.ltb_lt in Hneg; lia|].
  split; [apply length_take|].
  exists (drop (Z.to_nat count) (matches_join_stats (db w))).
  split; [by rewrite take_drop|].
  intros r r' Hr Hr'.
  pose proof (matches_join_stats_descending (db w)) as Hdesc.
  rewrite <- (take_drop (Z.to_nat count) (matches_join_stats (db w))) in Hdesc.
  exact (StronglySorted_app_1_elem_of _ _ _ _ _ Hdesc Hr Hr').
Qed.

Section SessionWindow.

Variable fromisoformat : string -> option Z.

Lemma session_loop_chain (rows : list recent_row) :
  forall last session,
    session_loop fromisoformat last rows = Ok session ->
    (forall a others, session = a :: others ->
       exists ta, fromisoformat (r_start_time a) = Some ta /\ last - ta <= two_hours)
    /\ (forall before a b after, session = (before ++ a :: b :: after)%list ->
          exists ta tb,
            fromisoformat (r_start_time a) = Some ta
            /\ fromisoformat (r_start_time b) = Some tb
            /\ ta - tb <= two_hours)
    /\ (forall older rest, rows = (session ++ older :: rest)%list ->
          exists tl t_older,
            last_time fromisoformat last session = Some tl
            /\ fromisoformat (r_start_time older) = Some t_older
            /\ two_hours < tl - t_older).
Proof.
  induction rows as [|m rows IH]; intros last session Hloop; simpl in Hloop.
  { injection Hloop as <-. split_and!.
    - done.
    - intros [|? ?] ? ? ? ?; done.
    - intros older rest Heq. by destruct rest. }
  destruct (fromisoformat (r_start_time m)) as [current|] eqn:Hm; [|done].
  destruct (two_hours <? last - current) eqn:Hgap.
  - injection Hloop as <-. apply Z.ltb_lt in Hgap. split_and!.
    + done.
    + intros [|? ?] ? ? ? ?; done.
    + intros older rest Heq. simpl in Heq. injection Heq as <- _.
      exists last, current. by split_and!.
  - apply Z.ltb_ge in Hgap.
    destruct (session_loop fromisoformat current rows) as [session'|e] eqn:Hrest; [|done].
    injection Hloop as <-.
    destruct (IH current session' Hrest) as (Hfirst & Hgaps & Hstop).
    split_and!.
    + intros a others Heq. injection Heq as <- _. by exists current.
    + intros [|x before] a b after Heq; simpl in Heq.
      * injection Heq as <- Heq.
        destruct (Hfirst b after Heq) as (tb & Hb & Hle).
        by exists current, tb.
      * injection Heq as _ Heq. by eapply Hgaps.
    + intros older rest Heq. simpl in Heq. injection Heq as Heq.
      destruct (Hstop older rest Heq) as (tl & t_older & Hlast & Holder & Hlt).
      exists tl, t_older. split_and!; [|done..].
      unfold last_time in *. destruct session' as [|y session'].
      * simpl in Hlast |- *. congruence.
      * change (list.last (m :: y :: session')) with (list.last (y :: session')).
        destruct (list.last (y :: session')) eqn:Hy; [exact Hlast|].
        by apply last_None in Hy.
Qed.

Lemma session_of_first (first : recent_row) (rest session : list recent_row) :
  session_of fromisoformat (first :: rest) = Ok session ->
  exists t0 others,
    fromisoformat (r_start_time first) = Some t0
    /\ session_loop fromisoformat t0 (first :: rest) = Ok (first :: others)
    /\ session = rev (first :: others).
Proof.
  unfold session_of.
  destruct (fromisoformat (r_start_time first)) as [t0|] eqn:Hfirst; [|done].
  destruct (session_loop fromisoformat t0 (first :: rest)) as [loop|e] eqn:Hloop; [|done].
  intros Hsession. injection Hsession as <-.
  exists t0. simpl in Hloop. rewrite Hfirst in Hloop.
  replace (two_hours <? t0 - t0) with false in Hloop
    by (symmetry; apply Z.ltb_ge; unfold two_hours; lia).
  destruct (session_loop fromisoformat t0 rest) as [others|e] eqn:Hrest; [|done].
  injection Hloop as <-. exists others. split_and!; [done| |done].
  simpl. rewrite Hfirst.
  replace (two_hours <? t0 - t0) with false
    by (symmetry; apply Z.ltb_ge; unfold two_hours; lia).
  by rewrite Hrest.
Qed.

End SessionWindow.

(** X20. The session that [get_recent_match_data] returns with
    [session_only] ends with the latest match that has stats; any two of
    its rows that follow each other started at most two hours apart; and
    the match with stats just before its first row, if there is one,
    started more than two hours earlier than that row. *)
Theorem session_is_the_latest_chain (fromisoformat : string -> option Z) (count : Z)
    (w w' : World) (rows : list recent_row) :
  get_recent_match_data fromisoformat count true w = (w', Ok rows) ->
  (matches_join_stats (db w) = [] -> rows = [])
  /\ (forall latest rest,
        matches_join_stats (db w) = latest :: rest -> list.last rows = Some latest)
  /\ (forall before a b after,
        rows = (before ++ a :: b :: after)%list ->
        exists ta tb,
          fromisoformat (r_start_time a) = Some ta
          /\ fromisoformat (r_start_time b) = Some tb
          /\ tb - ta <= two_hours)
  /\ (forall first others older rest,
        rows = first :: others ->
        matches_join_stats (db w) = (rev rows ++ older :: rest)%list ->
        exists t_first t_older,
          fromisoformat (r_start_time first) = Some t_first
          /\ fromisoformat (r_start_time older) = Some t_older
          /\ two_hours < t_first - t_older).
Proof.
  intros Hrun. apply get_recent_match_data_inv in Hrun as [_ Hrows].
  specialize (Hrows rows eq_refl). simpl in Hrows.
  destruct (matches_join_stats (db w)) as [|first0 rest0] eqn:Hjoined.
  { injection Hrows as <-. split_and!.
    - done.
    - done.
    - intros [|? ?] ? ? ? ?; done.
    - done. }
  destruct (session_of_first _ _ _ _ Hrows) as (t0 & others0 & Hfirst0 & Hloop & ->).
  destruct (session_loop_chain _ _ _ _ Hloop) as (_ & Hgaps & Hstop).
  split_and!.
  - done.
  - intros latest rest Heq. injection Heq as <- _. simpl. apply last_snoc.
  - intros before a b after Heq.
    apply (f_equal (@rev _)) in Heq. rewrite rev_involutive in Heq.
    rewrite rev_app_distr in Heq. simpl in Heq. rewrite <- !app_assoc in Heq.
    simpl in Heq.
    destruct (Hgaps _ _ _ _ Heq) as (tb & ta & Hb & Ha & Hle).
    by exists ta, tb.
  - intros first others older rest Hrows' Heq.
    rewrite rev_involutive in Heq.
    destruct (Hstop older rest Heq) as (tl & t_older & Hlast & Holder & Hlt).
    exists tl, t_older. split_and!; [|done..].
    unfold last_time in Hlast.
    assert (list.last (first0 :: others0) = Some first) as Hl.
    { rewrite <- (rev_involutive (first0 :: others0)), Hrows'. simpl. apply last_snoc. }
    by rewrite Hl in Hlast.
Qed.

(** ** Reports without data *)

Lemma discord_healthy sent w :
  net w = [] -> discord sent w = (set_outbox (outbox w ++ sent) w, Ok tt).
Proof. intros Hnet. unfold discord. by rewrite Hnet. Qed.

(** X21. With no match that has stats, no chart is made: the handler of
    the end of a session sends nothing, and [report] answers that it
    found no match data, after its two other replies; the plot directory
    and the store stay as they are. *)
Theorem no_charts_without_data (fromisoformat : string -> option Z) (w : World) :
  disk w = [] ->
  net w = [] ->
  matches_join_stats (db w) = [] ->
  handle_halo_stopped fromisoformat w
  = ((stop_scraper (set_was_playing false w)).1, Ok tt)
  /\ report fromisoformat w
     = (set_outbox
          (outbox w ++
           [Reply "Generating report...";
            Reply "⚠️ Your current session has fewer than 3 matches. Generating report for the last 20 matches instead.";
            Reply "Could not generate report: No match data found."]) w,
        Ok tt).
Proof.
  intros Hdisk Hnet Hjoined. split.
  - unfold handle_halo_stopped. unfold bind at 1.
    destruct (stop_scraper_stops (set_was_playing false w)) as (w1 & Hstop & _).
    assert (disk w1 = [] /\ db w1 = db w) as [Hdisk1 Hdb1].
    { revert Hstop. unfold stop_scraper. simpl.
      destruct (scraper_task w); intros Hstop; injection Hstop as <-; done. }
    rewrite Hstop. simpl.
    erewrite bind_run by exact Hstop.
    assert (get_recent_match_data fromisoformat 10 false w1 = (w1, Ok [])) as Hrecent.
    { rewrite get_recent_match_data_healthy by done. by rewrite Hdb1, Hjoined. }
    by erewrite bind_run by exact Hrecent.
  - assert (forall count session_only o,
              get_recent_match_data fromisoformat count session_only
                (set_outbox o w) = (set_outbox o w, Ok [])) as Hrecent.
    { intros count session_only o.
      rewrite get_recent_match_data_healthy by done. simpl. rewrite Hjoined.
      destruct session_only; [done|].
      unfold limit. destruct (count <? 0); [done|]. by rewrite take_nil. }
    unfold report, ctx_send.
    erewrite bind_run by (by apply discord_healthy).
    erewrite bind_run by apply Hrecent.
    simpl.
    erewrite bind_run; cycle 1.
    { erewrite bind_run by (by apply discord_healthy). apply Hrecent. }
    cbv iota. rewrite discord_healthy by done.
    simpl. by rewrite <- !app_assoc.
Qed.

(** ** The start of the bot *)

Lemma Get_Latest_Match_healthy w :
  disk w = [] -> Get_Latest_Match w = (w, Ok (latest_of (db w))).
Proof.
  intros Hdisk. unfold Get_Latest_Match, latest_of.
  destruct (order_by_desc _ _) as [|row rows] eqn:Hrows.
  - erewrite with_connection_run; cycle 1.
    { erewrite bind_run by (by apply execute_healthy). rewrite Hrows. reflexivity. }
    by destruct w.
  - erewrite with_connection_run; cycle 1.
    { erewrite bind_run by (by apply execute_healthy). rewrite Hrows. reflexivity. }
    by destruct w.
Qed.

Lemma create_tables_healthy (names : list string) w :
  disk w = [] -> for_each (fun _ : string => execute (Ok tt)) names w = (w, Ok tt).
Proof.
  intros Hdisk. induction names as [|table names IH]; simpl; [done|].
  by erewrite bind_run by (by apply execute_healthy).
Qed.

Lemma init_db_healthy w : disk w = [] -> init_db w = (w, Ok tt).
Proof.
  intros Hdisk. unfold init_db.
  erewrite with_connection_run; cycle 1.
  { erewrite bind_run by (by apply create_tables_healthy). reflexivity. }
  by destruct w.
Qed.

Lemma send_startup_dm_returns w :
  exists w', send_startup_dm w = (w', Ok tt)
    /\ db w' = db w /\ disk w' = disk w
    /\ (net w = [] -> net w' = []).
Proof.
  unfold send_startup_dm, try_except, bind, create_dm, dm_send, discord, ret.
  destruct (net w) as [|[] n] eqn:Hnet; simpl; rewrite ?Hnet;
    [| |destruct n as [|[] n]; simpl];
    eexists; (split_and!; [reflexivity|done..]).
Qed.

(** X22. A failure of Discord while the bot greets the user or sends the
    summary of a match is swallowed: [send_startup_dm] and
    [send_match_summary_report] always return, and leave the store and the
    disk as they are. *)
Theorem notification_failures_are_swallowed (m : halo_match) (s : skill_response)
    (mode_data map_data : option asset_data) (w : World) :
  (exists w', send_startup_dm w = (w', Ok tt) /\ db w' = db w /\ disk w' = disk w)
  /\ (exists w', send_match_summary_report m s mode_data map_data w = (w', Ok tt)
                 /\ db w' = db w /\ disk w' = disk w).
Proof.
  split.
  - destruct (send_startup_dm_returns w) as (w' & ? & ? & ? & _). by exists w'.
  - apply send_match_summary_report_returns.
Qed.

Lemma _check_db_vs_server_matches_401 R token fromisoformat w :
  disk w = [] ->
  matches_endpoint R token 3 = Status 401 ->
  _check_db_vs_server_matches R token fromisoformat w = (w, Raise InvalidTokenError).
Proof.
  intros Hdisk H401. unfold _check_db_vs_server_matches.
  erewrite bind_run by (by apply Get_Latest_Match_healthy).
  unfold get_match_list. by rewrite H401.
Qed.

(** X23. The check at the start of the bot does not handle a rejected
    token: when the match-list call is refused with 401,
    [_check_db_vs_server_matches] raises [InvalidTokenError] before it
    has sent anything, and so does [on_ready], after the greeting. *)
Theorem rejected_token_at_start_escapes (R : Remote) (token : string)
    (fromisoformat : string -> option Z) (guild : option (option (list string)))
    (w : World) :
  disk w = [] ->
  net w = [] ->
  matches_endpoint R token 3 = Status 401 ->
  _check_db_vs_server_matches R token fromisoformat w = (w, Raise InvalidTokenError)
  /\ (on_ready R token fromisoformat guild w).2 = Raise InvalidTokenError
  /\ forall body, Text body ∈ outbox (on_ready R token fromisoformat guild w).1 ->
       Text body ∈ outbox w
       \/ body = "Hi! Bot is online and watching your Halo activity 👋".
Proof.
  intros Hdisk Hnet H401. split; [by apply _check_db_vs_server_matches_401|].
  assert (exists w1,
            match guild with
            | Some member =>
              discord [] ;;;
              match member with
              | Some activities =>
                if existsb (String.eqb "Halo Infinite") activities
                then handle_halo_started else ret tt
              | None => ret tt
              end
            | None => ret tt
            end w = (w1, Ok tt)
            /\ disk w1 = [] /\ net w1 = [] /\ outbox w1 = outbox w)
    as (w1 & Hguild & Hdisk1 & Hnet1 & Hout1).
  { destruct guild as [member|]; [|by exists w].
    erewrite bind_run by (by apply discord_healthy).
    destruct member as [activities|];
      [|eexists; split_and!; [reflexivity|done..|simpl; by rewrite app_nil_r]].
    destruct (existsb _ _);
      [|eexists; split_and!; [reflexivity|done..|simpl; by rewrite app_nil_r]].
    unfold handle_halo_started, bind, start_scraper. simpl.
    destruct (scraper_task w);
      eexists; split_and!; try reflexivity; try done; simpl; by rewrite app_nil_r. }
  unfold on_ready.
  erewrite bind_run by exact Hguild.
  erewrite bind_run by (by apply init_db_healthy).
  assert (send_startup_dm w1
          = (set_outbox (outbox w1 ++
               [Text "Hi! Bot is online and watching your Halo activity 👋"]) w1, Ok tt))
    as Hgreet.
  { unfold send_startup_dm, try_except, bind, create_dm, dm_send.
    rewrite discord_healthy by done. rewrite discord_healthy by done.
    simpl. by rewrite app_nil_r. }
  erewrite bind_run by exact Hgreet.
  rewrite _check_db_vs_server_matches_401 by done.
  simpl. split; [done|].
  intros body [Hin | Hin]%elem_of_app.
  - left. by rewrite <- Hout1.
  - right. apply list_elem_of_singleton in Hin. by injection Hin.
Qed.

Lemma discord_Ok sent w w' :
  discord sent w = (w', Ok tt) -> outbox w' = (outbox w ++ sent)%list /\ db w' = db w.
Proof.
  unfold discord. destruct (net w) as [|[] n]; intros Hrun; by injection Hrun as <-.
Qed.

(** X24. When the check at the start of the bot returns, it has sent one
    verdict and left the store as it is. It says that the database is up
    to date with the latest match on the server only if the first match of
    the server's list is stored, and that the database is behind only if
    that match has another id than the latest stored one and a later start
    time, both times read as timestamps. *)
Theorem startup_verdict (R : Remote) (token : string)
    (fromisoformat : string -> option Z) (w w' : World) :
  _check_db_vs_server_matches R token fromisoformat w = (w', Ok tt) ->
  db w' = db w
  /\ exists verdict server_matches,
       outbox w' = (outbox w ++ [Text verdict])%list
       /\ get_match_list R token 3 = Ok server_matches
       /\ (verdict = "✅ Your local match database is up-to-date with the latest match on the server." ->
           exists first,
             server_latest server_matches = Some first
             /\ is_Some (matches (db w) !! MatchId first))
       /\ (verdict = "🔄 Your local match database is behind the latest match on the server. The bot will catch up." ->
           exists l first t_db t_server,
             latest_of (db w) = Some l
             /\ server_latest server_matches = Some first
             /\ latest_MatchId l <> MatchId first
             /\ fromisoformat (latest_StartTime l) = Some t_db
             /\ fromisoformat (StartTime (MatchInfo first)) = Some t_server
             /\ t_db < t_server).
Proof.
  unfold _check_db_vs_server_matches. intros Hrun.
  apply bind_Ok in Hrun as (w1 & db_latest & Hlatest & Hrun).
  apply Get_Latest_Match_inv in Hlatest as [Hw1 [Hlatest | ?]]; [|done].
  injection Hlatest as ->.
  apply bind_Ok in Hrun as (w2 & server_matches & Hlist & Hrun).
  injection Hlist as <- Hlist.
  apply bind_Ok in Hrun as (w3 & [] & Hdm & Hrun).
  apply discord_Ok in Hdm as [Hout3 Hdb3]. rewrite app_nil_r in Hout3.
  destruct Hw1 as [d ->]. simpl in Hout3, Hdb3.
  assert (forall body,
            dm_send body w3 = (w', Ok tt) ->
            db w' = db w /\ outbox w' = (outbox w ++ [Text body])%list) as Hsend.
  { intros body Hbody. apply discord_Ok in Hbody as [-> ->]. by rewrite Hout3, Hdb3. }
  destruct (latest_of (db w)) as [l|] eqn:Hl,
           (server_latest server_matches) as [first|] eqn:Hfirst.
  - destruct (String.eqb (latest_MatchId l) (MatchId first)) eqn:Hid.
    + apply Hsend in Hrun as [Hdb Hout]. split; [done|].
      eexists _, server_matches. split_and!; [done..| |done].
      intros _. exists first. split; [done|].
      apply String.eqb_eq in Hid. rewrite <- Hid.
      destruct (latest_of_Some _ _ Hl) as (row & Hrow & _). by exists row.
    + apply String.eqb_neq in Hid.
      apply bind_Ok in Hrun as (w4 & t_db & Hdb_time & Hrun).
      apply bind_Ok in Hrun as (w5 & t_server & Hserver_time & Hrun).
      unfold parse_start_time, lift in Hdb_time, Hserver_time.
      destruct (fromisoformat (latest_StartTime l)) as [t1|] eqn:Ht1; [|done].
      destruct (fromisoformat (StartTime (MatchInfo first))) as [t2|] eqn:Ht2; [|done].
      injection Hdb_time as <- <-. injection Hserver_time as <- <-.
      destruct (t1 <? t2) eqn:Hlt.
      * apply Hsend in Hrun as [Hdb Hout]. split; [done|].
        eexists _, server_matches. split_and!; [done..|done|].
        intros _. exists l, first, t1, t2. split_and!; try done. by apply Z.ltb_lt.
      * apply Hsend in Hrun as [Hdb Hout]. split; [done|].
        eexists _, server_matches. split_and!; done.
  - apply Hsend in Hrun as [Hdb Hout]. split; [done|].
    eexists _, server_matches. split_and!; done.
  - apply Hsend in Hrun as [Hdb Hout]. split; [done|].
    eexists _, server_matches. split_and!; done.
  - apply Hsend in Hrun as [Hdb Hout]. split; [done|].
    eexists _, server_matches. split_and!; done.
Qed.

(** ** Reading and writing, once more *)

Lemma db_kept {A} (c : M A) :
  (forall c0, stable (fun w => db w = c0) c) -> forall w, db (c w).1 = db w.
Proof.
  intros Hstable w. destruct (c w) as [w' r] eqn:Hrun. simpl.
  by eapply (Hstable (db w) w w' r).
Qed.

(** X25. Nothing but a run writes to the store: the reads of
    [utils/match_cache.py], [report], the presence handler and [on_ready]
    with its startup check leave the committed content as it is, however
    they end and whatever the disk and Discord do. *)
Theorem everything_but_a_run_is_read_only (R : Remote) (token : string) (USER_ID : Z)
    (fromisoformat : string -> option Z) (w : World) :
  db (init_db w).1 = db w
  /\ db (Get_Latest_Match w).1 = db w
  /\ (forall t asset_id version_id,
        db (get_asset_from_db t asset_id version_id w).1 = db w)
  /\ (forall count session_only,
        db (get_recent_match_data fromisoformat count session_only w).1 = db w)
  /\ db (report fromisoformat w).1 = db w
  /\ (forall after_id activities,
        db (on_presence_update USER_ID fromisoformat after_id activities w).1 = db w)
  /\ (forall guild, db (on_ready R token fromisoformat guild w).1 = db w).
Proof.
  split_and!.
  - apply db_kept. intros c0. by apply init_db_keeps.
  - apply db_kept. intros c0. by apply Get_Latest_Match_keeps.
  - intros t asset_id version_id.
    destruct (get_asset_from_db t asset_id version_id w) as [w' r] eqn:Hrun.
    apply get_asset_from_db_inv in Hrun as [Hw _]. by apply only_disk_db.
  - intros count session_only. apply db_kept. intros c0.
    by apply get_recent_match_data_keeps.
  - apply db_kept. intros c0. by apply (report_keeps _ (fun _ => True)).
  - intros after_id activities. apply db_kept. intros c0.
    by apply (on_presence_update_keeps _ (fun _ => True)).
  - intros guild. apply db_kept. intros c0.
    by apply (on_ready_keeps _ (fun _ => True)).
Qed.

Lemma latest_of_written_later c m res :
  (forall id row, matches c !! id = Some row ->
     String.ltb (start_time row) (StartTime (MatchInfo m)) = true) ->
  latest_of (written c m res)
  = Some {| latest_MatchId := MatchId m; latest_StartTime := StartTime (MatchInfo m) |}.
Proof.
  intros Hlater.
  destruct (latest_of (written c m res)) as [l|] eqn:Hl.
  - destruct (latest_of_Some _ _ Hl) as (row & Hrow & Htime & Hmax).
    destruct l as [id start]. simpl in *.
    destruct (decide (id = MatchId m)) as [-> | Hne].
    + rewrite lookup_insert_eq in Hrow. injection Hrow as <-. by rewrite Htime.
    + rewrite lookup_insert_ne in Hrow by done.
      specialize (Hmax (MatchId m) (match_row_of m)).
      rewrite lookup_insert_eq in Hmax. specialize (Hmax eq_refl). simpl in Hmax.
      apply Hlater in Hrow. rewrite leb_ltb, Hrow in Hmax. done.
  - pose proof (latest_of_None _ (MatchId m) Hl) as Hnone.
    simpl in Hnone. by rewrite lookup_insert_eq in Hnone.
Qed.

(** X26. A match that is saved and started later than every stored match
    is what [Get_Latest_Match] returns next, so the next run asks for the
    matches after it. *)
Theorem saved_later_match_is_the_latest (m : halo_match) (s : skill_response)
    (res : skill_result) (w : World) :
  disk w = [] ->
  value_0_result s = Ok res ->
  (forall id row, matches (db w) !! id = Some row ->
     String.ltb (start_time row) (StartTime (MatchInfo m)) = true) ->
  (save_match_data m s ;;; Get_Latest_Match) w
  = (set_db (written (db w) m res) w,
     Ok (Some {| latest_MatchId := MatchId m;
                 latest_StartTime := StartTime (MatchInfo m) |})).
Proof.
  intros Hdisk Hres Hlater.
  erewrite bind_run by (by apply save_match_data_healthy).
  rewrite Get_Latest_Match_healthy by done.
  simpl. by rewrite latest_of_written_later.
Qed.

(** * Examples of the further properties *)

(** Stats whose ["Value"] is an empty list, on a disk that refuses a
    statement: the save raises and nothing is written. *)
Lemma save_match_data_without_result_witness :
  exists w' e',
    save_match_data m1000 {| Value := Some [] |} world_failing_disk = (w', Raise e')
    /\ db w' = db world_failing_disk.
Proof.
  exact (save_match_data_without_result m1000 {| Value := Some [] |} IndexError
           world_failing_disk eq_refl).
Defined.

Lemma save_match_data_twice_witness :
  exists w2,
    save_match_data m1000 sample_stats (world_of (sample_store [m1000])) = (w2, Ok tt)
    /\ same_rows (db w2) (db (world_of (sample_store [m1000])))
    /\ (rowid_of (db (world_of (sample_store [m1000]))) (MatchId m1000)
        < rowid_of (db w2) (MatchId m1000))%nat
    /\ forall id, id <> MatchId m1000 ->
         rowid_of (db w2) id = rowid_of (db (world_of (sample_store [m1000]))) id.
Proof.
  apply (save_match_data_twice m1000 sample_stats (world_of empty_store)).
  - reflexivity.
  - vm_compute. reflexivity.
Defined.

Lemma save_match_data_commute_witness :
  let wa := ((save_match_data m1000 sample_stats ;;; save_match_data m1030 stats_team_c)
               (world_of empty_store)).1 in
  let wb := ((save_match_data m1030 stats_team_c ;;; save_match_data m1000 sample_stats)
               (world_of empty_store)).1 in
  same_rows (db wa) (db wb)
  /\ (rowid_of (db wa) (MatchId m1000) < rowid_of (db wa) (MatchId m1030))%nat
  /\ (rowid_of (db wb) (MatchId m1030) < rowid_of (db wb) (MatchId m1000))%nat.
Proof.
  intros wa wb.
  apply (save_match_data_commute m1000 m1030 sample_stats stats_team_c
           (world_of empty_store) wa wb).
  - reflexivity.
  - by_decide.
  - vm_compute. reflexivity.
  - vm_compute. reflexivity.
Defined.

(** Two matches that started at the same time: [Get_Latest_Match] gives the
    one that was saved first, whichever it is. *)
Example latest_of_tie_is_first_saved :
  let a := sample_match "a" "2025-08-26T10:00:00Z" in
  let b := sample_match "b" "2025-08-26T10:00:00Z" in
  (Get_Latest_Match (world_of (sample_store [a; b]))).2
  = Ok (Some {| latest_MatchId := "a"; latest_StartTime := "2025-08-26T10:00:00Z" |})
  /\ (Get_Latest_Match (world_of (sample_store [b; a]))).2
     = Ok (Some {| latest_MatchId := "b"; latest_StartTime := "2025-08-26T10:00:00Z" |})
  /\ (Get_Latest_Match (world_of (sample_store [a; b; a]))).2
     = Ok (Some {| latest_MatchId := "b"; latest_StartTime := "2025-08-26T10:00:00Z" |}).
Proof. split_and!; vm_compute; reflexivity. Qed.

Lemma Get_Latest_Match_is_latest_witness :
  db world_two_known = db world_two_known
  /\ exists row,
       matches (db world_two_known) !! "m1030" = Some row
       /\ "2025-08-26T10:30:00Z" = start_time row
       /\ forall id' row', matches (db world_two_known) !! id' = Some row' ->
            String.leb (start_time row') (start_time row) = true.
Proof.
  apply (Get_Latest_Match_is_latest world_two_known world_two_known
           (Some {| latest_MatchId := "m1030";
                    latest_StartTime := "2025-08-26T10:30:00Z" |})).
  vm_compute. reflexivity.
Defined.

(** The user starts playing, the polling task wakes up twice, and the user
    asks for a refresh and for a report. *)
Lemma store_changes_only_by_saves_and_assets_witness :
  stats_have_match
    (db (foldl (fun w ev => react remote_ready "token" 7 fromisoformat_utc ev w)
           (world_at_start empty_store)
           [PresenceUpdate 7 ["Halo Infinite"]; Wake; Wake; RefreshCommand;
            ReportCommand])).
Proof.
  apply (store_changes_only_by_saves_and_assets stats_have_match).
  - intros c m res. apply stats_have_match_written.
  - intros c t asset_id version_id a. apply stats_have_match_store_asset.
  - apply stats_have_match_empty.
Defined.

Lemma matches_and_stats_stay_paired_witness :
  rows_paired
    (db (foldl (fun w ev => react remote_ready "token" 7 fromisoformat_utc ev w)
           (world_at_start empty_store)
           [Ready (Some (Some ["Halo Infinite"])); Wake; PresenceUpdate 7 []])).
Proof.
  apply matches_and_stats_stay_paired. apply rows_paired_empty.
Defined.

Lemma polling_task_only_while_playing_witness :
  polls_only_while_playing
    (foldl (fun w ev => react remote_stats_401 "token" 7 fromisoformat_utc ev w)
       (world_at_start empty_store)
       [PresenceUpdate 7 ["Halo Infinite"]; Wake; PresenceUpdate 7 []; Wake]).
Proof.
  apply polling_task_only_while_playing. intros Htask. discriminate Htask.
Defined.

Lemma polling_ends_with_the_first_exception_witness :
  let w' := (check_for_new_matches remote_stats_401 "token" (world_of empty_store)).1 in
  Nat.iter 3 (check_new_games_loop remote_stats_401 "token") (world_of empty_store)
  = set_scraper_task Done w'
  /\ start_scraper (set_scraper_task Done w') = (set_scraper_task Running w', Ok tt).
Proof.
  apply (polling_ends_with_the_first_exception remote_stats_401 "token"
           (world_of empty_store) _ InvalidTokenError 2).
  - reflexivity.
  - vm_compute. reflexivity.
Defined.

Lemma stats_401_ends_the_run_witness :
  for_each (_process_new_match remote_stats_401 "token") [m1100; m1030]
    (world_of empty_store)
  = ((for_each (_process_new_match remote_stats_401 "token") [m1100]
        (world_of empty_store)).1,
     Raise InvalidTokenError)
  /\ forall match_id, get_match_stats remote_stats_401 match_id "token" <> Ok PyFalse.
Proof.
  apply (stats_401_ends_the_run remote_stats_401 "token" [m1100] [] m1030).
  - vm_compute. reflexivity.
  - vm_compute. reflexivity.
Defined.

(** The stats of the first match of the page are not ready, those of the
    second are: the second is in the store after the run. *)
Lemma check_for_new_matches_saves_what_is_ready_witness :
  exists res,
    value_0_result sample_stats = Ok res
    /\ recorded
         (db (check_for_new_matches remote_stats_503 "token" (world_of empty_store)).1)
         m1030 res.
Proof.
  apply (check_for_new_matches_saves_what_is_ready remote_stats_503 "token"
           (world_of empty_store) _ m1030).
  - by_decide.
  - vm_compute. reflexivity.
  - apply list_elem_of_In. vm_compute. right. left. reflexivity.
Defined.

Lemma ready_stats_have_a_rank_recap_witness :
  skill_endpoint remote_ready "token" "m1000" = Body sample_stats
  /\ truthy sample_stats = true
  /\ exists res, value_0_result sample_stats = Ok res /\ is_Some (RankRecap res).
Proof.
  apply (ready_stats_have_a_rank_recap remote_ready "token" "m1000").
  vm_compute. reflexivity.
Defined.

(** The map is fetched from a remote that serves it, and then found in the
    cache when asked of a remote that serves no asset. *)
Lemma fetched_asset_is_cached_witness :
  let w1 := (_get_or_fetch_asset_data remote_with_assets "token" maps_table "map" "v1"
               (world_of empty_store)).1 in
  _get_or_fetch_asset_data remote_ready "token" maps_table "map" "v1" w1
  = (w1, Ok (Some (Cached {| name := Some "Live Fire"; description := None |}))).
Proof.
  apply (fetched_asset_is_cached remote_with_assets remote_ready "token" "token"
           maps_table "map" "v1"
           {| PublicName := Some "Live Fire"; Description := None |}
           (world_of empty_store)).
  - vm_compute. reflexivity.
  - reflexivity.
Defined.

(** The second call to Discord fails: the summary is not sent, the match is
    saved. *)
Lemma match_is_saved_whatever_discord_does_witness :
  exists w' res,
    _process_new_match remote_ready "token" m1100 world_failing_discord = (w', Ok tt)
    /\ value_0_result sample_stats = Ok res
    /\ recorded (db w') m1100 res.
Proof.
  apply (match_is_saved_whatever_discord_does remote_ready "token" m1100 sample_stats
           world_failing_discord
           (save_match_data m1100 sample_stats world_failing_discord).1).
  - reflexivity.
  - vm_compute. reflexivity.
  - vm_compute. reflexivity.
Defined.

Lemma recent_rows_are_the_latest_witness :
  let w := world_of (sample_store [m1000; m1030; m1100]) in
  length [sample_row m1100; sample_row m1030]
  = Nat.min (Z.to_nat 2) (length (matches_join_stats (db w)))
  /\ exists rest,
       matches_join_stats (db w) = ([sample_row m1100; sample_row m1030] ++ rest)%list
       /\ forall r r', r ∈ [sample_row m1100; sample_row m1030] -> r' ∈ rest ->
            String.leb (r_start_time r') (r_start_time r) = true.
Proof.
  apply (recent_rows_are_the_latest fromisoformat_utc 2
           (world_of (sample_store [m1000; m1030; m1100]))
           (world_of (sample_store [m1000; m1030; m1100]))).
  - lia.
  - vm_compute. reflexivity.
Defined.

(** Matches at 10:00, 10:30 and 11:00: one session; with the match of
    13:30 stored as well, the session is that match alone. *)
Lemma session_is_the_latest_chain_witness :
  let w := world_of (sample_store [m1000; m1030; m1100]) in
  let rows := [sample_row m1000; sample_row m1030; sample_row m1100] in
  (matches_join_stats (db w) = [] -> rows = [])
  /\ (forall latest rest,
        matches_join_stats (db w) = latest :: rest -> list.last rows = Some latest)
  /\ (forall before a b after,
        rows = (before ++ a :: b :: after)%list ->
        exists ta tb,
          fromisoformat_utc (r_start_time a) = Some ta
          /\ fromisoformat_utc (r_start_time b) = Some tb
          /\ tb - ta <= two_hours)
  /\ (forall first others older rest,
        rows = first :: others ->
        matches_join_stats (db w) = (rev rows ++ older :: rest)%list ->
        exists t_first t_older,
          fromisoformat_utc (r_start_time first) = Some t_first
          /\ fromisoformat_utc (r_start_time older) = Some t_older
          /\ two_hours < t_first - t_older).
Proof.
  apply (session_is_the_latest_chain fromisoformat_utc 10
           (world_of (sample_store [m1000; m1030; m1100]))
           (world_of (sample_store [m1000; m1030; m1100]))).
  vm_compute. reflexivity.
Defined.

Lemma no_charts_without_data_witness :
  handle_halo_stopped fromisoformat_utc (world_of empty_store)
  = ((stop_scraper (set_was_playing false (world_of empty_store))).1, Ok tt)
  /\ report fromisoformat_utc (world_of empty_store)
     = (set_outbox
          (outbox (world_of empty_store) ++
           [Reply "Generating report...";
            Reply "⚠️ Your current session has fewer than 3 matches. Generating report for the last 20 matches instead.";
            Reply "Could not generate report: No match data found."])
          (world_of empty_store),
        Ok tt).
Proof.
  apply (no_charts_without_data fromisoformat_utc (world_of empty_store)).
  - reflexivity.
  - reflexivity.
  - vm_compute. reflexivity.
Defined.

Lemma rejected_token_at_start_escapes_witness :
  let w := world_at_start empty_store in
  let guild := Some (Some ["Halo Infinite"]) in
  _check_db_vs_server_matches remote_list_401 "token" fromisoformat_utc w
  = (w, Raise InvalidTokenError)
  /\ (on_ready remote_list_401 "token" fromisoformat_utc guild w).2
     = Raise InvalidTokenError
  /\ forall body,
       Text body ∈ outbox (on_ready remote_list_401 "token" fromisoformat_utc guild w).1 ->
       Text body ∈ outbox w
       \/ body = "Hi! Bot is online and watching your Halo activity 👋".
Proof.
  apply (rejected_token_at_start_escapes remote_list_401 "token" fromisoformat_utc
           (Some (Some ["Halo Infinite"])) (world_at_start empty_store)).
  - reflexivity.
  - reflexivity.
  - reflexivity.
Defined.

(** The store knows the matches of 10:00 and 10:30, the server lists the
    match of 13:30 first: the database is behind. *)
Lemma startup_verdict_witness :
  let w' := (_check_db_vs_server_matches remote_ready "token" fromisoformat_utc
               world_two_known).1 in
  db w' = db world_two_known
  /\ exists verdict server_matches,
       outbox w' = (outbox world_two_known ++ [Text verdict])%list
       /\ get_match_list remote_ready "token" 3 = Ok server_matches
       /\ (verdict = "✅ Your local match database is up-to-date with the latest match on the server." ->
           exists first,
             server_latest server_matches = Some first
             /\ is_Some (matches (db world_two_known) !! MatchId first))
       /\ (verdict = "🔄 Your local match database is behind the latest match on the server. The bot will catch up." ->
           exists l first t_db t_server,
             latest_of (db world_two_known) = Some l
             /\ server_latest server_matches = Some first
             /\ latest_MatchId l <> MatchId first
             /\ fromisoformat_utc (latest_StartTime l) = Some t_db
             /\ fromisoformat_utc (StartTime (MatchInfo first)) = Some t_server
             /\ t_db < t_server).
Proof.
  apply (startup_verdict remote_ready "token" fromisoformat_utc world_two_known).
  vm_compute. reflexivity.
Defined.

Example startup_says_behind :
  outbox (_check_db_vs_server_matches remote_ready "token" fromisoformat_utc
            world_two_known).1
  = [Text "🔄 Your local match database is behind the latest match on the server. The bot will catch up."].
Proof. vm_compute. reflexivity. Qed.

Lemma saved_later_match_is_the_latest_witness :
  (save_match_data m1100 sample_stats ;;; Get_Latest_Match) world_two_known
  = (set_db (written (db world_two_known) m1100 sample_result) world_two_known,
     Ok (Some {| latest_MatchId := "m1100";
                 latest_StartTime := "2025-08-26T11:00:00Z" |})).
Proof.
  apply (saved_later_match_is_the_latest m1100 sample_stats sample_result world_two_known).
  - reflexivity.
  - reflexivity.
  - intros id row Hrow.
    destruct (decide (id = "m1030")) as [-> | Hne1];
      [injection Hrow as <-; reflexivity|].
    destruct (decide (id = "m1000")) as [-> | Hne2];
      [injection Hrow as <-; reflexivity|].
    exfalso. revert Hrow. unfold world_two_known, sample_store. simpl.
    by rewrite !lookup_insert_ne, lookup_empty.
Defined.
